(** * AsyncNetBase: the core of caffe2's asynchronous net executor

    A shallow embedding of [caffe2/core/net_async_base.cc].  The methods of
    the C++ class [AsyncNetBase] become computations in a small state and
    exception monad over a record that holds the members of the class; the
    collaborators the file only calls (operators, the event primitive, the
    chain planner, the thread pool registry) are the fields of a type class.

    Conventions.
    - [int] values are [Z]; container indices (operator ids, task ids) are
      [nat], so a negative index is excluded by typing.
    - Indexing a vector out of range, [front()]/[back()] of an empty vector,
      signed overflow and [% 0] are undefined behaviour in C++: the model
      stops with [Undefined].
    - A loop that may not terminate takes fuel and stops with [Diverges]
      when the fuel runs out.
    - Logging ([LOG]) and tracing ([TRACE_EVENT], [tracing::...]) have no
      effect on the state of the class and are left out. *)

From Stdlib Require Import ZArith String List Bool Lia.
From stdpp Require Import base option list strings gmap pretty.

(** ** Machine integers *)

Definition INT_MAX : Z := 2147483647.
Definition INT_MIN : Z := -2147483648.

Definition is_int (x : Z) : Prop := (INT_MIN <= x <= INT_MAX)%Z.

(** Two's complement wrap-around of a 32 bit signed integer, as the
    arithmetic of [std::atomic<int>] is defined. *)
Definition wrap_int (x : Z) : Z := ((x - INT_MIN) mod 2 ^ 32 + INT_MIN)%Z.

(** [caffe2::to_string] on an [int]. *)
Definition to_string (x : Z) : string := pretty x.

(** ** Data model *)

Record DeviceOption := {
  device_type : Z;
  has_device_id : bool;
  device_id : Z
}.

Inductive EventStatus :=
| EVENT_INITIALIZED
| EVENT_SCHEDULED
| EVENT_SUCCESS
| EVENT_FAILED.

#[global] Instance EventStatus_eq_dec : EqDecision EventStatus.
Proof. solve_decision. Defined.

Record Event := {
  event_type : Z;
  event_option : DeviceOption;
  event_status : EventStatus;
  event_err_msg : string
}.

Record OperatorBase := {
  op_type : string;
  op_has_debug_def : bool;
  op_device_option : DeviceOption;
  op_supports_async_scheduling : bool;
  op_event : Event;
  op_event_disabled : bool
}.

(** [dag_utils::OperatorNode]: the operator itself is the entry of
    [operators_] at the same index. *)
Record OperatorNode := {
  runtime_parent_count_ : Z;
  scheduled_ : bool
}.

(** [dag_utils::OpGraphNode] of a chain. *)
Record ChainNode := {
  children_ : list nat;
  parents_ : list nat
}.

Record TaskThreadPool := {
  pool_device_name : string;
  pool_device_id : Z;
  pool_size : Z;
  pool_per_net : bool
}.

(** [PoolsMap]: device id, then pool size, to a shared pool.  A null
    [shared_ptr] stored under a key is identified with a missing key. *)
Abbreviation PoolsMap := (gmap Z (gmap Z TaskThreadPool)).

Inductive exception :=
| EnforceNotMet (msg : string)    (* CAFFE_ENFORCE..., CAFFE_THROW *)
| std_exception (msg : string)    (* any other std::exception *)
| unknown_exception (tag : Z).    (* not derived from std::exception *)

(** [e.what()] for the exceptions [catch (const std::exception& e)]
    catches; [None] for those only [catch (...)] catches. *)
Definition what (e : exception) : option string :=
  match e with
  | EnforceNotMet msg => Some msg
  | std_exception msg => Some msg
  | unknown_exception _ => None
  end.

(** The command line flags the file defines, with their defaults. *)
Record Flags := {
  FLAGS_caffe2_streams_per_gpu : Z;
  FLAGS_caffe2_net_async_inference_mode : bool;
  FLAGS_caffe2_net_async_finish_chain : bool;
  FLAGS_caffe2_net_async_always_schedule_child : bool;
  FLAGS_caffe2_net_async_max_gpus : Z;
  FLAGS_caffe2_net_async_max_numa_nodes : Z;
  FLAGS_caffe2_net_async_cpu_pool_size : Z;
  FLAGS_caffe2_net_async_check_stream_status : bool;
  FLAGS_caffe2_net_async_use_single_pool : bool;
  FLAGS_caffe2_net_async_use_per_net_pools : bool
}.

Definition default_flags : Flags := {|
  FLAGS_caffe2_streams_per_gpu := 1;
  FLAGS_caffe2_net_async_inference_mode := false;
  FLAGS_caffe2_net_async_finish_chain := false;
  FLAGS_caffe2_net_async_always_schedule_child := false;
  FLAGS_caffe2_net_async_max_gpus := 16;
  FLAGS_caffe2_net_async_max_numa_nodes := 8;
  FLAGS_caffe2_net_async_cpu_pool_size := 0;
  FLAGS_caffe2_net_async_check_stream_status := false;
  FLAGS_caffe2_net_async_use_single_pool := false;
  FLAGS_caffe2_net_async_use_per_net_pools := false
|}.

(** The members [computeExecutionModeFlags] sets. *)
Record ExecutionMode := {
  streams_per_gpu_ : Z;
  finish_chain_ : bool;
  always_schedule_child_ : bool;
  check_stream_status_ : bool;
  use_single_pool_ : bool;
  use_per_net_pools_ : bool;
  is_blocking_ : bool;
  report_stats_ : bool
}.

Record Argument := {
  arg_has_name : bool;
  arg_name : string;
  arg_has_i : bool;
  arg_i : Z
}.

Record NetDef := {
  net_name : string;
  net_has_type : bool;
  net_type : string;
  net_has_num_workers : bool;
  net_num_workers : Z;
  net_arg : list Argument
}.

(** One mark of [ProfDAGCounters]: [AddPerOpStartTime] ([false]) or
    [AddPerOpEndTime] ([true]) of an operator. *)
Definition ProfMark : Type := nat * bool.

(** ** The event primitive *)

(** Modelled from the spec: the readers of [Event] (caffe2/core/event.h,
    not part of the sources at hand): [Query] returns the status, [GetType]
    a device type tag, [GetDeviceOption] the device the event belongs to. *)
Definition Event_Query (e : Event) : EventStatus := event_status e.
Definition Event_GetType (e : Event) : Z := event_type e.
Definition Event_GetDeviceOption (e : Event) : DeviceOption := event_option e.

Definition terminal (s : EventStatus) : bool :=
  match s with
  | EVENT_SUCCESS | EVENT_FAILED => true
  | EVENT_INITIALIZED | EVENT_SCHEDULED => false
  end.

Definition with_status (s : EventStatus) (msg : string) (e : Event) : Event :=
  {| event_type := event_type e;
     event_option := event_option e;
     event_status := s;
     event_err_msg := msg |}.

(** Modelled from the spec: [Event::SetFinished] is declared in
    caffe2/core/event.h, which is not part of the sources at hand.  The spec
    has it force the transition to a terminal state, and to FAILED with the
    message when one is given; without a message the event is taken to
    finish successfully. *)
Definition Event_SetFinished (err_msg : option string) (e : Event) : Event :=
  match err_msg with
  | None => with_status EVENT_SUCCESS (event_err_msg e) e
  | Some msg => with_status EVENT_FAILED msg e
  end.

(** Modelled from the spec: [Event::Finish] (caffe2/core/event.h) blocks
    until the event is terminal.  What the device makes of the work behind
    the event is not decided by this file: [completion] is the outcome the
    caller finds when the call returns, [None] for success and [Some msg]
    for a failure.  A terminal event is returned as it is. *)
Definition Event_Finish (completion : option string) (e : Event) : Event :=
  if terminal (event_status e) then e
  else match completion with
       | None => with_status EVENT_SUCCESS (event_err_msg e) e
       | Some msg => with_status EVENT_FAILED msg e
       end.

(** Modelled from the spec: [Event::Reset] (caffe2/core/event.h); events are
    reset to INITIALIZED at the start of every run. *)
Definition Event_Reset (e : Event) : Event := with_status EVENT_INITIALIZED "" e.

(** Modelled from the spec: the policy table [Event::CanSchedule]
    (caffe2/core/event.h) as section 4.2 of the spec gives it, reading "the
    same async-capable device family" as equal event types. *)
Definition CanSchedule_policy
    (parent_type : Z) (parent_status : EventStatus)
    (child_type : Z) (child_supports_async : bool) : bool :=
  match parent_status with
  | EVENT_SUCCESS => true
  | EVENT_FAILED => false
  | EVENT_SCHEDULED => (parent_type =? child_type)%Z && child_supports_async
  | EVENT_INITIALIZED => false
  end.

(** ** Collaborators *)

(** What a call into an operator leaves behind: a value or an exception,
    and the operators as the call left them. *)
Inductive OpResult (A : Type) :=
| Returns (a : A) (ops : list OperatorBase)
| Throws (e : exception) (ops : list OperatorBase).
Arguments Returns {A} a ops.
Arguments Throws {A} e ops.

(** Everything the file uses and does not define.  Operators and events
    are addressed by operator id, the index into [operators_]. *)
Class Platform := {
  (* DeviceTypeProto of caffe2.proto *)
  PROTO_CPU : Z;
  PROTO_CUDA : Z;
  PROTO_MKLDNN : Z;
  PROTO_IDEEP : Z;
  PROTO_ONLY_FOR_TEST : Z;
  (* the build macro of caffe2/core/common.h *)
  CAFFE2_USE_EXCEPTION_PTR : bool;
  DeviceTypeName : Z -> string;
  (* ThreadPoolRegistry()->Create(name, device_id, pool_size, per_net) *)
  ThreadPoolRegistry_Create : string -> Z -> Z -> bool -> option TaskThreadPool;
  (* Event::CanSchedule *)
  Event_CanSchedule : Z -> EventStatus -> Z -> bool -> bool;
  (* the outcome Event::Finish finds for the event of an operator *)
  Event_completion : nat -> option string;
  (* op->RunAsync(stream_id) *)
  Operator_RunAsync : nat -> Z -> list OperatorBase -> OpResult bool;
  (* op->Finish() *)
  Operator_Finish : nat -> list OperatorBase -> OpResult unit;
  (* op->WaitEvents(events, stream_id), the events given by operator id *)
  Operator_WaitEvents : nat -> list nat -> Z -> list OperatorBase -> OpResult unit;
  (* op->IsStreamFree(stream_id) at the n-th poll of the device *)
  Operator_IsStreamFree : nat -> Z -> nat -> bool;
  (* dag_utils: the planner *)
  prepareOperatorNodes : NetDef -> list (OperatorBase * OperatorNode);
  computeGroups : list (OperatorBase * OperatorNode) -> list (nat * list nat);
  computeChains : list (OperatorBase * OperatorNode) -> list (nat * list nat);
  prepareChainGraphNodes :
    list (OperatorBase * OperatorNode) -> list (list nat) -> list ChainNode
}.

(** ** The state of the class *)

(** The members of [AsyncNetBase], and with them the state outside the
    object its methods read or write: the command line flags, the
    thread-local vector behind [getStreamCounters] (of the calling thread)
    and the number of times the device was asked whether a stream is free. *)
Record AsyncNetBase := {
  operators_ : list OperatorBase;
  operator_nodes_ : list OperatorNode;
  chains_ : list (list nat);
  chain_nodes_ : list ChainNode;
  events_ : list nat;
  num_workers_ : Z;
  mode_ : ExecutionMode;
  cpu_pools_ : PoolsMap;
  gpu_pools_ : PoolsMap;
  success_ : bool;
  caught_exception_ : option exception;
  counters_ : list ProfMark;
  FLAGS : Flags;
  stream_counters_ : list Z;
  stream_polls : nat
}.

Definition set_operators (v : list OperatorBase) (w : AsyncNetBase) : AsyncNetBase :=
  {| operators_ := v; operator_nodes_ := operator_nodes_ w; chains_ := chains_ w;
     chain_nodes_ := chain_nodes_ w; events_ := events_ w; num_workers_ := num_workers_ w;
     mode_ := mode_ w; cpu_pools_ := cpu_pools_ w; gpu_pools_ := gpu_pools_ w;
     success_ := success_ w; caught_exception_ := caught_exception_ w;
     counters_ := counters_ w; FLAGS := FLAGS w;
     stream_counters_ := stream_counters_ w; stream_polls := stream_polls w |}.

Definition set_operator_nodes (v : list OperatorNode) (w : AsyncNetBase) : AsyncNetBase :=
  {| operators_ := operators_ w; operator_nodes_ := v; chains_ := chains_ w;
     chain_nodes_ := chain_nodes_ w; events_ := events_ w; num_workers_ := num_workers_ w;
     mode_ := mode_ w; cpu_pools_ := cpu_pools_ w; gpu_pools_ := gpu_pools_ w;
     success_ := success_ w; caught_exception_ := caught_exception_ w;
     counters_ := counters_ w; FLAGS := FLAGS w;
     stream_counters_ := stream_counters_ w; stream_polls := stream_polls w |}.

Definition set_events (v : list nat) (w : AsyncNetBase) : AsyncNetBase :=
  {| operators_ := operators_ w; operator_nodes_ := operator_nodes_ w; chains_ := chains_ w;
     chain_nodes_ := chain_nodes_ w; events_ := v; num_workers_ := num_workers_ w;
     mode_ := mode_ w; cpu_pools_ := cpu_pools_ w; gpu_pools_ := gpu_pools_ w;
     success_ := success_ w; caught_exception_ := caught_exception_ w;
     counters_ := counters_ w; FLAGS := FLAGS w;
     stream_counters_ := stream_counters_ w; stream_polls := stream_polls w |}.

Definition set_cpu_pools (v : PoolsMap) (w : AsyncNetBase) : AsyncNetBase :=
  {| operators_ := operators_ w; operator_nodes_ := operator_nodes_ w; chains_ := chains_ w;
     chain_nodes_ := chain_nodes_ w; events_ := events_ w; num_workers_ := num_workers_ w;
     mode_ := mode_ w; cpu_pools_ := v; gpu_pools_ := gpu_pools_ w;
     success_ := success_ w; caught_exception_ := caught_exception_ w;
     counters_ := counters_ w; FLAGS := FLAGS w;
     stream_counters_ := stream_counters_ w; stream_polls := stream_polls w |}.

Definition set_gpu_pools (v : PoolsMap) (w : AsyncNetBase) : AsyncNetBase :=
  {| operators_ := operators_ w; operator_nodes_ := operator_nodes_ w; chains_ := chains_ w;
     chain_nodes_ := chain_nodes_ w; events_ := events_ w; num_workers_ := num_workers_ w;
     mode_ := mode_ w; cpu_pools_ := cpu_pools_ w; gpu_pools_ := v;
     success_ := success_ w; caught_exception_ := caught_exception_ w;
     counters_ := counters_ w; FLAGS := FLAGS w;
     stream_counters_ := stream_counters_ w; stream_polls := stream_polls w |}.

Definition set_success (v : bool) (w : AsyncNetBase) : AsyncNetBase :=
  {| operators_ := operators_ w; operator_nodes_ := operator_nodes_ w; chains_ := chains_ w;
     chain_nodes_ := chain_nodes_ w; events_ := events_ w; num_workers_ := num_workers_ w;
     mode_ := mode_ w; cpu_pools_ := cpu_pools_ w; gpu_pools_ := gpu_pools_ w;
     success_ := v; caught_exception_ := caught_exception_ w;
     counters_ := counters_ w; FLAGS := FLAGS w;
     stream_counters_ := stream_counters_ w; stream_polls := stream_polls w |}.

Definition set_caught_exception (v : option exception) (w : AsyncNetBase) : AsyncNetBase :=
  {| operators_ := operators_ w; operator_nodes_ := operator_nodes_ w; chains_ := chains_ w;
     chain_nodes_ := chain_nodes_ w; events_ := events_ w; num_workers_ := num_workers_ w;
     mode_ := mode_ w; cpu_pools_ := cpu_pools_ w; gpu_pools_ := gpu_pools_ w;
     success_ := success_ w; caught_exception_ := v;
     counters_ := counters_ w; FLAGS := FLAGS w;
     stream_counters_ := stream_counters_ w; stream_polls := stream_polls w |}.

Definition set_counters (v : list ProfMark) (w : AsyncNetBase) : AsyncNetBase :=
  {| operators_ := operators_ w; operator_nodes_ := operator_nodes_ w; chains_ := chains_ w;
     chain_nodes_ := chain_nodes_ w; events_ := events_ w; num_workers_ := num_workers_ w;
     mode_ := mode_ w; cpu_pools_ := cpu_pools_ w; gpu_pools_ := gpu_pools_ w;
     success_ := success_ w; caught_exception_ := caught_exception_ w;
     counters_ := v; FLAGS := FLAGS w;
     stream_counters_ := stream_counters_ w; stream_polls := stream_polls w |}.

Definition set_stream_counters (v : list Z) (w : AsyncNetBase) : AsyncNetBase :=
  {| operators_ := operators_ w; operator_nodes_ := operator_nodes_ w; chains_ := chains_ w;
     chain_nodes_ := chain_nodes_ w; events_ := events_ w; num_workers_ := num_workers_ w;
     mode_ := mode_ w; cpu_pools_ := cpu_pools_ w; gpu_pools_ := gpu_pools_ w;
     success_ := success_ w; caught_exception_ := caught_exception_ w;
     counters_ := counters_ w; FLAGS := FLAGS w;
     stream_counters_ := v; stream_polls := stream_polls w |}.

Definition set_stream_polls (v : nat) (w : AsyncNetBase) : AsyncNetBase :=
  {| operators_ := operators_ w; operator_nodes_ := operator_nodes_ w; chains_ := chains_ w;
     chain_nodes_ := chain_nodes_ w; events_ := events_ w; num_workers_ := num_workers_ w;
     mode_ := mode_ w; cpu_pools_ := cpu_pools_ w; gpu_pools_ := gpu_pools_ w;
     success_ := success_ w; caught_exception_ := caught_exception_ w;
     counters_ := counters_ w; FLAGS := FLAGS w;
     stream_counters_ := stream_counters_ w; stream_polls := v |}.

(** ** The monad of the methods *)

Inductive Res (A : Type) :=
| Val (a : A) (w : AsyncNetBase)          (* returned [a] *)
| Throw (e : exception) (w : AsyncNetBase) (* left by an exception *)
| Undefined                                (* undefined behaviour *)
| Diverges.                                (* out of fuel *)
Arguments Val {A} a w.
Arguments Throw {A} e w.
Arguments Undefined {A}.
Arguments Diverges {A}.

Definition M (A : Type) : Type := AsyncNetBase -> Res A.

Definition ret {A} (a : A) : M A := fun w => Val a w.

Definition bind {A B} (m : M A) (k : A -> M B) : M B :=
  fun w =>
    match m w with
    | Val a w' => k a w'
    | Throw e w' => Throw e w'
    | Undefined => Undefined
    | Diverges => Diverges
    end.

Notation "x <- m ;; k" := (bind m (fun x => k))
  (at level 100, m at next level, right associativity).
Notation "m ;; k" := (bind m (fun _ => k))
  (at level 100, right associativity).

Definition get {A} (f : AsyncNetBase -> A) : M A := fun w => Val (f w) w.
Definition modify (f : AsyncNetBase -> AsyncNetBase) : M unit := fun w => Val tt (f w).
Definition throw {A} (e : exception) : M A := fun w => Throw e w.
Definition undefined {A} : M A := fun _ => Undefined.

(** [try { m } catch (e) { return h e; }] followed by [k]: the handler
    covers [m] only, and what it returns is what the method returns. *)
Definition guarded {A B} (m : M A) (h : exception -> M B) (k : A -> M B) : M B :=
  fun w =>
    match m w with
    | Val a w' => k a w'
    | Throw e w' => h e w'
    | Undefined => Undefined
    | Diverges => Diverges
    end.

(** [v[i]]: undefined out of range. *)
Definition index {A} (v : list A) (i : nat) : M A :=
  match v !! i with
  | Some x => ret x
  | None => undefined
  end.

(** [v.at(i)]: throws [std::out_of_range] out of range. *)
Definition at_ {A} (v : list A) (i : nat) : M A :=
  match v !! i with
  | Some x => ret x
  | None => throw (std_exception "out_of_range")
  end.

Definition front {A} (v : list A) : M A :=
  match head v with
  | Some x => ret x
  | None => undefined
  end.

Definition back {A} (v : list A) : M A :=
  match last v with
  | Some x => ret x
  | None => undefined
  end.

(** [CAFFE_ENFORCE(cond, msg)] and its comparison variants. *)
Definition CAFFE_ENFORCE (cond : bool) (msg : string) : M unit :=
  if cond then ret tt else throw (EnforceNotMet msg).

Definition CAFFE_THROW {A} (msg : string) : M A := throw (EnforceNotMet msg).

(** A range-based [for] loop. *)
Fixpoint for_each {A} (l : list A) (body : A -> M unit) : M unit :=
  match l with
  | [] => ret tt
  | x :: l' => body x ;; for_each l' body
  end.

(** A call into an operator: it works on the operators and on nothing
    else of the net. *)
Definition call {A} (f : list OperatorBase -> OpResult A) : M A :=
  fun w =>
    match f (operators_ w) with
    | Returns a ops => Val a (set_operators ops w)
    | Throws e ops => Throw e (set_operators ops w)
    end.

(** ** The methods of AsyncNetBase *)

Definition set_event (f : Event -> Event) (o : OperatorBase) : OperatorBase :=
  {| op_type := op_type o;
     op_has_debug_def := op_has_debug_def o;
     op_device_option := op_device_option o;
     op_supports_async_scheduling := op_supports_async_scheduling o;
     op_event := f (op_event o);
     op_event_disabled := op_event_disabled o |}.

(** Modelled from the spec: [OperatorBase::DisableEvent]
    (caffe2/core/operator.h, not part of the sources at hand) marks the
    event of the operator as disabled. *)
Definition DisableEvent (o : OperatorBase) : OperatorBase :=
  {| op_type := op_type o;
     op_has_debug_def := op_has_debug_def o;
     op_device_option := op_device_option o;
     op_supports_async_scheduling := op_supports_async_scheduling o;
     op_event := op_event o;
     op_event_disabled := true |}.

(** Modelled from the spec: [OperatorBase::ResetEvent]
    (caffe2/core/operator.h) resets the event of the operator. *)
Definition ResetEvent (o : OperatorBase) : OperatorBase := set_event Event_Reset o.

(** [computeExecutionModeFlags]: the loop over the arguments of the net. *)
Fixpoint enable_profiling_arg (args : list Argument) (report_stats : bool)
    : exception + bool :=
  match args with
  | [] => inr report_stats
  | arg :: rest =>
      if arg_has_name arg && String.eqb (arg_name arg) "enable_profiling" then
        if arg_has_i arg then inr (arg_i arg =? 1)%Z
        else inl (EnforceNotMet "enable_profiling should be an int")
      else enable_profiling_arg rest report_stats
  end.

Definition computeExecutionModeFlags (F : Flags) (net_def : NetDef)
    : exception + ExecutionMode :=
  let kDag := "dag" in
  let kProfDag := "prof_dag" in
  let kAsyncDag := "async_dag" in
  let kSimpleNet := "simple" in
  let net_type :=
    if net_has_type net_def && negb (String.eqb (net_type net_def) "")
    then net_type net_def else kSimpleNet in
  let preset :=
    if String.eqb net_type kDag || String.eqb net_type kProfDag then
      {| streams_per_gpu_ := 1; finish_chain_ := true; always_schedule_child_ := true;
         check_stream_status_ := false; use_single_pool_ := true;
         use_per_net_pools_ := true; is_blocking_ := true;
         report_stats_ := String.eqb net_type kProfDag |}
    else if String.eqb net_type kAsyncDag then
      {| streams_per_gpu_ := 1; finish_chain_ := false; always_schedule_child_ := true;
         check_stream_status_ := false; use_single_pool_ := true;
         use_per_net_pools_ := true; is_blocking_ := true;
         report_stats_ := false |}
    else
      {| streams_per_gpu_ := FLAGS_caffe2_streams_per_gpu F;
         finish_chain_ := FLAGS_caffe2_net_async_finish_chain F;
         always_schedule_child_ := FLAGS_caffe2_net_async_always_schedule_child F;
         check_stream_status_ := FLAGS_caffe2_net_async_check_stream_status F;
         use_single_pool_ := FLAGS_caffe2_net_async_use_single_pool F;
         use_per_net_pools_ := FLAGS_caffe2_net_async_use_per_net_pools F;
         is_blocking_ := false;
         report_stats_ := false |} in
  match enable_profiling_arg (net_arg net_def) (report_stats_ preset) with
  | inl e => inl e
  | inr report_stats =>
      inr {| streams_per_gpu_ := streams_per_gpu_ preset;
             finish_chain_ := finish_chain_ preset;
             always_schedule_child_ := always_schedule_child_ preset;
             check_stream_status_ := check_stream_status_ preset;
             use_single_pool_ := use_single_pool_ preset;
             use_per_net_pools_ := use_per_net_pools_ preset;
             is_blocking_ := is_blocking_ preset;
             report_stats_ := report_stats |}
  end.

Inductive PoolsRef := the_cpu_pools | the_gpu_pools.

Definition pools_of (r : PoolsRef) (w : AsyncNetBase) : PoolsMap :=
  match r with
  | the_cpu_pools => cpu_pools_ w
  | the_gpu_pools => gpu_pools_ w
  end.

Definition set_pools (r : PoolsRef) (v : PoolsMap) (w : AsyncNetBase) : AsyncNetBase :=
  match r with
  | the_cpu_pools => set_cpu_pools v w
  | the_gpu_pools => set_gpu_pools v w
  end.

Section Methods.
Context `{P : Platform}.

(** [operators_[op_id]] *)
Definition operator (op_id : nat) : M OperatorBase :=
  ops <- get operators_ ;; index ops op_id.

(** A mutating call [operators_[op_id]->f()] on an operator at hand. *)
Definition update_operator (op_id : nat) (f : OperatorBase -> OperatorBase) : M unit :=
  modify (fun w => set_operators (alter f op_id (operators_ w)) w).

(** [chains_[task_id]] *)
Definition chain (task_id : nat) : M (list nat) :=
  chains <- get chains_ ;; index chains task_id.

Definition getStreamCounters : M (list Z) := get stream_counters_.

(** The body of the inner loop of the constructor, over the operators of
    a chain. *)
Definition disable_inner_event (chain : list nat) (op_id : nat) : M unit :=
  b <- back chain ;;
  f <- front chain ;;
  if (op_id =? b) || (op_id =? f) then ret tt
  else
    _ <- operator op_id ;;
    update_operator op_id DisableEvent.

Definition disable_inner_events (chain : list nat) : M unit :=
  for_each chain (disable_inner_event chain).

(** The body of the loop of the constructor over the chains. *)
Definition init_chain_events (chain : list nat) : M unit :=
  last_id <- back chain ;;
  _ <- operator last_id ;;
  modify (fun w => set_events (events_ w ++ [last_id]) w) ;;
  report_stats <- get (fun w => report_stats_ (mode_ w)) ;;
  if negb report_stats then disable_inner_events chain else ret tt.

(** The body of the constructor from [events_.reserve] on. *)
Definition init_events : M unit :=
  chains <- get chains_ ;;
  for_each chains init_chain_events.

Inductive Construction :=
| Constructed (w : AsyncNetBase)
| ConstructorThrows (e : exception)
| ConstructorUndefined.

(** The constructor, for a calling thread that has not selected a stream
    yet.  [success_] is not set before the first [reset]; it starts as
    [true] here.  The executor helper and the tracer are left out. *)
Definition AsyncNetBase_new (F : Flags) (net_def : NetDef) : Construction :=
  match computeExecutionModeFlags F net_def with
  | inl e => ConstructorThrows e
  | inr mode =>
      let nodes := prepareOperatorNodes net_def in
      let execution_chains :=
        if FLAGS_caffe2_net_async_inference_mode F
        then computeGroups nodes else computeChains nodes in
      let chains := map snd execution_chains in
      match
        init_events
          {| operators_ := map fst nodes;
             operator_nodes_ := map snd nodes;
             chains_ := chains;
             chain_nodes_ := prepareChainGraphNodes nodes chains;
             events_ := [];
             num_workers_ :=
               if net_has_num_workers net_def then net_num_workers net_def else (-1)%Z;
             mode_ := mode;
             cpu_pools_ := ∅;
             gpu_pools_ := ∅;
             success_ := true;
             caught_exception_ := None;
             counters_ := [];
             FLAGS := F;
             stream_counters_ := [];
             stream_polls := 0 |}
      with
      | Val _ w => Constructed w
      | Throw e _ => ConstructorThrows e
      | Undefined | Diverges => ConstructorUndefined
      end
  end.

Definition tasksNum : M nat := chains <- get chains_ ;; ret (length chains).

(** [event(task_id)]: the reference it returns is the id of the operator
    that owns the event. *)
Definition event (task_id : nat) : M nat :=
  task <- chain task_id ;;
  last_task_op <- back task ;;
  _ <- operator last_task_op ;;
  ret last_task_op.

Definition read_event (op_id : nat) : M Event :=
  o <- operator op_id ;; ret (op_event o).

Definition query (task_id : nat) : M EventStatus :=
  ev <- event task_id ;;
  e <- read_event ev ;;
  ret (Event_Query e).

Definition children (task_id : nat) : M (list nat) :=
  nodes <- get chain_nodes_ ;;
  task_node <- index nodes task_id ;;
  ret (children_ task_node).

Definition parents (task_id : nat) : M (list nat) :=
  nodes <- get chain_nodes_ ;;
  task_node <- index nodes task_id ;;
  ret (parents_ task_node).

Definition handleRunError : M bool :=
  (if CAFFE2_USE_EXCEPTION_PTR then
     caught <- get caught_exception_ ;;
     match caught with
     | Some e => throw e
     | None => ret tt
     end
   else ret tt) ;;
  get success_.

(** The body of the loop of [reset] over the tasks. *)
Definition reset_task (task_id : nat) : M unit :=
  task_ops <- chain task_id ;;
  first_id <- front task_ops ;;
  nodes <- get operator_nodes_ ;;
  _ <- index nodes first_id ;;
  ps <- parents task_id ;;
  modify (set_operator_nodes
            (<[first_id := {| runtime_parent_count_ := Z.of_nat (length ps);
                              scheduled_ := false |}]> nodes)).

Definition reset : M unit :=
  modify (fun w => set_operators (map ResetEvent (operators_ w)) w) ;;
  n <- tasksNum ;;
  for_each (seq 0 n) reset_task ;;
  modify (set_success true) ;;
  if CAFFE2_USE_EXCEPTION_PTR then modify (set_caught_exception None) else ret tt.

(** [RunAsync], for the [DoRunAsync] of a subclass. *)
Definition RunAsync (DoRunAsync : M bool) : M bool :=
  reset ;; DoRunAsync.

Definition poolGetter (pools : PoolsRef) (device_type device_id pool_size : Z)
    : M (option TaskThreadPool) :=
  m <- get (pools_of pools) ;;
  match m !! device_id ≫= (fun sized => sized !! pool_size) with
  | Some pool => ret (Some pool)
  | None =>
      per_net <- get (fun w => use_per_net_pools_ (mode_ w)) ;;
      match ThreadPoolRegistry_Create (DeviceTypeName device_type) device_id pool_size per_net with
      | Some pool =>
          modify (set_pools pools
                    (<[device_id := <[pool_size := pool]> (default ∅ (m !! device_id))]> m)) ;;
          ret (Some pool)
      | None => ret None
      end
  end.

Definition cpu_types : list Z :=
  [PROTO_CPU; PROTO_MKLDNN; PROTO_IDEEP; PROTO_ONLY_FOR_TEST].

Definition pool (device_option : DeviceOption) : M (option TaskThreadPool) :=
  single <- get (fun w => use_single_pool_ (mode_ w)) ;;
  num_workers <- get num_workers_ ;;
  if single then poolGetter the_cpu_pools PROTO_CPU (-1) num_workers
  else if bool_decide (device_type device_option ∈ cpu_types) then
    numa_node_id <-
      (if has_device_id device_option then
         let numa_node_id := device_id device_option in
         CAFFE_ENFORCE (0 <=? numa_node_id)%Z
           ("Invalid NUMA node id: " +:+ to_string numa_node_id) ;;
         ret numa_node_id
       else ret (-1)%Z) ;;
    max_numa_nodes <- get (fun w => FLAGS_caffe2_net_async_max_numa_nodes (FLAGS w)) ;;
    CAFFE_ENFORCE (numa_node_id <? max_numa_nodes)%Z
      ("Invalid NUMA node id: " +:+ to_string numa_node_id) ;;
    poolGetter the_cpu_pools PROTO_CPU numa_node_id num_workers
  else if (device_type device_option =? PROTO_CUDA)%Z then
    let gpu_id := device_id device_option in
    max_gpus <- get (fun w => FLAGS_caffe2_net_async_max_gpus (FLAGS w)) ;;
    CAFFE_ENFORCE ((0 <=? gpu_id)%Z && (gpu_id <? max_gpus)%Z)
      ("Invalid GPU id: " +:+ to_string gpu_id) ;;
    poolGetter the_gpu_pools PROTO_CUDA gpu_id num_workers
  else
    CAFFE_THROW ("Unsupported device type " +:+ to_string (device_type device_option)).

(** [isStreamFree]: what the device answers changes with time, and
    [stream_polls] counts the questions asked so far. *)
Definition isStreamFree (task_id : nat) (stream_id : Z) : M bool :=
  task <- chain task_id ;;
  last_task_op <- back task ;;
  _ <- operator last_task_op ;;
  n <- get stream_polls ;;
  modify (set_stream_polls (S n)) ;;
  ret (Operator_IsStreamFree last_task_op stream_id n).

(** The body of the [do ... while] of [stream]:
    [stream_id = getStreamCounters().at(gpu_id)++;
     getStreamCounters().at(gpu_id) %= streams_per_gpu_;] *)
Definition next_stream (gpu_id : nat) : M Z :=
  counters <- getStreamCounters ;;
  stream_id <- at_ counters gpu_id ;;
  (if (stream_id <? INT_MAX)%Z then ret tt else undefined) ;;
  streams_per_gpu <- get (fun w => streams_per_gpu_ (mode_ w)) ;;
  (if (streams_per_gpu =? 0)%Z then undefined else ret tt) ;;
  modify (set_stream_counters
            (<[gpu_id := Z.rem (stream_id + 1) streams_per_gpu]> counters)) ;;
  ret stream_id.

Fixpoint stream_loop (fuel : nat) (task_id gpu_id : nat) : M Z :=
  match fuel with
  | O => fun _ => Diverges
  | S fuel' =>
      stream_id <- next_stream gpu_id ;;
      check <- get (fun w => check_stream_status_ (mode_ w)) ;;
      if check then
        free <- isStreamFree task_id stream_id ;;
        if negb free then stream_loop fuel' task_id gpu_id else ret stream_id
      else ret stream_id
  end.

Definition stream (fuel : nat) (task_id : nat) : M Z :=
  ev <- event task_id ;;
  e <- read_event ev ;;
  let device_option := Event_GetDeviceOption e in
  if (device_type device_option =? PROTO_CUDA)%Z then
    let gpu_id := device_id device_option in
    CAFFE_ENFORCE (0 <=? gpu_id)%Z ("Invalid gpu id: " +:+ to_string gpu_id) ;;
    counters <- getStreamCounters ;;
    (if (Z.of_nat (length counters) <=? gpu_id)%Z then
       modify (set_stream_counters (resize (Z.to_nat (gpu_id + 1)) 0%Z counters))
     else ret tt) ;;
    stream_loop fuel task_id (Z.to_nat gpu_id)
  else ret 0%Z.

(** [canSchedule(task_id, status, parent_failed)]: the loop over the
    parents.  [status] is [None] for a null pointer; [parent_failed] is
    [None] for a null pointer and [Some b] for a pointer to a [bool] that
    holds [b].  The result is the value returned and what [parent_failed]
    points to afterwards. *)
Fixpoint canSchedule_parents (first_child_op_id : nat)
    (status : option (list EventStatus)) (parent_failed : option bool)
    (parent_ids : list nat) : M (bool * option bool) :=
  match parent_ids with
  | [] => ret (true, parent_failed)
  | parent_id :: rest =>
      parent_chain <- chain parent_id ;;
      last_parent_op_id <- back parent_chain ;;
      parent_status <-
        match status with
        | Some statuses => at_ statuses parent_id
        | None =>
            last_parent_op <- operator last_parent_op_id ;;
            ret (Event_Query (op_event last_parent_op))
        end ;;
      if bool_decide (parent_status = EVENT_FAILED) then
        ret (false, match parent_failed with Some _ => Some true | None => None end)
      else
        last_parent_op <- operator last_parent_op_id ;;
        first_child_op <- operator first_child_op_id ;;
        let can_schedule :=
          Event_CanSchedule
            (Event_GetType (op_event last_parent_op))
            parent_status
            (Event_GetType (op_event first_child_op))
            (op_supports_async_scheduling first_child_op) in
        if negb can_schedule then ret (false, parent_failed)
        else canSchedule_parents first_child_op_id status parent_failed rest
  end.

Definition canSchedule (task_id : nat) (status : option (list EventStatus))
    (parent_failed : option bool) : M (bool * option bool) :=
  task <- chain task_id ;;
  first_child_op_id <- front task ;;
  parent_ids <- parents task_id ;;
  canSchedule_parents first_child_op_id status parent_failed parent_ids.

(** The overload [canSchedule(parent_id, child_id)]. *)
Definition canSchedule_pair (parent_id child_id : nat) : M bool :=
  parent_event_id <- event parent_id ;;
  parent_event <- read_event parent_event_id ;;
  child <- chain child_id ;;
  first_child_op_id <- front child ;;
  first_child_op <- operator first_child_op_id ;;
  ret (Event_CanSchedule
         (Event_GetType parent_event)
         (Event_Query parent_event)
         (Event_GetType (op_event first_child_op))
         (op_supports_async_scheduling first_child_op)).

Definition getParentCount (child_id : nat) : M Z :=
  child_ops <- chain child_id ;;
  first_id <- front child_ops ;;
  nodes <- get operator_nodes_ ;;
  child_node <- index nodes first_id ;;
  ret (runtime_parent_count_ child_node).

Definition updateParentCount (child_id : nat) : M Z :=
  child_ops <- chain child_id ;;
  first_id <- front child_ops ;;
  nodes <- get operator_nodes_ ;;
  child_node <- index nodes first_id ;;
  let parent_count := wrap_int (runtime_parent_count_ child_node - 1) in
  modify (set_operator_nodes
            (<[first_id := {| runtime_parent_count_ := parent_count;
                              scheduled_ := scheduled_ child_node |}]> nodes)) ;;
  CAFFE_ENFORCE (0 <=? parent_count)%Z "" ;;
  ret parent_count.

Definition testAndSetScheduled (task_id : nat) : M bool :=
  task_ops <- chain task_id ;;
  first_id <- front task_ops ;;
  nodes <- get operator_nodes_ ;;
  task_op_node <- index nodes first_id ;;
  modify (set_operator_nodes
            (<[first_id := {| runtime_parent_count_ := runtime_parent_count_ task_op_node;
                              scheduled_ := true |}]> nodes)) ;;
  ret (negb (scheduled_ task_op_node)).

Definition numOps (task_id : nat) : M nat :=
  task <- chain task_id ;; ret (length task).

Definition firstTaskOpId (task_id : nat) : M nat :=
  task <- chain task_id ;; front task.

Definition lastTaskOpId (task_id : nat) : M nat :=
  task <- chain task_id ;; back task.

Fixpoint events_of (task_ids : list nat) : M (list nat) :=
  match task_ids with
  | [] => ret []
  | task_id :: rest =>
      ev <- event task_id ;;
      evs <- events_of rest ;;
      ret (ev :: evs)
  end.

Definition asyncWait (task_id : nat) (stream_id : Z) (wait_task_ids : list nat) : M unit :=
  task <- chain task_id ;;
  first_op_id <- front task ;;
  _ <- operator first_op_id ;;
  events <- events_of wait_task_ids ;;
  call (Operator_WaitEvents first_op_id events stream_id).

(** [storeExceptionPtr], for the exception being handled. *)
Definition storeExceptionPtr (current_exception : exception) : M unit :=
  if CAFFE2_USE_EXCEPTION_PTR then
    caught <- get caught_exception_ ;;
    match caught with
    | None => modify (set_caught_exception (Some current_exception))
    | Some _ => ret tt
    end
  else ret tt.

Definition setTaskErrorMessage (task_id : nat) (err_msg : string) : M unit :=
  status <- query task_id ;;
  if bool_decide (status = EVENT_INITIALIZED) then
    ev <- event task_id ;;
    update_operator ev (set_event (Event_SetFinished (Some err_msg)))
  else ret tt.

(** [op->has_debug_def() ? op->type() : " unknown"] *)
Definition type_or_unknown (o : OperatorBase) : string :=
  if op_has_debug_def o then op_type o else " unknown".

(** The two handlers of [run], for the value of the local variable [op]
    at the throw: [None] for a null pointer. *)
Definition run_catch (task_id : nat) (op : option nat) (e : exception) : M bool :=
  storeExceptionPtr e ;;
  let err_msg :=
    match what e with
    | Some msg => msg
    | None => "Failed to execute task: unknown error"
    end in
  err_msg <-
    match op with
    | Some op_id =>
        o <- operator op_id ;;
        ret (err_msg +:+ ",  op " +:+ type_or_unknown o)
    | None => ret err_msg
    end ;;
  setTaskErrorMessage task_id err_msg ;;
  ret false.

Definition AddPerOpStartTime (op_id : nat) : M unit :=
  modify (fun w => set_counters (counters_ w ++ [(op_id, false)]) w).

Definition AddPerOpEndTime (op_id : nat) : M unit :=
  modify (fun w => set_counters (counters_ w ++ [(op_id, true)]) w).

(** One operator of the chain, up to the test of [success]. *)
Definition run_op (op_id : nat) (stream_id : Z) : M bool :=
  op <- operator op_id ;;
  report_stats <- get (fun w => report_stats_ (mode_ w)) ;;
  if negb report_stats then
    call (Operator_RunAsync op_id stream_id)
  else
    AddPerOpStartTime op_id ;;
    success <- call (Operator_RunAsync op_id stream_id) ;;
    (if success && negb (device_type (op_device_option op) =? PROTO_CPU)%Z
     then call (Operator_Finish op_id) else ret tt) ;;
    AddPerOpEndTime op_id ;;
    ret success.

(** The branch of [run] for an operator that returned [false], up to
    [return false]. *)
Definition report_failed_op (task_id op_id : nat) : M unit :=
  op <- operator op_id ;;
  let err_msg := "Failed to execute an op: " +:+ type_or_unknown op in
  setTaskErrorMessage task_id err_msg.

(** The loop of [run] over the operators of the chain; [after] is the
    rest of the [try] block. *)
Fixpoint run_ops (task_id : nat) (stream_id : Z) (op_ids : list nat)
    (after : M bool) : M bool :=
  match op_ids with
  | [] => after
  | op_id :: rest =>
      guarded (run_op op_id stream_id) (run_catch task_id (Some op_id))
        (fun success =>
           if negb success then
             guarded (report_failed_op task_id op_id)
               (run_catch task_id (Some op_id))
               (fun _ => ret false)
           else run_ops task_id stream_id rest after)
  end.

(** The first statement of the [try] block of [run]. *)
Definition run_wait (task_id : nat) (stream_id : Z) : M unit :=
  finish_chain <- get (fun w => finish_chain_ (mode_ w)) ;;
  if negb finish_chain then
    ps <- parents task_id ;;
    asyncWait task_id stream_id ps
  else ret tt.

(** The last statement of the [try] block of [run]. *)
Definition run_finish (task_id : nat) : M unit :=
  finish_chain <- get (fun w => finish_chain_ (mode_ w)) ;;
  if finish_chain then
    task <- chain task_id ;;
    last_id <- back task ;;
    _ <- operator last_id ;;
    update_operator last_id (set_event (Event_Finish (Event_completion last_id)))
  else ret tt.

Definition run (task_id : nat) (stream_id : Z) : M bool :=
  guarded (run_wait task_id stream_id) (run_catch task_id None)
    (fun _ =>
       guarded (chain task_id) (run_catch task_id None)
         (fun op_ids =>
            run_ops task_id stream_id op_ids
              (guarded (run_finish task_id) (run_catch task_id None)
                 (fun _ => ret true)))).

Definition finishTasks (task_ids : list nat) : M unit :=
  for_each task_ids (fun task_id =>
    ev <- event task_id ;;
    update_operator ev (set_event (Event_Finish (Event_completion ev)))).

(** The body of the loop of [finalizeEvents]. *)
Definition finalize_task (task_id : nat) : M unit :=
  status <- query task_id ;;
  if bool_decide (status = EVENT_SCHEDULED) then
    ev <- event task_id ;;
    update_operator ev (set_event (Event_Finish (Event_completion ev)))
  else if bool_decide (status = EVENT_INITIALIZED) then
    ev <- event task_id ;;
    update_operator ev (set_event (Event_SetFinished None))
  else ret tt.

Definition finalizeEvents : M unit :=
  n <- tasksNum ;;
  for_each (seq 0 n) finalize_task.

End Methods.

(** ** Well-formed nets and readings of the state *)

(** A chain is not empty and names operators of the net. *)
Definition chain_ok (n_ops : nat) (c : list nat) : Prop :=
  c <> [] /\ Forall (fun op_id => op_id < n_ops) c.

(** The structure the planner leaves behind: chains over the operators,
    a node per operator and per chain, parents that are chains. *)
Record well_formed (w : AsyncNetBase) : Prop := {
  wf_chains : Forall (chain_ok (length (operators_ w))) (chains_ w);
  wf_operator_nodes : length (operator_nodes_ w) = length (operators_ w);
  wf_chain_nodes : length (chain_nodes_ w) = length (chains_ w);
  wf_parents :
    Forall (fun node => Forall (fun p => p < length (chains_ w)) (parents_ node))
           (chain_nodes_ w)
}.

Definition head_op (w : AsyncNetBase) (task_id : nat) : option nat :=
  chains_ w !! task_id ≫= head.

Definition tail_op (w : AsyncNetBase) (task_id : nat) : option nat :=
  chains_ w !! task_id ≫= last.

Definition event_of (w : AsyncNetBase) (op_id : nat) : option Event :=
  op_event <$> operators_ w !! op_id.

(** The event of the last operator of a chain. *)
Definition tail_event (w : AsyncNetBase) (task_id : nat) : option Event :=
  tail_op w task_id ≫= event_of w.

(** What [finalizeEvents] does to the event of operator [op_id]. *)
Definition finalized `{P : Platform} (op_id : nat) (e : Event) : Event :=
  match event_status e with
  | EVENT_SCHEDULED => Event_Finish (Event_completion op_id) e
  | EVENT_INITIALIZED => Event_SetFinished None e
  | EVENT_SUCCESS | EVENT_FAILED => e
  end.

(** The state a computation leaves behind, when it ends. *)
Definition state_after {A} (r : Res A) : option AsyncNetBase :=
  match r with
  | Val _ w => Some w
  | Throw _ w => Some w
  | Undefined | Diverges => None
  end.

(** Whenever [m] ends, the state it leaves is related by [R] to the one
    it started from. *)
Definition preserves (R : relation AsyncNetBase) {A} (m : M A) : Prop :=
  forall w w', state_after (m w) = Some w' -> R w w'.

(** The relations used to frame the methods: preorders that hold across
    a call into an operator. *)
Class FrameRel (R : relation AsyncNetBase) : Prop := {
  #[global] frame_preorder :: PreOrder R;
  frame_operators : forall ops w, R w (set_operators ops w)
}.

(** The error slot is left alone: [success_] is not written, and an
    exception that was captured before is the one captured afterwards. *)
Definition slot_kept (w w' : AsyncNetBase) : Prop :=
  success_ w' = success_ w /\
  forall e, caught_exception_ w = Some e -> caught_exception_ w' = Some e.

Definition keeps_error_slot {A} (m : M A) : Prop := preserves slot_kept m.

(** The plan of the net is left alone: chains, chain graph and mode. *)
Definition same_plan (w w' : AsyncNetBase) : Prop :=
  chains_ w' = chains_ w /\ chain_nodes_ w' = chain_nodes_ w /\ mode_ w' = mode_ w.

Definition keeps_plan {A} (m : M A) : Prop := preserves same_plan m.

(** The operators [op_ids] run one after the other and all return [true]:
    the state they leave. *)
Fixpoint ops_succeed `{P : Platform} (stream_id : Z) (op_ids : list nat)
    (w : AsyncNetBase) : option AsyncNetBase :=
  match op_ids with
  | [] => Some w
  | op_id :: rest =>
      match run_op op_id stream_id w with
      | Val true w' => ops_succeed stream_id rest w'
      | _ => None
      end
  end.

(** The message of the handlers of [run] before the operator is added. *)
Definition exception_text (e : exception) : string :=
  match what e with
  | Some msg => msg
  | None => "Failed to execute task: unknown error"
  end.

(** No exception leaves [m]. *)
Definition never_throws {A} (m : M A) : Prop :=
  forall w e w', m w <> Throw e w'.

(** The results of [n] calls of [m] in a row, each on the state the call
    before it left. *)
Fixpoint successive_calls {A} (m : M A) (n : nat) (w : AsyncNetBase) : list (Res A) :=
  match n with
  | O => []
  | S n' =>
      m w :: match state_after (m w) with
             | Some w' => successive_calls m n' w'
             | None => []
             end
  end.

(** What a chain's event says when queried. *)
Definition status_of (w : AsyncNetBase) (task_id : nat) : option EventStatus :=
  event_status <$> tail_event w task_id.

(** [*parent_failed = true] through a pointer that may be null. *)
Definition raised (parent_failed : option bool) : option bool :=
  match parent_failed with
  | Some _ => Some true
  | None => None
  end.

(** An operator inside a chain: neither its first nor its last. *)
Definition inner_of (chain : list nat) (op_id : nat) : Prop :=
  op_id ∈ chain /\ last chain <> Some op_id /\ head chain <> Some op_id.

#[global] Instance inner_of_dec chain op_id : Decision (inner_of chain op_id).
Proof. unfold inner_of. apply _. Defined.

Definition inner_ops (chain : list nat) : list nat :=
  filter (fun op_id => last chain <> Some op_id /\ head chain <> Some op_id) chain.

Definition disable_all (op_ids : list nat) (ops : list OperatorBase) : list OperatorBase :=
  fold_left (fun acc op_id => alter DisableEvent op_id acc) op_ids ops.

(** The value a computation returned. *)
Definition value_of {A} (r : Res A) : option A :=
  match r with
  | Val a _ => Some a
  | Throw _ _ | Undefined | Diverges => None
  end.



(** The vector of counters as [stream] has it when it enters its loop. *)
Definition grown (gpu_id : nat) (counters : list Z) : list Z :=
  if decide (length counters <= gpu_id) then resize (S gpu_id) 0%Z counters
  else counters.

(** What [storeExceptionPtr] leaves for the exception [e]: the first
    exception stored stays. *)
Definition stored `{P : Platform} (e : exception) (w : AsyncNetBase) : AsyncNetBase :=
  if CAFFE2_USE_EXCEPTION_PTR then
    match caught_exception_ w with
    | None => set_caught_exception (Some e) w
    | Some _ => w
    end
  else w.

(** What [setTaskErrorMessage] leaves when the event of the task is the
    one of operator [t]. *)
Definition error_message_set (t : nat) (err_msg : string) (w : AsyncNetBase)
    : AsyncNetBase :=
  match event_of w t with
  | Some e =>
      if bool_decide (event_status e = EVENT_INITIALIZED)
      then set_operators
             (alter (set_event (Event_SetFinished (Some err_msg))) t (operators_ w)) w
      else w
  | None => w
  end.

(** The state after operator [op_id] returned [false] from [RunAsync] and
    left the operators [ops]: with profiling, the two marks of the
    operator are recorded. *)
Definition after_failed_op (op_id : nat) (ops : list OperatorBase) (w : AsyncNetBase)
    : AsyncNetBase :=
  if report_stats_ (mode_ w)
  then set_counters (counters_ w ++ [(op_id, false); (op_id, true)]) (set_operators ops w)
  else set_operators ops w.

(** No argument of the net is named "enable_profiling". *)
Definition no_profiling_arg (net_def : NetDef) : Prop :=
  Forall (fun arg => arg_has_name arg && String.eqb (arg_name arg) "enable_profiling" = false)
         (net_arg net_def).

(** The rows of the table of execution modes for the "dag" family. *)
Definition dag_preset (finish_chain report_stats : bool) : ExecutionMode :=
  {| streams_per_gpu_ := 1; finish_chain_ := finish_chain; always_schedule_child_ := true;
     check_stream_status_ := false; use_single_pool_ := true;
     use_per_net_pools_ := true; is_blocking_ := true; report_stats_ := report_stats |}.

(** No two chains start with the same operator. *)
Definition distinct_heads (w : AsyncNetBase) : Prop :=
  forall i j h, head_op w i = Some h -> head_op w j = Some h -> i = j.

(** ** A platform and nets to run the model on *)

Definition cpu_sync_run (op_id : nat) (ops : list OperatorBase) : OpResult bool :=
  match ops !! op_id with
  | Some o =>
      if String.eqb (op_type o) "Fail" then Returns false ops
      else if String.eqb (op_type o) "Throw" then Throws (std_exception "boom") ops
      else if String.eqb (op_type o) "Abort" then Throws (unknown_exception 7) ops
      else Returns true (alter (set_event (Event_SetFinished None)) op_id ops)
  | None => Returns false ops
  end.

Definition blank_event (dev : Z) (gpu : Z) (s : EventStatus) : Event :=
  {| event_type := dev;
     event_option := {| device_type := dev; has_device_id := true; device_id := gpu |};
     event_status := s;
     event_err_msg := "" |}.

Definition demo_op (type : string) (debug_def : bool) (dev gpu : Z) (s : EventStatus)
    : OperatorBase :=
  {| op_type := type;
     op_has_debug_def := debug_def;
     op_device_option := {| device_type := dev; has_device_id := true; device_id := gpu |};
     op_supports_async_scheduling := false;
     op_event := blank_event dev gpu s;
     op_event_disabled := false |}.

Definition blank_node : OperatorNode :=
  {| runtime_parent_count_ := 0; scheduled_ := false |}.

(** The device type numbers of caffe2.proto, the CPU creator as the only
    one registered, operators that run synchronously according to their
    type, and a planner that makes one chain of three operators. *)
Definition demo_platform (is_free : nat -> Z -> nat -> bool) : Platform :=
  {| PROTO_CPU := 0;
     PROTO_CUDA := 1;
     PROTO_MKLDNN := 2;
     PROTO_IDEEP := 5;
     PROTO_ONLY_FOR_TEST := 20901;
     CAFFE2_USE_EXCEPTION_PTR := true;
     DeviceTypeName := fun t => if (t =? 0)%Z then "CPU" else if (t =? 1)%Z then "CUDA" else "";
     ThreadPoolRegistry_Create := fun name device_id size per_net =>
       if String.eqb name "CPU"
       then Some {| pool_device_name := name; pool_device_id := device_id;
                    pool_size := size; pool_per_net := per_net |}
       else None;
     Event_CanSchedule := CanSchedule_policy;
     Event_completion := fun _ => None;
     Operator_RunAsync := fun op_id _ ops => cpu_sync_run op_id ops;
     Operator_Finish := fun _ ops => Returns tt ops;
     Operator_WaitEvents := fun _ _ _ ops => Returns tt ops;
     Operator_IsStreamFree := is_free;
     prepareOperatorNodes := fun _ =>
       [(demo_op "A" true 0 0 EVENT_INITIALIZED, blank_node);
        (demo_op "B" true 0 0 EVENT_INITIALIZED, blank_node);
        (demo_op "C" true 0 0 EVENT_INITIALIZED, blank_node)];
     computeGroups := fun _ => [(0, [0; 1; 2])];
     computeChains := fun _ => [(0, [0; 1; 2])];
     prepareChainGraphNodes := fun _ _ => [{| children_ := []; parents_ := [] |}] |}.

Definition always_free : nat -> Z -> nat -> bool := fun _ _ _ => true.

Definition demo : Platform := demo_platform always_free.

Definition default_mode : ExecutionMode :=
  {| streams_per_gpu_ := 1; finish_chain_ := false; always_schedule_child_ := false;
     check_stream_status_ := false; use_single_pool_ := false;
     use_per_net_pools_ := false; is_blocking_ := false; report_stats_ := false |}.

Definition demo_net (ops : list OperatorBase) (chains : list (list nat))
    (nodes : list ChainNode) (mode : ExecutionMode) : AsyncNetBase :=
  {| operators_ := ops;
     operator_nodes_ := map (fun _ => blank_node) ops;
     chains_ := chains;
     chain_nodes_ := nodes;
     events_ := [];
     num_workers_ := 4;
     mode_ := mode;
     cpu_pools_ := ∅;
     gpu_pools_ := ∅;
     success_ := true;
     caught_exception_ := None;
     counters_ := [];
     FLAGS := default_flags;
     stream_counters_ := [];
     stream_polls := 0 |}.

Definition root : ChainNode := {| children_ := []; parents_ := [] |}.

(** Three chains of one CPU operator each, never run, scheduled and failed. *)
Definition three_chains : AsyncNetBase :=
  demo_net
    [demo_op "A" true 0 0 EVENT_INITIALIZED;
     demo_op "B" true 0 0 EVENT_SCHEDULED;
     demo_op "C" true 0 0 EVENT_FAILED]
    [[0]; [1]; [2]] [root; root; root] default_mode.

(** Two roots and a chain that waits for both: the first parent has not
    run, the second has failed. *)
Definition fan_in : AsyncNetBase :=
  set_operator_nodes
    [blank_node; blank_node; {| runtime_parent_count_ := 2; scheduled_ := false |}]
    (demo_net
       [demo_op "A" true 0 0 EVENT_INITIALIZED;
        demo_op "B" true 0 0 EVENT_FAILED;
        demo_op "C" true 0 0 EVENT_INITIALIZED]
       [[0]; [1]; [2]]
       [{| children_ := [2]; parents_ := [] |};
        {| children_ := [2]; parents_ := [] |};
        {| children_ := []; parents_ := [0; 1] |}]
       default_mode).



(** The mode the net type "dag" selects: a single pool for all devices. *)
Definition dag_mode : ExecutionMode :=
  {| streams_per_gpu_ := 1; finish_chain_ := true; always_schedule_child_ := true;
     check_stream_status_ := false; use_single_pool_ := true;
     use_per_net_pools_ := true; is_blocking_ := true; report_stats_ := false |}.

Definition dag_net : AsyncNetBase :=
  demo_net [demo_op "A" true 0 0 EVENT_INITIALIZED] [[0]] [root] dag_mode.


(** Inference mode, and a net definition that sets nothing. *)
Definition inference_flags : Flags := {|
  FLAGS_caffe2_streams_per_gpu := 1;
  FLAGS_caffe2_net_async_inference_mode := true;
  FLAGS_caffe2_net_async_finish_chain := false;
  FLAGS_caffe2_net_async_always_schedule_child := false;
  FLAGS_caffe2_net_async_max_gpus := 16;
  FLAGS_caffe2_net_async_max_numa_nodes := 8;
  FLAGS_caffe2_net_async_cpu_pool_size := 0;
  FLAGS_caffe2_net_async_check_stream_status := false;
  FLAGS_caffe2_net_async_use_single_pool := false;
  FLAGS_caffe2_net_async_use_per_net_pools := false
|}.

Definition linear_triple : NetDef :=
  {| net_name := "triple"; net_has_type := false; net_type := "";
     net_has_num_workers := false; net_num_workers := 0; net_arg := [] |}.

(** One chain of one operator on GPU 0, two streams per GPU. *)
Definition gpu_mode (check : bool) : ExecutionMode :=
  {| streams_per_gpu_ := 2; finish_chain_ := false; always_schedule_child_ := false;
     check_stream_status_ := check; use_single_pool_ := false;
     use_per_net_pools_ := false; is_blocking_ := false; report_stats_ := false |}.



(** A chain A, B, C of CPU operators whose middle operator has no debug
    definition and fails, and one whose middle operator throws. *)
Definition failing_chain : AsyncNetBase :=
  demo_net
    [demo_op "A" true 0 0 EVENT_INITIALIZED;
     demo_op "Fail" false 0 0 EVENT_INITIALIZED;
     demo_op "C" true 0 0 EVENT_INITIALIZED]
    [[0; 1; 2]] [root] default_mode.

Definition throwing_chain : AsyncNetBase :=
  demo_net
    [demo_op "A" true 0 0 EVENT_INITIALIZED;
     demo_op "Throw" true 0 0 EVENT_INITIALIZED;
     demo_op "C" true 0 0 EVENT_INITIALIZED]
    [[0; 1; 2]] [root] default_mode.

Definition prof_dag_def : NetDef :=
  {| net_name := "profiled"; net_has_type := true; net_type := "prof_dag";
     net_has_num_workers := true; net_num_workers := 4; net_arg := [] |}.

(** ** Further readings of the state *)

(** The execution mode taken from the command line flags. *)
Definition flags_mode (F : Flags) : ExecutionMode :=
  {| streams_per_gpu_ := FLAGS_caffe2_streams_per_gpu F;
     finish_chain_ := FLAGS_caffe2_net_async_finish_chain F;
     always_schedule_child_ := FLAGS_caffe2_net_async_always_schedule_child F;
     check_stream_status_ := FLAGS_caffe2_net_async_check_stream_status F;
     use_single_pool_ := FLAGS_caffe2_net_async_use_single_pool F;
     use_per_net_pools_ := FLAGS_caffe2_net_async_use_per_net_pools F;
     is_blocking_ := false;
     report_stats_ := false |}.

Definition with_report_stats (b : bool) (m : ExecutionMode) : ExecutionMode :=
  {| streams_per_gpu_ := streams_per_gpu_ m;
     finish_chain_ := finish_chain_ m;
     always_schedule_child_ := always_schedule_child_ m;
     check_stream_status_ := check_stream_status_ m;
     use_single_pool_ := use_single_pool_ m;
     use_per_net_pools_ := use_per_net_pools_ m;
     is_blocking_ := is_blocking_ m;
     report_stats_ := b |}.

Definition with_args (args : list Argument) (net_def : NetDef) : NetDef :=
  {| net_name := net_name net_def;
     net_has_type := net_has_type net_def;
     net_type := net_type net_def;
     net_has_num_workers := net_has_num_workers net_def;
     net_num_workers := net_num_workers net_def;
     net_arg := args |}.

(** An argument that [computeExecutionModeFlags] takes for the profiling
    switch. *)
Definition is_profiling_arg (arg : Argument) : bool :=
  arg_has_name arg && String.eqb (arg_name arg) "enable_profiling".

Definition int_arg (name : string) (i : Z) : Argument :=
  {| arg_has_name := true; arg_name := name; arg_has_i := true; arg_i := i |}.

(** A "dag" net that asks for profiling, after an argument of another
    name and before a second, ignored, profiling argument. *)
Definition profiled_dag_def : NetDef :=
  {| net_name := "dag with profiling"; net_has_type := true; net_type := "dag";
     net_has_num_workers := false; net_num_workers := 0;
     net_arg := [int_arg "other" 5; int_arg "enable_profiling" 1;
                 int_arg "enable_profiling" 0] |}.

(** The NUMA node [pool] reads off a device option of the CPU family. *)
Definition numa_node_of (device_option : DeviceOption) : Z :=
  if has_device_id device_option then device_id device_option else (-1)%Z.

(** What [pool] decides before it turns to [poolGetter]: the exception it
    throws, or the map, the device type the pool is created for and the
    device id. *)
Definition pool_key `{P : Platform} (device_option : DeviceOption) (w : AsyncNetBase)
    : exception + (PoolsRef * Z * Z) :=
  if use_single_pool_ (mode_ w) then inr (the_cpu_pools, PROTO_CPU, (-1)%Z)
  else if bool_decide (device_type device_option ∈ cpu_types) then
    let numa := numa_node_of device_option in
    if has_device_id device_option && (numa <? 0)%Z
       || (FLAGS_caffe2_net_async_max_numa_nodes (FLAGS w) <=? numa)%Z
    then inl (EnforceNotMet ("Invalid NUMA node id: " +:+ to_string numa))
    else inr (the_cpu_pools, PROTO_CPU, numa)
  else if (device_type device_option =? PROTO_CUDA)%Z then
    let gpu_id := device_id device_option in
    if (0 <=? gpu_id)%Z && (gpu_id <? FLAGS_caffe2_net_async_max_gpus (FLAGS w))%Z
    then inr (the_gpu_pools, PROTO_CUDA, gpu_id)
    else inl (EnforceNotMet ("Invalid GPU id: " +:+ to_string gpu_id))
  else inl (EnforceNotMet
              ("Unsupported device type " +:+ to_string (device_type device_option))).

(** The pool stored under a device id and a pool size. *)
Definition pool_at (pools : PoolsMap) (device_id pool_size : Z) : option TaskThreadPool :=
  pools !! device_id ≫= (fun sized => sized !! pool_size).

Definition mkldnn_device (numa : Z) : DeviceOption :=
  {| device_type := 2; has_device_id := true; device_id := numa |}.

Definition cpu_device (numa : Z) : DeviceOption :=
  {| device_type := 0; has_device_id := true; device_id := numa |}.

Definition cuda_device (gpu_id : Z) : DeviceOption :=
  {| device_type := 1; has_device_id := true; device_id := gpu_id |}.

(** The stream counters of the GPUs other than [gpu_id] are as they were,
    and no counter was added or dropped. *)
Definition other_counters_kept (gpu_id : nat) (w w' : AsyncNetBase) : Prop :=
  length (stream_counters_ w') = length (stream_counters_ w) /\
  forall g, g <> gpu_id -> stream_counters_ w' !! g = stream_counters_ w !! g.

(** A thread that has used streams of GPU 0 and GPU 1, and a task on
    GPU 3. *)
Definition gpu3_net : AsyncNetBase :=
  set_stream_counters [1%Z; 0%Z]
    (demo_net [demo_op "K" true 1 3 EVENT_INITIALIZED] [[0]] [root] (gpu_mode false)).

Definition bad_gpu_net : AsyncNetBase :=
  demo_net [demo_op "K" true 1 (-2) EVENT_INITIALIZED] [[0]] [root] (gpu_mode false).

(** Whenever [m] ends, by a value or by an exception, the state is the
    one it started from. *)
Definition read_only {A} (m : M A) : Prop :=
  forall w w', state_after (m w) = Some w' -> w' = w.

(** Whenever [m] returns, [Q] holds of the value and of the state. *)
Definition ensures {A} (m : M A) (Q : A -> AsyncNetBase -> Prop) : Prop :=
  forall w a w', m w = Val a w' -> Q a w'.

(** The error slot is as it was. *)
Definition slot_untouched (w w' : AsyncNetBase) : Prop :=
  success_ w' = success_ w /\ caught_exception_ w' = caught_exception_ w.

(** The event of the task has left INITIALIZED. *)
Definition marked (task_id : nat) (w : AsyncNetBase) : Prop :=
  exists st, status_of w task_id = Some st /\ st <> EVENT_INITIALIZED.

(** The event of the task is terminal. *)
Definition finished (task_id : nat) (w : AsyncNetBase) : Prop :=
  exists st, status_of w task_id = Some st /\ terminal st = true.

(** The calls [AddPerOpStartTime] and [AddPerOpEndTime] around an
    operator, and around the operators of a chain. *)
Definition start_mark (op_id : nat) : ProfMark := (op_id, false).
Definition end_mark (op_id : nat) : ProfMark := (op_id, true).

Definition marks_of (op_ids : list nat) : list ProfMark :=
  flat_map (fun op_id => [start_mark op_id; end_mark op_id]) op_ids.

(** The profiling counters are not called. *)
Definition counters_kept (w w' : AsyncNetBase) : Prop :=
  counters_ w' = counters_ w /\ mode_ w' = mode_ w.

(** Without [report_stats_] the profiling counters are not called. *)
Definition profile_off (w w' : AsyncNetBase) : Prop :=
  mode_ w' = mode_ w /\
  (report_stats_ (mode_ w) = false -> counters_ w' = counters_ w).

(** A chain A, B, C of CPU operators that all succeed, without and with
    profiling. *)
Definition working_chain : AsyncNetBase :=
  demo_net
    [demo_op "A" true 0 0 EVENT_INITIALIZED;
     demo_op "B" true 0 0 EVENT_INITIALIZED;
     demo_op "C" true 0 0 EVENT_INITIALIZED]
    [[0; 1; 2]] [root] default_mode.

Definition profiled_mode : ExecutionMode :=
  {| streams_per_gpu_ := 1; finish_chain_ := false; always_schedule_child_ := false;
     check_stream_status_ := false; use_single_pool_ := false;
     use_per_net_pools_ := false; is_blocking_ := false; report_stats_ := true |}.

Definition profiled_chain : AsyncNetBase :=
  demo_net
    [demo_op "A" true 0 0 EVENT_INITIALIZED;
     demo_op "B" true 0 0 EVENT_INITIALIZED;
     demo_op "C" true 0 0 EVENT_INITIALIZED]
    [[0; 1; 2]] [root] profiled_mode.

Definition profiled_throwing_chain : AsyncNetBase :=
  demo_net
    [demo_op "A" true 0 0 EVENT_INITIALIZED;
     demo_op "Throw" true 0 0 EVENT_INITIALIZED;
     demo_op "C" true 0 0 EVENT_INITIALIZED]
    [[0; 1; 2]] [root] profiled_mode.

(** What the constructor sets up stays as it is: the chains, the chain
    graph, the execution mode, the list of events, the number of workers
    and the flags. *)
Definition same_setup (w w' : AsyncNetBase) : Prop :=
  chains_ w' = chains_ w /\ chain_nodes_ w' = chain_nodes_ w /\
  mode_ w' = mode_ w /\ events_ w' = events_ w /\
  num_workers_ w' = num_workers_ w /\ FLAGS w' = FLAGS w.

(** What the loop of the constructor over the chains leaves alone. *)
Definition construction_kept (w w' : AsyncNetBase) : Prop :=
  operator_nodes_ w' = operator_nodes_ w /\ chain_nodes_ w' = chain_nodes_ w /\
  num_workers_ w' = num_workers_ w /\
  cpu_pools_ w' = cpu_pools_ w /\ gpu_pools_ w' = gpu_pools_ w /\
  caught_exception_ w' = caught_exception_ w.

(** The end of [reset]: the error slot is cleared. *)
Definition slot_cleared `{P : Platform} (w : AsyncNetBase) : AsyncNetBase :=
  if CAFFE2_USE_EXCEPTION_PTR
  then set_caught_exception None (set_success true w)
  else set_success true w.




(** The platform with another registry of thread pools. *)
Definition with_registry
    (create : string -> Z -> Z -> bool -> option TaskThreadPool) (P : Platform)
    : Platform :=
  {| PROTO_CPU := PROTO_CPU;
     PROTO_CUDA := PROTO_CUDA;
     PROTO_MKLDNN := PROTO_MKLDNN;
     PROTO_IDEEP := PROTO_IDEEP;
     PROTO_ONLY_FOR_TEST := PROTO_ONLY_FOR_TEST;
     CAFFE2_USE_EXCEPTION_PTR := CAFFE2_USE_EXCEPTION_PTR;
     DeviceTypeName := DeviceTypeName;
     ThreadPoolRegistry_Create := create;
     Event_CanSchedule := Event_CanSchedule;
     Event_completion := Event_completion;
     Operator_RunAsync := Operator_RunAsync;
     Operator_Finish := Operator_Finish;
     Operator_WaitEvents := Operator_WaitEvents;
     Operator_IsStreamFree := Operator_IsStreamFree;
     prepareOperatorNodes := prepareOperatorNodes;
     computeGroups := computeGroups;
     computeChains := computeChains;
     prepareChainGraphNodes := prepareChainGraphNodes |}.

(** The pool of four workers the CPU creator makes for NUMA node 3. *)
Definition numa3_pool : TaskThreadPool :=
  {| pool_device_name := "CPU"; pool_device_id := 3; pool_size := 4;
     pool_per_net := false |}.

(** A device that runs its operators asynchronously: [RunAsync] returns
    [true] with the event of the operator SCHEDULED, and the work behind
    every event turns out to have failed when it is waited for. *)
Definition async_run (op_id : nat) (ops : list OperatorBase) : OpResult bool :=
  Returns true (alter (set_event (with_status EVENT_SCHEDULED "")) op_id ops).

Definition async_platform : Platform :=
  {| PROTO_CPU := 0;
     PROTO_CUDA := 1;
     PROTO_MKLDNN := 2;
     PROTO_IDEEP := 5;
     PROTO_ONLY_FOR_TEST := 20901;
     CAFFE2_USE_EXCEPTION_PTR := true;
     DeviceTypeName := fun t => if (t =? 0)%Z then "CPU" else if (t =? 1)%Z then "CUDA" else "";
     ThreadPoolRegistry_Create := fun _ _ _ _ => None;
     Event_CanSchedule := CanSchedule_policy;
     Event_completion := fun _ => Some "device failure";
     Operator_RunAsync := fun op_id _ ops => async_run op_id ops;
     Operator_Finish := fun _ ops => Returns tt ops;
     Operator_WaitEvents := fun _ _ _ ops => Returns tt ops;
     Operator_IsStreamFree := always_free;
     prepareOperatorNodes := fun _ => [];
     computeGroups := fun _ => [];
     computeChains := fun _ => [];
     prepareChainGraphNodes := fun _ _ => [] |}.

(** * Properties *)

(** ** Stepping through the monad *)

Section Proofs.
Context `{P : Platform}.

Lemma bind_val {A B} (m : M A) (k : A -> M B) w a w' :
  m w = Val a w' -> bind m k w = k a w'.
Proof. intros H. unfold bind. by rewrite H. Qed.

Lemma index_val {A} (v : list A) i x w :
  v !! i = Some x -> index v i w = Val x w.
Proof. intros H. unfold index. by rewrite H. Qed.

Lemma chain_val w task_id c :
  chains_ w !! task_id = Some c -> chain task_id w = Val c w.
Proof. intros H. unfold chain, bind, get. by apply index_val. Qed.

Lemma operator_val w op_id o :
  operators_ w !! op_id = Some o -> operator op_id w = Val o w.
Proof. intros H. unfold operator, bind, get. by apply index_val. Qed.

Lemma back_val {A} (v : list A) x w : last v = Some x -> back v w = Val x w.
Proof. intros H. unfold back. by rewrite H. Qed.

Lemma front_val {A} (v : list A) x w : head v = Some x -> front v w = Val x w.
Proof. intros H. unfold front. by rewrite H. Qed.

Lemma event_val w task_id c op_id o :
  chains_ w !! task_id = Some c -> last c = Some op_id ->
  operators_ w !! op_id = Some o ->
  event task_id w = Val op_id w.
Proof.
  intros Hc Hl Ho. unfold event.
  rewrite (bind_val _ _ _ _ _ (chain_val _ _ _ Hc)).
  rewrite (bind_val _ _ _ _ _ (back_val _ _ _ Hl)).
  by rewrite (bind_val _ _ _ _ _ (operator_val _ _ _ Ho)).
Qed.

Lemma query_val w task_id c op_id o :
  chains_ w !! task_id = Some c -> last c = Some op_id ->
  operators_ w !! op_id = Some o ->
  query task_id w = Val (event_status (op_event o)) w.
Proof.
  intros Hc Hl Ho. unfold query, read_event.
  rewrite (bind_val _ _ _ _ _ (event_val _ _ _ _ _ Hc Hl Ho)).
  unfold bind at 1.
  by rewrite (bind_val _ _ _ _ _ (operator_val _ _ _ Ho)).
Qed.

Lemma set_operators_same w : set_operators (operators_ w) w = w.
Proof. by destruct w. Qed.

Lemma alter_fixed {A} (f : A -> A) (l : list A) i x :
  l !! i = Some x -> f x = x -> alter f i l = l.
Proof.
  intros Hi Hf. apply list_eq. intros j. rewrite list_lookup_alter.
  case_decide; [subst j; by rewrite Hi; simpl; rewrite Hf | done].
Qed.

(** *** Well-formed nets *)

Lemma wf_chain w task_id :
  well_formed w -> task_id < length (chains_ w) ->
  exists c first_id last_id,
    chains_ w !! task_id = Some c /\ head c = Some first_id /\ last c = Some last_id /\
    first_id < length (operators_ w) /\ last_id < length (operators_ w).
Proof.
  intros [Hch _ _ _] Hlt.
  destruct (lookup_lt_is_Some_2 _ _ Hlt) as [c Hc].
  pose proof (Forall_lookup_1 _ _ _ _ Hch Hc) as [Hne Hall].
  destruct c as [|x c']; [done|].
  destruct (last (x :: c')) as [y|] eqn:Hy.
  - exists (x :: c'), x, y. repeat split; try done.
    + by inversion Hall.
    + apply last_Some_elem_of in Hy. by eapply Forall_forall in Hall.
  - by apply last_None in Hy.
Qed.

Lemma wf_tail w task_id :
  well_formed w -> task_id < length (chains_ w) ->
  exists c op_id o,
    chains_ w !! task_id = Some c /\ last c = Some op_id /\
    operators_ w !! op_id = Some o.
Proof.
  intros Hwf Hlt.
  destruct (wf_chain _ _ Hwf Hlt) as (c & f & l & Hc & _ & Hl & _ & Hlt').
  destruct (lookup_lt_is_Some_2 _ _ Hlt') as [o Ho]. by exists c, l, o.
Qed.

Lemma well_formed_set_operators w ops :
  length ops = length (operators_ w) ->
  well_formed w -> well_formed (set_operators ops w).
Proof.
  intros Hlen [H1 H2 H3 H4]. split; simpl; rewrite ?Hlen; auto.
Qed.

(** *** finalizeEvents *)

Lemma finalized_terminal op_id e : terminal (event_status (finalized op_id e)) = true.
Proof.
  unfold finalized, Event_Finish, Event_SetFinished.
  destruct (event_status e) eqn:Hs; simpl; rewrite ?Hs; simpl; try done.
  by destruct (Event_completion op_id).
Qed.

Lemma finalized_of_terminal op_id e :
  terminal (event_status e) = true -> finalized op_id e = e.
Proof. unfold finalized. by destruct (event_status e). Qed.

Lemma finalized_idemp op_id o :
  set_event (finalized op_id) (set_event (finalized op_id) o) = set_event (finalized op_id) o.
Proof.
  unfold set_event; simpl. f_equal.
  apply finalized_of_terminal, finalized_terminal.
Qed.

Lemma set_event_id (f : Event -> Event) o : f (op_event o) = op_event o -> set_event f o = o.
Proof. intros H. destruct o; unfold set_event; simpl in *. by rewrite H. Qed.

Lemma finalize_task_val w task_id c op_id o :
  chains_ w !! task_id = Some c -> last c = Some op_id ->
  operators_ w !! op_id = Some o ->
  finalize_task task_id w =
    Val tt (set_operators (alter (set_event (finalized op_id)) op_id (operators_ w)) w).
Proof.
  intros Hc Hl Ho. unfold finalize_task.
  rewrite (bind_val _ _ _ _ _ (query_val _ _ _ _ _ Hc Hl Ho)).
  assert (Hfin : forall f,
    (forall e, event_status e = event_status (op_event o) -> f e = finalized op_id e) ->
    alter (set_event f) op_id (operators_ w)
    = alter (set_event (finalized op_id)) op_id (operators_ w)).
  { intros f Hf. apply list_eq. intros j. rewrite !list_lookup_alter.
    case_decide; [|done]. rewrite Ho. simpl. unfold set_event. by rewrite Hf. }
  destruct (event_status (op_event o)) eqn:Hs; simpl.
  - rewrite (bind_val _ _ _ _ _ (event_val _ _ _ _ _ Hc Hl Ho)).
    unfold update_operator, modify. do 2 f_equal. apply Hfin.
    intros e He. unfold finalized. by rewrite He.
  - rewrite (bind_val _ _ _ _ _ (event_val _ _ _ _ _ Hc Hl Ho)).
    unfold update_operator, modify. do 2 f_equal. apply Hfin.
    intros e He. unfold finalized. by rewrite He.
  - unfold ret. f_equal. rewrite (alter_fixed _ _ _ _ Ho).
    + by rewrite set_operators_same.
    + apply set_event_id. unfold finalized. by rewrite Hs.
  - unfold ret. f_equal. rewrite (alter_fixed _ _ _ _ Ho).
    + by rewrite set_operators_same.
    + apply set_event_id. unfold finalized. by rewrite Hs.
Qed.

Lemma set_operators_twice ops1 ops2 w :
  set_operators ops2 (set_operators ops1 w) = set_operators ops2 w.
Proof. done. Qed.

Lemma finalize_loop tasks : forall w,
  well_formed w ->
  Forall (fun task_id => task_id < length (chains_ w)) tasks ->
  exists ops',
    for_each tasks finalize_task w = Val tt (set_operators ops' w) /\
    length ops' = length (operators_ w) /\
    (forall op_id, (exists task_id, task_id ∈ tasks /\ tail_op w task_id = Some op_id) ->
       ops' !! op_id = set_event (finalized op_id) <$> operators_ w !! op_id) /\
    (forall op_id, (forall task_id, task_id ∈ tasks -> tail_op w task_id <> Some op_id) ->
       ops' !! op_id = operators_ w !! op_id).
Proof.
  induction tasks as [|t tasks IH]; intros w Hwf Hall.
  - exists (operators_ w). simpl. unfold ret. rewrite set_operators_same.
    repeat split; try done.
    intros op_id (task_id & Hin & _). by apply elem_of_nil in Hin.
  - inversion Hall as [|? ? Hlt Hall']; subst.
    destruct (wf_tail _ _ Hwf Hlt) as (c & tl & o & Hc & Hl & Ho).
    pose proof (finalize_task_val _ _ _ _ _ Hc Hl Ho) as Hstep.
    set (ops1 := alter (set_event (finalized tl)) tl (operators_ w)) in *.
    assert (Hlen1 : length ops1 = length (operators_ w)) by apply length_alter.
    destruct (IH (set_operators ops1 w)) as (ops' & Hrun & Hlen & Hin & Hout).
    { by apply well_formed_set_operators. }
    { done. }
    exists ops'. simpl for_each. rewrite (bind_val _ _ _ _ _ Hstep).
    rewrite Hrun, set_operators_twice. simpl in Hlen, Hin, Hout.
    assert (Htl : tail_op w t = Some tl).
    { unfold tail_op. by rewrite Hc. }
    split; [done|]. split; [congruence|]. split.
    + intros op_id (task_id & Hel & Htail).
      destruct (decide (Exists (fun task_id' => tail_op w task_id' = Some op_id) tasks))
        as [Hex|Hnex]; rewrite Exists_exists in *.
      * rewrite (Hin op_id Hex). unfold ops1. rewrite list_lookup_alter.
        case_decide; [|done]. subst op_id.
        destruct (operators_ w !! tl); simpl; [|done].
        by rewrite finalized_idemp.
      * assert (task_id = t) as ->.
        { apply elem_of_cons in Hel as [->|Hel]; [done|].
          exfalso. apply Hnex. eauto. }
        assert (op_id = tl) as -> by congruence.
        rewrite Hout.
        -- unfold ops1. rewrite list_lookup_alter. by case_decide.
        -- intros task_id' Hel' Heq. apply Hnex. eauto.
    + intros op_id Hno.
      rewrite Hout.
      * unfold ops1. rewrite list_lookup_alter. case_decide; [|done].
        subst op_id. exfalso. eapply (Hno t); [apply elem_of_cons; by left|done].
      * intros task_id' Hel'. apply Hno. apply elem_of_cons. by right.
Qed.

(** C1.  On a well-formed net [finalizeEvents] returns, and afterwards the
    event of the last operator of every chain is terminal: an event that
    was SCHEDULED went through [Finish], one that was still INITIALIZED
    through [SetFinished()], and a terminal one is as it was. *)
Theorem finalizeEvents_terminal (w : AsyncNetBase) :
  well_formed w ->
  exists w',
    finalizeEvents w = Val tt w' /\
    chains_ w' = chains_ w /\
    forall task_id, task_id < length (chains_ w) ->
      exists op_id e e',
        tail_op w task_id = Some op_id /\
        event_of w op_id = Some e /\
        tail_event w' task_id = Some e' /\
        terminal (event_status e') = true /\
        e' = match event_status e with
             | EVENT_SCHEDULED => Event_Finish (Event_completion op_id) e
             | EVENT_INITIALIZED => Event_SetFinished None e
             | EVENT_SUCCESS | EVENT_FAILED => e
             end.
Proof.
  intros Hwf.
  destruct (finalize_loop (seq 0 (length (chains_ w))) w Hwf) as (ops' & Hrun & _ & Hin & _).
  { apply Forall_forall. intros t Ht. apply elem_of_seq in Ht. lia. }
  exists (set_operators ops' w). split.
  { unfold finalizeEvents, tasksNum, bind, get, ret. exact Hrun. }
  split; [done|].
  intros task_id Hlt.
  destruct (wf_tail _ _ Hwf Hlt) as (c & op_id & o & Hc & Hl & Ho).
  assert (Htl : tail_op w task_id = Some op_id) by (unfold tail_op; by rewrite Hc).
  exists op_id, (op_event o), (finalized op_id (op_event o)).
  split; [done|]. split; [unfold event_of; by rewrite Ho|]. split.
  - unfold tail_event, tail_op. simpl. rewrite Hc. simpl. rewrite Hl. simpl.
    unfold event_of. simpl. rewrite Hin.
    + by rewrite Ho.
    + exists task_id. split; [apply elem_of_seq; lia|done].
  - split; [apply finalized_terminal|done].
Qed.

End Proofs.

Ltac solve_wf :=
  split; simpl;
  repeat first [ apply Forall_nil_2 | apply Forall_cons_2 | split | done | lia ].

Lemma finalizeEvents_terminal_witness :
  well_formed three_chains /\
  exists w',
    finalizeEvents (P := demo) three_chains = Val tt w' /\
    chains_ w' = chains_ three_chains /\
    forall task_id, task_id < length (chains_ three_chains) ->
      exists op_id e e',
        tail_op three_chains task_id = Some op_id /\
        event_of three_chains op_id = Some e /\
        tail_event w' task_id = Some e' /\
        terminal (event_status e') = true /\
        e' = match event_status e with
             | EVENT_SCHEDULED => Event_Finish (Event_completion (Platform := demo) op_id) e
             | EVENT_INITIALIZED => Event_SetFinished None e
             | EVENT_SUCCESS | EVENT_FAILED => e
             end.
Proof.
  split; [solve_wf|].
  apply (finalizeEvents_terminal (P := demo) three_chains). solve_wf.
Defined.

(** *** updateParentCount *)

Lemma wrap_int_id x : is_int x -> wrap_int x = x.
Proof.
  unfold is_int, wrap_int, INT_MIN, INT_MAX. intros H.
  rewrite Z.mod_small; lia.
Qed.

(** C6.  [updateParentCount] decrements the parent counter of the node
    that heads the chain and returns the new value.  From a positive
    counter the enforce passes and the value returned is the old one minus
    one, which is what the counter holds afterwards; from zero (or below)
    the call throws [EnforceNotMet], the counter already decremented. *)
Theorem updateParentCount_decrements (w : AsyncNetBase) (child_id : nat)
    (c : list nat) (first_id : nat) (node : OperatorNode) :
  chains_ w !! child_id = Some c ->
  head c = Some first_id ->
  operator_nodes_ w !! first_id = Some node ->
  is_int (runtime_parent_count_ node) ->
  let count := runtime_parent_count_ node in
  let w' :=
    set_operator_nodes
      (<[first_id := {| runtime_parent_count_ := (count - 1)%Z;
                        scheduled_ := scheduled_ node |}]> (operator_nodes_ w)) w in
  ((0 < count)%Z ->
     updateParentCount child_id w = Val (count - 1)%Z w' /\
     (0 <= count - 1)%Z /\
     getParentCount child_id w' = Val (count - 1)%Z w') /\
  ((INT_MIN < count <= 0)%Z ->
     updateParentCount child_id w = Throw (EnforceNotMet "") w').
Proof.
  intros Hc Hh Hn Hint count w'.
  assert (Hrun : forall b, (0 <=? count - 1)%Z = b -> is_int (count - 1)%Z ->
    updateParentCount child_id w =
      if b then Val (count - 1)%Z w' else Throw (EnforceNotMet "") w').
  { intros b Hb Hint'. unfold updateParentCount.
    rewrite (bind_val _ _ _ _ _ (chain_val _ _ _ Hc)).
    rewrite (bind_val _ _ _ _ _ (front_val _ _ _ Hh)).
    unfold bind at 1, get at 1.
    rewrite (bind_val _ _ _ _ _ (index_val _ _ _ _ Hn)).
    fold count. rewrite (wrap_int_id _ Hint').
    unfold bind, modify, CAFFE_ENFORCE. rewrite Hb. by destruct b. }
  unfold is_int, INT_MIN, INT_MAX in *. fold count in Hint. split.
  - intros Hpos. split; [|split; [lia|]].
    + rewrite (Hrun true); [done|lia|unfold is_int, INT_MIN, INT_MAX; lia].
    + unfold getParentCount.
      rewrite (bind_val _ _ _ _ _ (chain_val w' _ _ Hc)).
      rewrite (bind_val _ _ _ _ _ (front_val _ _ _ Hh)).
      unfold bind at 1, get at 1.
      rewrite (bind_val _ _ _
                 {| runtime_parent_count_ := (count - 1)%Z;
                    scheduled_ := scheduled_ node |} w'); [done|].
      apply index_val. simpl. apply list_lookup_insert_eq.
      by eapply lookup_lt_Some.
  - intros Hle.
    rewrite (Hrun false); [done|lia|unfold is_int, INT_MIN, INT_MAX; lia].
Qed.

Lemma updateParentCount_decrements_witness :
  updateParentCount 2 fan_in
  = Val 1%Z
      (set_operator_nodes
         [blank_node; blank_node; {| runtime_parent_count_ := 1; scheduled_ := false |}]
         fan_in).
Proof.
  refine (proj1 (proj1 (updateParentCount_decrements fan_in 2 [2] 2
           {| runtime_parent_count_ := 2; scheduled_ := false |} _ _ _ _) _));
    first [ reflexivity | unfold is_int, INT_MIN, INT_MAX; simpl; lia | simpl; lia ].
Defined.

(** *** Framing the methods *)

#[global] Instance slot_kept_frame : FrameRel slot_kept.
Proof.
  split; [split|].
  - intros w. by split.
  - intros w1 w2 w3 [Hs1 Hc1] [Hs2 Hc2]. split; [congruence|auto].
  - intros ops w. by split.
Qed.

#[global] Instance same_plan_frame : FrameRel same_plan.
Proof.
  split; [split|].
  - intros w. by repeat split.
  - intros w1 w2 w3 (H1 & H2 & H3) (H1' & H2' & H3'). repeat split; congruence.
  - intros ops w. by repeat split.
Qed.

Section Preserves.
Context (R : relation AsyncNetBase) `{!FrameRel R}.

Lemma keeps_ret {A} (a : A) : preserves R (ret a).
Proof. intros w w' [= <-]. reflexivity. Qed.

Lemma keeps_get {A} (f : AsyncNetBase -> A) : preserves R (get f).
Proof. intros w w' [= <-]. reflexivity. Qed.

Lemma keeps_throw {A} e : preserves R (throw (A := A) e).
Proof. intros w w' [= <-]. reflexivity. Qed.

Lemma keeps_undefined {A} : preserves R (undefined (A := A)).
Proof. intros w w' [=]. Qed.

Lemma keeps_diverges {A} : preserves R (fun _ => Diverges (A := A)).
Proof. intros w w' [=]. Qed.

Lemma keeps_modify f : (forall w, R w (f w)) -> preserves R (modify f).
Proof. intros Hf w w' [= <-]. apply Hf. Qed.

Lemma keeps_bind {A B} (m : M A) (k : A -> M B) :
  preserves R m -> (forall a, preserves R (k a)) -> preserves R (bind m k).
Proof.
  intros Hm Hk w w'. unfold bind.
  destruct (m w) as [a w1|e w1| |] eqn:Hmw; try done.
  - intros Hk'. transitivity w1; [apply Hm; by rewrite Hmw|by eapply Hk].
  - intros [= <-]. apply Hm. by rewrite Hmw.
Qed.

Lemma keeps_guarded {A B} (m : M A) (h : exception -> M B) (k : A -> M B) :
  preserves R m -> (forall e, preserves R (h e)) ->
  (forall a, preserves R (k a)) -> preserves R (guarded m h k).
Proof.
  intros Hm Hh Hk w w'. unfold guarded.
  destruct (m w) as [a w1|e w1| |] eqn:Hmw; try done.
  - intros Hk'. transitivity w1; [apply Hm; by rewrite Hmw|by eapply Hk].
  - intros Hh'. transitivity w1; [apply Hm; by rewrite Hmw|by eapply Hh].
Qed.

Lemma keeps_for_each {A} (l : list A) (body : A -> M unit) :
  (forall x, preserves R (body x)) -> preserves R (for_each l body).
Proof.
  intros Hb. induction l as [|x l IH]; simpl.
  - apply keeps_ret.
  - apply keeps_bind; auto.
Qed.

Lemma keeps_call {A} (f : list OperatorBase -> OpResult A) : preserves R (call f).
Proof.
  intros w w'. unfold call.
  destruct (f (operators_ w)); intros [= <-]; apply frame_operators.
Qed.

Lemma keeps_index {A} (v : list A) i : preserves R (index v i).
Proof. unfold index. destruct (v !! i); [apply keeps_ret|apply keeps_undefined]. Qed.

Lemma keeps_at {A} (v : list A) i : preserves R (at_ v i).
Proof. unfold at_. destruct (v !! i); [apply keeps_ret|apply keeps_throw]. Qed.

Lemma keeps_front {A} (v : list A) : preserves R (front v).
Proof. unfold front. destruct (head v); [apply keeps_ret|apply keeps_undefined]. Qed.

Lemma keeps_back {A} (v : list A) : preserves R (back v).
Proof. unfold back. destruct (last v); [apply keeps_ret|apply keeps_undefined]. Qed.

Lemma keeps_enforce c msg : preserves R (CAFFE_ENFORCE c msg).
Proof. unfold CAFFE_ENFORCE. destruct c; [apply keeps_ret|apply keeps_throw]. Qed.

End Preserves.

Lemma keeps_storeExceptionPtr `{P : Platform} e : preserves slot_kept (storeExceptionPtr e).
Proof.
  intros w w'. unfold storeExceptionPtr, bind, get, modify, ret.
  destruct CAFFE2_USE_EXCEPTION_PTR; [|intros [= <-]; by split].
  destruct (caught_exception_ w) eqn:Hc; simpl; intros [= <-]; simpl.
  - split; [done|]. intros e' He'. congruence.
  - split; [done|]. intros e' He'. congruence.
Qed.

Create HintDb keeps discriminated.

#[export] Hint Resolve keeps_ret keeps_get keeps_throw keeps_undefined keeps_diverges
  keeps_call keeps_index keeps_at keeps_front keeps_back keeps_enforce
  keeps_storeExceptionPtr : keeps.

(** Breaks a computation into its statements and closes the leaves. *)
Ltac keeps :=
  unfold keeps_error_slot, keeps_plan;
  repeat first
    [ progress intros
    | apply keeps_bind
    | apply keeps_guarded
    | apply keeps_for_each
    | apply keeps_modify; intros;
      first [ apply frame_operators | by repeat split ]
    | solve [ auto with keeps typeclass_instances ]
    | match goal with
      | |- preserves _ (if ?b then _ else _) => destruct b
      | |- preserves _ (match ?x with _ => _ end) => destruct x
      end ].

Section ErrorSlotMethods.
Context `{P : Platform}.

Lemma keeps_operator op_id : preserves slot_kept (operator op_id).
Proof. unfold operator. keeps. Qed.

Lemma keeps_chain task_id : preserves slot_kept (chain task_id).
Proof. unfold chain. keeps. Qed.

Hint Resolve keeps_operator keeps_chain : keeps.

Lemma keeps_update_operator op_id f : preserves slot_kept (update_operator op_id f).
Proof. unfold update_operator. keeps. Qed.

Lemma keeps_event task_id : preserves slot_kept (event task_id).
Proof. unfold event. keeps. Qed.

Hint Resolve keeps_update_operator keeps_event : keeps.

Lemma keeps_query task_id : preserves slot_kept (query task_id).
Proof. unfold query, read_event. keeps. Qed.

Lemma keeps_parents task_id : preserves slot_kept (parents task_id).
Proof. unfold parents. keeps. Qed.

Hint Resolve keeps_query keeps_parents : keeps.

Lemma keeps_setTaskErrorMessage task_id msg :
  preserves slot_kept (setTaskErrorMessage task_id msg).
Proof. unfold setTaskErrorMessage. keeps. Qed.

Hint Resolve keeps_setTaskErrorMessage : keeps.

Lemma keeps_run_catch task_id op e : preserves slot_kept (run_catch task_id op e).
Proof. unfold run_catch. keeps. Qed.

Lemma keeps_events_of task_ids : preserves slot_kept (events_of task_ids).
Proof. induction task_ids; simpl; keeps. Qed.

Hint Resolve keeps_run_catch keeps_events_of : keeps.

Lemma keeps_asyncWait task_id stream_id ids :
  preserves slot_kept (asyncWait task_id stream_id ids).
Proof. unfold asyncWait. keeps. Qed.

Lemma keeps_run_op op_id stream_id : preserves slot_kept (run_op op_id stream_id).
Proof. unfold run_op, AddPerOpStartTime, AddPerOpEndTime. keeps. Qed.

Hint Resolve keeps_asyncWait keeps_run_op : keeps.




Lemma keeps_finishTasks task_ids : preserves slot_kept (finishTasks task_ids).
Proof. unfold finishTasks. keeps. Qed.

Lemma keeps_canSchedule_parents first status pf ps :
  preserves slot_kept (canSchedule_parents first status pf ps).
Proof. induction ps; simpl; keeps. Qed.

Hint Resolve keeps_canSchedule_parents : keeps.





Lemma keeps_stream_loop fuel task_id gpu_id :
  preserves slot_kept (stream_loop fuel task_id gpu_id).
Proof.
  induction fuel; simpl; [apply keeps_diverges|].
  unfold next_stream, isStreamFree, getStreamCounters. keeps.
Qed.

Hint Resolve keeps_stream_loop : keeps.


Lemma keeps_poolGetter pools device_type device_id pool_size :
  preserves slot_kept (poolGetter pools device_type device_id pool_size).
Proof.
  unfold poolGetter. keeps; apply keeps_modify; intros; by destruct pools.
Qed.

Hint Resolve keeps_poolGetter : keeps.


End ErrorSlotMethods.

(** *** reset and handleRunError *)

Section Reset.
Context `{P : Platform}.

Lemma well_formed_set_operator_nodes w nodes :
  length nodes = length (operator_nodes_ w) ->
  well_formed w -> well_formed (set_operator_nodes nodes w).
Proof.
  intros Hlen [H1 H2 H3 H4]. split; simpl; rewrite ?Hlen; auto.
Qed.

Lemma reset_task_val w task_id :
  well_formed w -> task_id < length (chains_ w) ->
  exists nodes',
    reset_task task_id w = Val tt (set_operator_nodes nodes' w) /\
    length nodes' = length (operator_nodes_ w).
Proof.
  intros Hwf Hlt.
  destruct (wf_chain _ _ Hwf Hlt) as (c & f & l & Hc & Hf & _ & Hflt & _).
  destruct Hwf as [_ Hn Hcn _].
  destruct (lookup_lt_is_Some_2 (operator_nodes_ w) f) as [node Hnode]; [lia|].
  destruct (lookup_lt_is_Some_2 (chain_nodes_ w) task_id) as [cn Hcnode]; [lia|].
  eexists. split.
  - unfold reset_task.
    rewrite (bind_val _ _ _ _ _ (chain_val _ _ _ Hc)).
    rewrite (bind_val _ _ _ _ _ (front_val _ _ _ Hf)).
    unfold bind at 1, get at 1.
    rewrite (bind_val _ _ _ _ _ (index_val _ _ _ _ Hnode)).
    unfold parents. unfold bind at 1. unfold bind at 1, get at 1.
    rewrite (bind_val _ _ _ _ _ (index_val _ _ _ _ Hcnode)).
    unfold ret, modify. reflexivity.
  - apply length_insert.
Qed.

Lemma set_operator_nodes_twice n1 n2 w :
  set_operator_nodes n2 (set_operator_nodes n1 w) = set_operator_nodes n2 w.
Proof. done. Qed.

Lemma set_operator_nodes_same w : set_operator_nodes (operator_nodes_ w) w = w.
Proof. by destruct w. Qed.

Lemma reset_loop tasks : forall w,
  well_formed w ->
  Forall (fun task_id => task_id < length (chains_ w)) tasks ->
  exists nodes',
    for_each tasks reset_task w = Val tt (set_operator_nodes nodes' w) /\
    length nodes' = length (operator_nodes_ w).
Proof.
  induction tasks as [|t tasks IH]; intros w Hwf Hall.
  - exists (operator_nodes_ w). simpl. unfold ret.
    by rewrite set_operator_nodes_same.
  - inversion Hall as [|? ? Hlt Hall']; subst.
    destruct (reset_task_val _ _ Hwf Hlt) as (n1 & Hstep & Hlen1).
    destruct (IH (set_operator_nodes n1 w)) as (n2 & Hrun & Hlen2).
    { by apply well_formed_set_operator_nodes. }
    { done. }
    exists n2. simpl for_each. rewrite (bind_val _ _ _ _ _ Hstep).
    rewrite Hrun, set_operator_nodes_twice. simpl in Hlen2. split; [done|congruence].
Qed.




End Reset.


(** *** pool *)

Section Pool.
Context `{P : Platform}.



End Pool.



(** *** canSchedule *)

Section CanSchedule.
Context `{P : Platform}.

Lemma canSchedule_pair_val w parent_id child_id pc tp po cc fc co :
  chains_ w !! parent_id = Some pc -> last pc = Some tp ->
  operators_ w !! tp = Some po ->
  chains_ w !! child_id = Some cc -> head cc = Some fc ->
  operators_ w !! fc = Some co ->
  canSchedule_pair parent_id child_id w
  = Val (Event_CanSchedule (event_type (op_event po)) (event_status (op_event po))
           (event_type (op_event co)) (op_supports_async_scheduling co)) w.
Proof.
  intros Hpc Hl Hpo Hcc Hh Hco. unfold canSchedule_pair, read_event.
  rewrite (bind_val _ _ _ _ _ (event_val _ _ _ _ _ Hpc Hl Hpo)).
  unfold bind at 1. rewrite (bind_val _ _ _ _ _ (operator_val _ _ _ Hpo)).
  unfold ret at 1.
  rewrite (bind_val _ _ _ _ _ (chain_val _ _ _ Hcc)).
  rewrite (bind_val _ _ _ _ _ (front_val _ _ _ Hh)).
  by rewrite (bind_val _ _ _ _ _ (operator_val _ _ _ Hco)).
Qed.

Lemma canSchedule_parents_step w fc co pf parent_id rest pc tp po :
  operators_ w !! fc = Some co ->
  chains_ w !! parent_id = Some pc -> last pc = Some tp ->
  operators_ w !! tp = Some po ->
  canSchedule_parents fc None pf (parent_id :: rest) w
  = if bool_decide (event_status (op_event po) = EVENT_FAILED) then Val (false, raised pf) w
    else if Event_CanSchedule (event_type (op_event po)) (event_status (op_event po))
              (event_type (op_event co)) (op_supports_async_scheduling co)
         then canSchedule_parents fc None pf rest w
         else Val (false, pf) w.
Proof.
  intros Hco Hpc Hl Hpo. simpl.
  rewrite (bind_val _ _ _ _ _ (chain_val _ _ _ Hpc)).
  rewrite (bind_val _ _ _ _ _ (back_val _ _ _ Hl)).
  unfold bind at 1. rewrite (bind_val _ _ _ _ _ (operator_val _ _ _ Hpo)).
  unfold ret at 1. unfold Event_Query, Event_GetType.
  case_bool_decide; [done|].
  rewrite (bind_val _ _ _ _ _ (operator_val _ _ _ Hpo)).
  rewrite (bind_val _ _ _ _ _ (operator_val _ _ _ Hco)).
  by destruct (Event_CanSchedule _ _ _ _).
Qed.

Lemma status_of_val w task_id c tp po :
  chains_ w !! task_id = Some c -> last c = Some tp ->
  operators_ w !! tp = Some po ->
  status_of w task_id = Some (event_status (op_event po)).
Proof.
  intros Hc Hl Ho. unfold status_of, tail_event, tail_op, event_of.
  rewrite Hc. simpl. rewrite Hl. simpl. by rewrite Ho.
Qed.

Lemma canSchedule_parents_spec w child_id cc fc co pf :
  well_formed w ->
  chains_ w !! child_id = Some cc -> head cc = Some fc ->
  operators_ w !! fc = Some co ->
  (forall pt ct a, Event_CanSchedule pt EVENT_FAILED ct a = false) ->
  forall ps, Forall (fun p => p < length (chains_ w)) ps ->
  exists b pf',
    canSchedule_parents fc None pf ps w = Val (b, pf') w /\
    (b = true <-> forall p, p ∈ ps -> canSchedule_pair p child_id w = Val true w) /\
    ((exists l1 p l2, ps = l1 ++ p :: l2 /\
        (forall q, q ∈ l1 -> canSchedule_pair q child_id w = Val true w) /\
        status_of w p = Some EVENT_FAILED) ->
     b = false /\ pf' = raised pf) /\
    ((forall l1 p l2, ps = l1 ++ p :: l2 ->
        (forall q, q ∈ l1 -> canSchedule_pair q child_id w = Val true w) ->
        status_of w p <> Some EVENT_FAILED) ->
     pf' = pf).
Proof.
  intros Hwf Hcc Hh Hco Hfailed. induction ps as [|p ps IH]; intros Hall.
  - exists true, pf. simpl. unfold ret. split; [done|]. split.
    + split; [|done]. intros _ p Hp. by apply elem_of_nil in Hp.
    + split; [|done]. intros (l1 & p & l2 & Heq & _). by destruct l1.
  - inversion Hall as [|? ? Hlt Hall']; subst.
    destruct (wf_tail _ _ Hwf Hlt) as (pc & tp & po & Hpc & Hl & Hpo).
    pose proof (canSchedule_pair_val _ _ _ _ _ _ _ _ _ Hpc Hl Hpo Hcc Hh Hco) as Hpair.
    pose proof (status_of_val _ _ _ _ _ Hpc Hl Hpo) as Hst.
    rewrite (canSchedule_parents_step _ _ _ _ _ _ _ _ _ Hco Hpc Hl Hpo).
    case_bool_decide as Hf.
    + (* the parent has failed *)
      exists false, (raised pf). split; [done|]. split; [|split].
      * split; [done|]. intros Hall_pair.
        specialize (Hall_pair p (list_elem_of_here _ _)).
        rewrite Hpair, Hf, Hfailed in Hall_pair. by inversion Hall_pair.
      * done.
      * intros Hnone. exfalso. apply (Hnone [] p ps); [done| |by rewrite Hst, Hf].
        intros q Hq. by apply elem_of_nil in Hq.
    + destruct (Event_CanSchedule _ _ _ _) eqn:Hcan.
      * (* the parent lets the child go: on to the rest *)
        destruct (IH Hall') as (b & pf' & Hrun & Hiff & Hset & Hkeep).
        exists b, pf'. split; [done|]. split; [|split].
        -- rewrite Hiff. split.
           ++ intros Hrest q Hq. apply elem_of_cons in Hq as [->|Hq]; [done|auto].
           ++ intros Hrest q Hq. apply Hrest. apply elem_of_cons. by right.
        -- intros (l1 & q & l2 & Heq & Hbefore & Hq).
           destruct l1 as [|x l1]; simpl in Heq; inversion Heq; subst.
           ++ rewrite Hst in Hq. by inversion Hq.
           ++ apply Hset. exists l1, q, l2. split; [done|]. split; [|done].
              intros r Hr. apply Hbefore. apply elem_of_cons. by right.
        -- intros Hnone. apply Hkeep. intros l1 q l2 -> Hbefore.
           apply (Hnone (p :: l1) q l2); [done|].
           intros r Hr. apply elem_of_cons in Hr as [->|Hr]; [done|auto].
      * (* the parent blocks the child without having failed *)
        exists false, pf. split; [done|]. split; [|split].
        -- split; [done|]. intros Hall_pair.
           specialize (Hall_pair p (list_elem_of_here _ _)).
           rewrite Hpair in Hall_pair. by inversion Hall_pair.
        -- intros (l1 & q & l2 & Heq & Hbefore & Hq). exfalso.
           destruct l1 as [|x l1]; simpl in Heq; inversion Heq; subst.
           ++ rewrite Hst in Hq. by inversion Hq.
           ++ specialize (Hbefore x (list_elem_of_here _ _)).
              rewrite Hpair in Hbefore. by inversion Hbefore.
        -- done.
Qed.

(** C5, as the code has it.  With live statuses ([status] null) the batch
    check returns [true] exactly when the pairwise check returns [true] for
    every parent, given a policy table that refuses a FAILED parent.  It
    goes through the parents in order and stops at the first one that is
    FAILED or refused by the table: [parent_failed] is set when that
    parent is FAILED, and left as it was otherwise. *)
Theorem canSchedule_batch_pairwise (w : AsyncNetBase) (task_id : nat)
    (node : ChainNode) (parent_failed : option bool) :
  well_formed w ->
  task_id < length (chains_ w) ->
  chain_nodes_ w !! task_id = Some node ->
  (forall pt ct a, Event_CanSchedule pt EVENT_FAILED ct a = false) ->
  exists b parent_failed',
    canSchedule task_id None parent_failed w = Val (b, parent_failed') w /\
    (b = true <->
       forall p, p ∈ parents_ node -> canSchedule_pair p task_id w = Val true w) /\
    ((exists before p after, parents_ node = before ++ p :: after /\
        (forall q, q ∈ before -> canSchedule_pair q task_id w = Val true w) /\
        status_of w p = Some EVENT_FAILED) ->
     b = false /\ parent_failed' = raised parent_failed) /\
    ((forall before p after, parents_ node = before ++ p :: after ->
        (forall q, q ∈ before -> canSchedule_pair q task_id w = Val true w) ->
        status_of w p <> Some EVENT_FAILED) ->
     parent_failed' = parent_failed).
Proof.
  intros Hwf Hlt Hnode Hfailed.
  destruct (wf_chain _ _ Hwf Hlt) as (cc & fc & l & Hcc & Hh & _ & Hflt & _).
  destruct (lookup_lt_is_Some_2 _ _ Hflt) as [co Hco].
  assert (Hps : Forall (fun p => p < length (chains_ w)) (parents_ node)).
  { destruct Hwf as [_ _ _ Hp]. by apply (Forall_lookup_1 _ _ _ _ Hp Hnode). }
  destruct (canSchedule_parents_spec w task_id cc fc co parent_failed
              Hwf Hcc Hh Hco Hfailed _ Hps) as (b & pf' & Hrun & Hrest).
  exists b, pf'. split; [|done].
  unfold canSchedule.
  rewrite (bind_val _ _ _ _ _ (chain_val _ _ _ Hcc)).
  rewrite (bind_val _ _ _ _ _ (front_val _ _ _ Hh)).
  unfold parents. unfold bind at 1. unfold bind at 1, get at 1.
  rewrite (bind_val _ _ _ _ _ (index_val _ _ _ _ Hnode)).
  unfold ret at 1. exact Hrun.
Qed.

End CanSchedule.

Lemma canSchedule_batch_pairwise_witness :
  exists b parent_failed',
    canSchedule (P := demo) 2 None (Some false) fan_in = Val (b, parent_failed') fan_in /\
    (b = true <->
       forall p, p ∈ [0; 1] -> canSchedule_pair (P := demo) p 2 fan_in = Val true fan_in) /\
    ((exists before p after, [0; 1] = before ++ p :: after /\
        (forall q, q ∈ before -> canSchedule_pair (P := demo) q 2 fan_in = Val true fan_in) /\
        status_of fan_in p = Some EVENT_FAILED) ->
     b = false /\ parent_failed' = raised (Some false)) /\
    ((forall before p after, [0; 1] = before ++ p :: after ->
        (forall q, q ∈ before -> canSchedule_pair (P := demo) q 2 fan_in = Val true fan_in) ->
        status_of fan_in p <> Some EVENT_FAILED) ->
     parent_failed' = Some false).
Proof.
  apply (canSchedule_batch_pairwise (P := demo) fan_in 2
           {| children_ := []; parents_ := [0; 1] |} (Some false)).
  - solve_wf.
  - simpl. lia.
  - reflexivity.
  - reflexivity.
Defined.

(** C5, as the specification states it, fails where a parent that has not run
    comes before a FAILED one: the batch check returns [false] at the first
    parent and never looks at the second, so [parent_failed] stays
    [false] although a parent is FAILED. *)
Lemma canSchedule_misses_failed_parent :
  parents 2 fan_in = Val [0; 1] fan_in /\
  status_of fan_in 0 = Some EVENT_INITIALIZED /\
  status_of fan_in 1 = Some EVENT_FAILED /\
  canSchedule (P := demo) 2 None (Some false) fan_in = Val (false, Some false) fan_in.
Proof. repeat split. Qed.

(** *** The constructor *)

Lemma DisableEvent_idemp o : DisableEvent (DisableEvent o) = DisableEvent o.
Proof. done. Qed.

Lemma disable_all_length op_ids : forall ops,
  length (disable_all op_ids ops) = length ops.
Proof.
  induction op_ids as [|i op_ids IH]; intros ops; [done|].
  unfold disable_all in *. simpl. rewrite IH. apply length_alter.
Qed.

Lemma disable_all_lookup op_ids : forall ops i,
  disable_all op_ids ops !! i
  = if decide (i ∈ op_ids) then DisableEvent <$> ops !! i else ops !! i.
Proof.
  induction op_ids as [|j op_ids IH]; intros ops i.
  - rewrite decide_False; [done|apply not_elem_of_nil].
  - unfold disable_all in *. simpl fold_left. rewrite IH, list_lookup_alter.
    destruct (decide (j = i)) as [->|Hne].
    + rewrite (decide_True (P := i ∈ i :: op_ids)) by apply list_elem_of_here.
      case_decide; [|done]. destruct (ops !! i); simpl; [|done].
      by rewrite DisableEvent_idemp.
    + case_decide as Hin.
      * rewrite decide_True; [done|]. apply elem_of_cons. by right.
      * rewrite decide_False; [done|]. intros [->|?]%elem_of_cons; done.
Qed.

Lemma disable_all_app l1 l2 ops :
  disable_all (l1 ++ l2) ops = disable_all l2 (disable_all l1 ops).
Proof. apply fold_left_app. Qed.

Section Constructor.
Context `{P : Platform}.

Lemma disable_inner_event_val w chain b f op_id :
  last chain = Some b -> head chain = Some f ->
  op_id < length (operators_ w) ->
  disable_inner_event chain op_id w
  = Val tt (set_operators
              (disable_all
                 (filter (fun i => last chain <> Some i /\ head chain <> Some i) [op_id])
                 (operators_ w)) w).
Proof.
  intros Hb Hf Hlt. unfold disable_inner_event.
  rewrite (bind_val _ _ _ _ _ (back_val _ _ _ Hb)).
  rewrite (bind_val _ _ _ _ _ (front_val _ _ _ Hf)).
  destruct (lookup_lt_is_Some_2 _ _ Hlt) as [o Ho].
  rewrite filter_cons, filter_nil.
  destruct (Nat.eqb_spec op_id b) as [->|Hnb]; simpl.
  { rewrite decide_False by (intros [? _]; congruence).
    unfold ret, disable_all. simpl. by rewrite set_operators_same. }
  destruct (Nat.eqb_spec op_id f) as [->|Hnf]; simpl.
  { rewrite decide_False by (intros [_ ?]; congruence).
    unfold ret, disable_all. simpl. by rewrite set_operators_same. }
  rewrite decide_True by (split; congruence).
  by rewrite (bind_val _ _ _ _ _ (operator_val _ _ _ Ho)).
Qed.

Lemma disable_inner_loop chain b f op_ids : forall w,
  last chain = Some b -> head chain = Some f ->
  Forall (fun op_id => op_id < length (operators_ w)) op_ids ->
  for_each op_ids (disable_inner_event chain) w
  = Val tt (set_operators
              (disable_all
                 (filter (fun i => last chain <> Some i /\ head chain <> Some i) op_ids)
                 (operators_ w)) w).
Proof.
  induction op_ids as [|i op_ids IH]; intros w Hb Hf Hall.
  - simpl. unfold ret, disable_all. simpl. by rewrite set_operators_same.
  - inversion Hall as [|? ? Hlt Hall']; subst. simpl for_each.
    rewrite (bind_val _ _ _ _ _ (disable_inner_event_val _ _ _ _ _ Hb Hf Hlt)).
    rewrite IH; [|done|done|by simpl; rewrite disable_all_length].
    rewrite set_operators_twice. simpl operators_.
    change (i :: op_ids) with ([i] ++ op_ids).
    by rewrite filter_app, disable_all_app.
Qed.

Lemma disable_inner_events_val w chain b f :
  last chain = Some b -> head chain = Some f ->
  Forall (fun op_id => op_id < length (operators_ w)) chain ->
  disable_inner_events chain w
  = Val tt (set_operators (disable_all (inner_ops chain) (operators_ w)) w).
Proof. intros Hb Hf Hall. by apply (disable_inner_loop chain b f chain). Qed.

Lemma init_chain_events_val w chain :
  chain_ok (length (operators_ w)) chain ->
  exists b,
    last chain = Some b /\
    init_chain_events chain w
    = Val tt (set_events (events_ w ++ [b])
                (set_operators
                   (if report_stats_ (mode_ w) then operators_ w
                    else disable_all (inner_ops chain) (operators_ w)) w)).
Proof.
  intros [Hne Hall].
  destruct chain as [|f chain']; [done|].
  destruct (last (f :: chain')) as [b|] eqn:Hb; [|by apply last_None in Hb].
  exists b. split; [done|]. unfold init_chain_events.
  rewrite (bind_val _ _ _ _ _ (back_val _ _ _ Hb)).
  assert (Hblt : b < length (operators_ w)).
  { apply last_Some_elem_of in Hb. by eapply Forall_forall in Hall. }
  destruct (lookup_lt_is_Some_2 _ _ Hblt) as [o Ho].
  rewrite (bind_val _ _ _ _ _ (operator_val _ _ _ Ho)).
  unfold bind at 1, modify at 1. unfold bind at 1, get at 1.
  change (mode_ (set_events (events_ w ++ [b]) w)) with (mode_ w).
  destruct (report_stats_ (mode_ w)).
  - change (negb true) with false. cbv iota.
    unfold ret. by rewrite set_operators_same.
  - change (negb false) with true. cbv iota.
    by rewrite (disable_inner_events_val _ _ b f).
Qed.

Lemma init_events_loop chains : forall w,
  Forall (chain_ok (length (operators_ w))) chains ->
  exists w',
    for_each chains init_chain_events w = Val tt w' /\
    chains_ w' = chains_ w /\ mode_ w' = mode_ w /\
    events_ w' = events_ w ++ omap last chains /\
    operators_ w'
    = if report_stats_ (mode_ w) then operators_ w
      else disable_all (concat (map inner_ops chains)) (operators_ w).
Proof.
  induction chains as [|c chains IH]; intros w Hall.
  - exists w. simpl. rewrite app_nil_r. repeat split; try done.
    by destruct (report_stats_ (mode_ w)).
  - inversion Hall as [|? ? Hc Hall']; subst.
    destruct (init_chain_events_val w c Hc) as (b & Hb & Hstep).
    set (w1 := set_events _ _) in Hstep.
    destruct (IH w1) as (w' & Hrun & Hch & Hmode & Hev & Hops).
    { simpl. destruct (report_stats_ (mode_ w)); [done|].
      by rewrite disable_all_length. }
    exists w'. simpl for_each. rewrite (bind_val _ _ _ _ _ Hstep).
    split; [done|]. split; [by rewrite Hch|]. split; [by rewrite Hmode|]. split.
    + rewrite Hev. simpl. rewrite Hb. by rewrite <- app_assoc.
    + rewrite Hops. simpl. destruct (report_stats_ (mode_ w)); [done|].
      by rewrite disable_all_app.
Qed.

Lemma elem_of_inner_ops chains op_id :
  op_id ∈ concat (map inner_ops chains) <-> Exists (fun c => inner_of c op_id) chains.
Proof.
  induction chains as [|c chains IH]; simpl.
  - rewrite Exists_nil. apply elem_of_nil.
  - rewrite elem_of_app, Exists_cons, IH. unfold inner_ops, inner_of.
    rewrite list_elem_of_filter. tauto.
Qed.

(** C7, as the code has it.  The constructor records the event of the
    last operator of every chain in [events_] and, unless [report_stats_]
    is set, disables the event of exactly the operators that are inside a
    chain, neither its first nor its last; the first and the last operator
    of a chain keep their events.  With [report_stats_] set no event is
    disabled. *)
Theorem constructor_disables_inner_events (F : Flags) (net_def : NetDef)
    (mode : ExecutionMode) :
  computeExecutionModeFlags F net_def = inr mode ->
  let nodes := prepareOperatorNodes net_def in
  let chains :=
    map snd (if FLAGS_caffe2_net_async_inference_mode F
             then computeGroups nodes else computeChains nodes) in
  Forall (chain_ok (length nodes)) chains ->
  exists w,
    AsyncNetBase_new F net_def = Constructed w /\
    chains_ w = chains /\
    events_ w = omap last chains /\
    forall op_id o, map fst nodes !! op_id = Some o ->
      operators_ w !! op_id
      = Some (if report_stats_ mode then o
              else if decide (Exists (fun c => inner_of c op_id) chains)
                   then DisableEvent o else o).
Proof.
  intros Hmode nodes chains Hok. unfold AsyncNetBase_new. rewrite Hmode.
  fold nodes. fold chains. unfold init_events.
  unfold bind at 1, get at 1. simpl chains_.
  match goal with |- context [for_each chains init_chain_events ?w0] =>
    destruct (init_events_loop chains w0) as (w' & Hrun & Hch & _ & Hev & Hops)
  end.
  { simpl. by rewrite length_map. }
  rewrite Hrun. exists w'. split; [done|]. split; [done|]. split; [done|].
  intros op_id o Ho. rewrite Hops. simpl.
  destruct (report_stats_ mode); [done|].
  rewrite disable_all_lookup, Ho. simpl.
  destruct (decide (Exists _ chains)) as [Hin|Hout].
  - rewrite decide_True; [done|]. by apply elem_of_inner_ops.
  - rewrite decide_False; [done|]. by rewrite elem_of_inner_ops.
Qed.

End Constructor.

Lemma constructor_disables_inner_events_witness :
  exists w,
    AsyncNetBase_new (P := demo) inference_flags linear_triple = Constructed w /\
    chains_ w = [[0; 1; 2]] /\
    events_ w = omap last [[0; 1; 2]] /\
    forall op_id o,
      map fst (prepareOperatorNodes (Platform := demo) linear_triple) !! op_id = Some o ->
      operators_ w !! op_id
      = Some (if report_stats_ default_mode then o
              else if decide (Exists (fun c => inner_of c op_id) [[0; 1; 2]])
                   then DisableEvent o else o).
Proof.
  apply (constructor_disables_inner_events (P := demo) inference_flags linear_triple
           default_mode eq_refl).
  simpl. repeat first [ apply Forall_nil_2 | apply Forall_cons_2 | split | done | lia ].
Defined.

(** C7, as the specification states it, fails on the linear triple A, B, C in
    inference mode without profiling: one chain of the three operators is
    built, and only the event of B is disabled; the event of C, the last
    operator, stays enabled (it is the event of the chain). *)
Lemma constructor_keeps_tail_event :
  exists w,
    AsyncNetBase_new (P := demo) inference_flags linear_triple = Constructed w /\
    report_stats_ (mode_ w) = false /\
    chains_ w = [[0; 1; 2]] /\
    map op_type (operators_ w) = ["A"; "B"; "C"] /\
    map op_event_disabled (operators_ w) = [false; true; false] /\
    events_ w = [2].
Proof. eexists. repeat split. Qed.

(** *** stream *)


Lemma set_stream_counters_same w : set_stream_counters (stream_counters_ w) w = w.
Proof. by destruct w. Qed.





Lemma successive_calls_cons {A} (m : M A) n w :
  successive_calls m (S n) w
  = m w :: match state_after (m w) with
           | Some w' => successive_calls m n w'
           | None => []
           end.
Proof. done. Qed.


Section Stream.
Context `{P : Platform}.







(** [stream] up to its loop, for a task on a GPU. *)
Lemma stream_enters_loop fuel w task_id ch t o :
  chains_ w !! task_id = Some ch -> last ch = Some t ->
  operators_ w !! t = Some o ->
  device_type (event_option (op_event o)) = PROTO_CUDA ->
  (0 <= device_id (event_option (op_event o)))%Z ->
  let gpu_id := Z.to_nat (device_id (event_option (op_event o))) in
  stream fuel task_id w
  = stream_loop fuel task_id gpu_id
      (set_stream_counters (grown gpu_id (stream_counters_ w)) w).
Proof.
  intros Hch Hl Ho Hcuda Hid gpu_id. unfold stream, read_event.
  rewrite (bind_val _ _ _ _ _ (event_val _ _ _ _ _ Hch Hl Ho)).
  unfold bind at 1. rewrite (bind_val _ _ _ _ _ (operator_val _ _ _ Ho)).
  unfold ret at 1. unfold Event_GetDeviceOption. rewrite Hcuda, Z.eqb_refl.
  unfold bind at 1, CAFFE_ENFORCE.
  assert ((0 <=? device_id (event_option (op_event o)))%Z = true) as ->
    by (apply Z.leb_le; lia).
  unfold ret at 1. unfold bind at 1, getStreamCounters, get at 1.
  unfold grown. fold gpu_id.
  destruct (Z.leb_spec (Z.of_nat (length (stream_counters_ w)))
              (device_id (event_option (op_event o)))) as [Hle|Hgt].
  - rewrite decide_True by (unfold gpu_id; lia).
    unfold bind, modify. do 2 f_equal. f_equal. unfold gpu_id. lia.
  - rewrite decide_False by (unfold gpu_id; lia).
    unfold bind, ret. by rewrite set_stream_counters_same.
Qed.






End Stream.



Section StreamStatus.
Context `{P : Platform}.


End StreamStatus.



(** *** Computations that do not throw *)

Lemma nt_ret {A} (a : A) : never_throws (ret a).
Proof. done. Qed.

Lemma nt_get {A} (f : AsyncNetBase -> A) : never_throws (get f).
Proof. done. Qed.

Lemma nt_modify f : never_throws (modify f).
Proof. done. Qed.

Lemma nt_undefined {A} : never_throws (undefined (A := A)).
Proof. done. Qed.

Lemma nt_index {A} (v : list A) i : never_throws (index v i).
Proof. unfold index. by destruct (v !! i). Qed.

Lemma nt_back {A} (v : list A) : never_throws (back v).
Proof. unfold back. by destruct (last v). Qed.

Lemma nt_bind {A B} (m : M A) (k : A -> M B) :
  never_throws m -> (forall a, never_throws (k a)) -> never_throws (bind m k).
Proof.
  intros Hm Hk w e w'. unfold bind. destruct (m w) eqn:Hmw; try done.
  - apply Hk.
  - by apply Hm in Hmw.
Qed.

Lemma nt_guarded {A B} (m : M A) (h : exception -> M B) (k : A -> M B) :
  (forall e, never_throws (h e)) -> (forall a, never_throws (k a)) ->
  never_throws (guarded m h k).
Proof.
  intros Hh Hk w e w'. unfold guarded. destruct (m w); try done; [apply Hk|apply Hh].
Qed.

Create HintDb never_throws discriminated.

#[export] Hint Resolve nt_ret nt_get nt_modify nt_undefined nt_index nt_back : never_throws.

Ltac never_throws :=
  repeat first
    [ progress intros
    | progress cbv zeta
    | solve [ auto with never_throws ]
    | apply nt_modify
    | apply nt_bind
    | apply nt_guarded
    | match goal with
      | |- never_throws (if ?b then _ else _) => destruct b
      | |- never_throws (match ?x with _ => _ end) => destruct x
      end ].

(** *** run *)

Section Run.
Context `{P : Platform}.

Lemma plan_events_of task_ids : preserves same_plan (events_of task_ids).
Proof. induction task_ids; simpl; keeps. Qed.

Hint Resolve plan_events_of : keeps.

Lemma plan_run_wait task_id stream_id : preserves same_plan (run_wait task_id stream_id).
Proof. unfold run_wait, parents, asyncWait. keeps. Qed.

Lemma plan_run_op op_id stream_id : preserves same_plan (run_op op_id stream_id).
Proof. unfold run_op, AddPerOpStartTime, AddPerOpEndTime. keeps. Qed.

Lemma plan_ops_succeed stream_id op_ids : forall w w',
  ops_succeed stream_id op_ids w = Some w' -> same_plan w w'.
Proof.
  induction op_ids as [|i op_ids IH]; intros w w'; simpl.
  - intros [= <-]. reflexivity.
  - destruct (run_op i stream_id w) as [[] w1| | |] eqn:Hrun; try done.
    intros Hrest. transitivity w1; [|by apply IH].
    apply (plan_run_op i stream_id w w1). by rewrite Hrun.
Qed.

Lemma run_ops_succeed task_id stream_id pre rest after : forall w w1,
  ops_succeed stream_id pre w = Some w1 ->
  run_ops task_id stream_id (pre ++ rest) after w
  = run_ops task_id stream_id rest after w1.
Proof.
  induction pre as [|i pre IH]; intros w w1; simpl.
  - by intros [= <-].
  - unfold guarded at 1.
    destruct (run_op i stream_id w) as [[] w'| | |]; try done.
    simpl. apply IH.
Qed.

(** [run] up to the loop over the operators. *)
Lemma run_enters_loop w task_id stream_id ch w0 :
  chains_ w !! task_id = Some ch ->
  run_wait task_id stream_id w = Val tt w0 ->
  run task_id stream_id w
  = run_ops task_id stream_id ch
      (guarded (run_finish task_id) (run_catch task_id None) (fun _ => ret true)) w0.
Proof.
  intros Hch Hwait. unfold run. unfold guarded at 1. rewrite Hwait.
  destruct (plan_run_wait task_id stream_id w w0) as (Hchains & _ & _);
    [by rewrite Hwait|].
  unfold guarded at 1. rewrite (chain_val w0 task_id ch); [done|congruence].
Qed.

Lemma setTaskErrorMessage_val w task_id ch t ot err_msg :
  chains_ w !! task_id = Some ch -> last ch = Some t ->
  operators_ w !! t = Some ot ->
  setTaskErrorMessage task_id err_msg w = Val tt (error_message_set t err_msg w).
Proof.
  intros Hch Hl Ho. unfold setTaskErrorMessage, error_message_set, event_of.
  rewrite (bind_val _ _ _ _ _ (query_val _ _ _ _ _ Hch Hl Ho)).
  rewrite Ho. simpl. case_bool_decide; [|done].
  by rewrite (bind_val _ _ _ _ _ (event_val _ _ _ _ _ Hch Hl Ho)).
Qed.

Lemma error_message_set_event w t ot err_msg :
  operators_ w !! t = Some ot ->
  event_of (error_message_set t err_msg w) t
  = Some (if bool_decide (event_status (op_event ot) = EVENT_INITIALIZED)
          then with_status EVENT_FAILED err_msg (op_event ot)
          else op_event ot).
Proof.
  intros Ho. unfold error_message_set, event_of. rewrite Ho. simpl.
  case_bool_decide; [|by rewrite Ho].
  simpl. rewrite list_lookup_alter, decide_True by done. by rewrite Ho.
Qed.

Lemma error_message_set_chains t err_msg w :
  chains_ (error_message_set t err_msg w) = chains_ w.
Proof.
  unfold error_message_set. destruct (event_of w t); [|done]. by case_bool_decide.
Qed.

Lemma stored_val e w : storeExceptionPtr e w = Val tt (stored e w).
Proof.
  unfold storeExceptionPtr, stored, bind, get, modify, ret.
  destruct CAFFE2_USE_EXCEPTION_PTR; [|done]. by destruct (caught_exception_ w).
Qed.

Lemma stored_frame e w :
  operators_ (stored e w) = operators_ w /\ chains_ (stored e w) = chains_ w.
Proof.
  unfold stored. destruct CAFFE2_USE_EXCEPTION_PTR; [|done].
  by destruct (caught_exception_ w).
Qed.

(** The handlers of [run]. *)
Lemma run_catch_val w task_id op e ch t ot err_msg :
  chains_ w !! task_id = Some ch -> last ch = Some t ->
  operators_ w !! t = Some ot ->
  match op with
  | Some op_id =>
      exists o, operators_ w !! op_id = Some o /\
                err_msg = exception_text e +:+ ",  op " +:+ type_or_unknown o
  | None => err_msg = exception_text e
  end ->
  run_catch task_id op e w = Val false (error_message_set t err_msg (stored e w)).
Proof.
  intros Hch Hl Ho Hop. unfold run_catch.
  rewrite (bind_val _ _ _ _ _ (stored_val e w)).
  destruct (stored_frame e w) as [Hops Hchains].
  assert (Hset : setTaskErrorMessage task_id err_msg (stored e w)
                 = Val tt (error_message_set t err_msg (stored e w))).
  { apply (setTaskErrorMessage_val _ _ ch t ot); congruence. }
  destruct op as [op_id|].
  - destruct Hop as (o & Hop & ->).
    rewrite (bind_val _ _ _ (exception_text e +:+ ",  op " +:+ type_or_unknown o)
               (stored e w)).
    + by rewrite (bind_val _ _ _ _ _ Hset).
    + rewrite (bind_val _ _ _ o (stored e w)); [done|].
      apply operator_val. congruence.
  - subst err_msg. unfold bind at 1, ret at 1. fold (exception_text e).
    by rewrite (bind_val _ _ _ _ _ Hset).
Qed.

(** Nothing leaves [run] as an exception. *)
Lemma nt_storeExceptionPtr e : never_throws (storeExceptionPtr e).
Proof. intros w e' w'. by rewrite stored_val. Qed.

Hint Resolve nt_storeExceptionPtr : never_throws.

Lemma nt_setTaskErrorMessage task_id err_msg :
  never_throws (setTaskErrorMessage task_id err_msg).
Proof.
  unfold setTaskErrorMessage, query, event, read_event, chain, operator,
    update_operator.
  never_throws.
Qed.

Hint Resolve nt_setTaskErrorMessage : never_throws.

Lemma nt_run_catch task_id op e : never_throws (run_catch task_id op e).
Proof. unfold run_catch, operator. never_throws. Qed.

Hint Resolve nt_run_catch : never_throws.

Lemma nt_run_ops task_id stream_id op_ids after :
  never_throws after -> never_throws (run_ops task_id stream_id op_ids after).
Proof.
  intros Hafter. induction op_ids as [|i op_ids IH]; simpl; [done|].
  never_throws.
Qed.

Lemma nt_run task_id stream_id : never_throws (run task_id stream_id).
Proof.
  unfold run. never_throws. apply nt_run_ops. never_throws.
Qed.

Lemma run_op_failed w op_id stream_id o ops :
  operators_ w !! op_id = Some o ->
  Operator_RunAsync op_id stream_id (operators_ w) = Returns false ops ->
  run_op op_id stream_id w = Val false (after_failed_op op_id ops w).
Proof.
  intros Ho Hrun. unfold run_op, after_failed_op.
  rewrite (bind_val _ _ _ _ _ (operator_val _ _ _ Ho)).
  unfold bind at 1, get at 1.
  destruct (report_stats_ (mode_ w));
    [change (negb true) with false|change (negb false) with true]; cbv beta iota.
  - unfold AddPerOpStartTime. unfold bind at 1, modify at 1.
    set (wa := set_counters _ w). unfold bind at 1, call at 1.
    change (operators_ wa) with (operators_ w). rewrite Hrun.
    simpl andb. cbv iota. unfold bind at 1, ret at 1.
    unfold AddPerOpEndTime, bind, modify, ret. subst wa.
    unfold set_counters, set_operators. simpl. by rewrite <- app_assoc.
  - unfold call. by rewrite Hrun.
Qed.

Lemma after_failed_op_frame op_id ops w :
  operators_ (after_failed_op op_id ops w) = ops /\
  chains_ (after_failed_op op_id ops w) = chains_ w.
Proof. unfold after_failed_op. by destruct (report_stats_ (mode_ w)). Qed.

Lemma error_message_set_others t err_msg w i :
  i <> t -> operators_ (error_message_set t err_msg w) !! i = operators_ w !! i.
Proof.
  intros Hne. unfold error_message_set. destruct (event_of w t); [|done].
  case_bool_decide; [|done]. simpl. by rewrite list_lookup_alter_ne.
Qed.

Lemma error_message_set_unchanged t err_msg w ot :
  operators_ w !! t = Some ot ->
  event_status (op_event ot) <> EVENT_INITIALIZED ->
  error_message_set t err_msg w = w.
Proof.
  intros Ho Hs. unfold error_message_set, event_of. rewrite Ho. simpl.
  by rewrite bool_decide_eq_false_2.
Qed.

(** C2.  When the operators before [op_id] in the chain have returned
    [true] and [op_id] returns [false] from [RunAsync], [run] returns
    [false]; the event of the last operator of the chain, if its status is
    still INITIALIZED, is set to FAILED with the message "Failed to execute
    an op: " followed by the type of the operator when it has a debug
    definition and by " unknown" (sic, with its blank) when it has none;
    with any other status nothing at all is written. *)
Theorem run_reports_failed_op (w : AsyncNetBase) (task_id : nat) (stream_id : Z)
    (pre : list nat) (op_id : nat) (post : list nat) (w0 w1 : AsyncNetBase)
    (o1 : OperatorBase) (ops : list OperatorBase) (o : OperatorBase)
    (t : nat) (ot : OperatorBase) :
  chains_ w !! task_id = Some (pre ++ op_id :: post) ->
  last (pre ++ op_id :: post) = Some t ->
  run_wait task_id stream_id w = Val tt w0 ->
  ops_succeed stream_id pre w0 = Some w1 ->
  operators_ w1 !! op_id = Some o1 ->
  Operator_RunAsync op_id stream_id (operators_ w1) = Returns false ops ->
  ops !! op_id = Some o ->
  ops !! t = Some ot ->
  let err_msg :=
    "Failed to execute an op: " +:+ (if op_has_debug_def o then op_type o else " unknown") in
  exists w3,
    run task_id stream_id w = Val false w3 /\
    tail_event w3 task_id
    = Some (if bool_decide (event_status (op_event ot) = EVENT_INITIALIZED)
            then with_status EVENT_FAILED err_msg (op_event ot)
            else op_event ot) /\
    (event_status (op_event ot) <> EVENT_INITIALIZED ->
     w3 = after_failed_op op_id ops w1) /\
    (forall i, i <> t -> operators_ w3 !! i = ops !! i).
Proof.
  intros Hch Hl Hwait Hpre Ho1 Hrun Ho Hot err_msg.
  set (w2 := after_failed_op op_id ops w1).
  destruct (after_failed_op_frame op_id ops w1) as [Hops2 Hch2]. fold w2 in Hops2, Hch2.
  assert (Hchains : chains_ w2 = chains_ w).
  { destruct (plan_run_wait task_id stream_id w w0) as (H0 & _); [by rewrite Hwait|].
    destruct (plan_ops_succeed _ _ _ _ Hpre) as (H1 & _). congruence. }
  exists (error_message_set t err_msg w2). split; [|split; [|split]].
  - rewrite (run_enters_loop _ _ _ _ _ Hch Hwait).
    rewrite (run_ops_succeed _ _ _ _ _ _ _ Hpre). simpl run_ops.
    unfold guarded at 1. rewrite (run_op_failed _ _ _ _ _ Ho1 Hrun). fold w2.
    change (negb false) with true. cbv beta iota. unfold guarded, report_failed_op.
    rewrite (bind_val _ _ _ o w2) by (apply operator_val; congruence).
    rewrite (setTaskErrorMessage_val w2 task_id (pre ++ op_id :: post) t ot);
      [done|congruence|done|congruence].
  - unfold tail_event, tail_op. rewrite error_message_set_chains, Hchains, Hch.
    simpl. rewrite Hl. simpl. apply error_message_set_event. congruence.
  - intros Hs. apply (error_message_set_unchanged _ _ _ ot); [congruence|done].
  - intros i Hi. rewrite error_message_set_others by done. by rewrite Hops2.
Qed.

(** C3.  No exception leaves [run].  When the wait for the parents
    throws, or an operator throws after the operators before it returned
    [true], [run] goes through its handler, with the operator that was
    running if there is one.  The handler stores the exception unless one
    is stored already, sets the error message of the task (the text of the
    exception, followed by ",  op " and the type of the operator when one
    was running) on an event that is still INITIALIZED, and returns
    [false]. *)
Theorem run_captures_exceptions (w : AsyncNetBase) (task_id : nat) (stream_id : Z) :
  (forall e w', run task_id stream_id w <> Throw e w') /\
  (forall e w1,
     run_wait task_id stream_id w = Throw e w1 ->
     run task_id stream_id w = run_catch task_id None e w1) /\
  (forall pre op_id post w0 w1 e w2,
     chains_ w !! task_id = Some (pre ++ op_id :: post) ->
     run_wait task_id stream_id w = Val tt w0 ->
     ops_succeed stream_id pre w0 = Some w1 ->
     run_op op_id stream_id w1 = Throw e w2 ->
     run task_id stream_id w = run_catch task_id (Some op_id) e w2) /\
  (forall op e w1 ch t ot err_msg,
     chains_ w1 !! task_id = Some ch -> last ch = Some t ->
     operators_ w1 !! t = Some ot ->
     match op with
     | Some op_id =>
         exists o, operators_ w1 !! op_id = Some o /\
           err_msg = exception_text e +:+ ",  op " +:+
                     (if op_has_debug_def o then op_type o else " unknown")
     | None => err_msg = exception_text e
     end ->
     exists w3,
       run_catch task_id op e w1 = Val false w3 /\
       caught_exception_ w3
       = (if CAFFE2_USE_EXCEPTION_PTR then
            match caught_exception_ w1 with
            | Some first => Some first
            | None => Some e
            end
          else caught_exception_ w1) /\
       tail_event w3 task_id
       = Some (if bool_decide (event_status (op_event ot) = EVENT_INITIALIZED)
               then with_status EVENT_FAILED err_msg (op_event ot)
               else op_event ot)).
Proof.
  split; [intros e w'; apply nt_run|]. split; [|split].
  - intros e w1 Hwait. unfold run. unfold guarded at 1. by rewrite Hwait.
  - intros pre op_id post w0 w1 e w2 Hch Hwait Hpre Hrun.
    rewrite (run_enters_loop _ _ _ _ _ Hch Hwait).
    rewrite (run_ops_succeed _ _ _ _ _ _ _ Hpre). simpl run_ops.
    unfold guarded at 1. by rewrite Hrun.
  - intros op e w1 ch t ot err_msg Hch Hl Hot Hop.
    destruct (stored_frame e w1) as [Hops Hchains].
    exists (error_message_set t err_msg (stored e w1)). split; [|split].
    + by apply (run_catch_val _ _ _ _ ch t ot).
    + assert (Hc : forall w', caught_exception_ (error_message_set t err_msg w')
                              = caught_exception_ w').
      { intros w'. unfold error_message_set. destruct (event_of w' t); [|done].
        by case_bool_decide. }
      rewrite Hc. unfold stored. destruct CAFFE2_USE_EXCEPTION_PTR; [|done].
      by destruct (caught_exception_ w1) eqn:Hfirst.
    + unfold tail_event, tail_op. rewrite error_message_set_chains, Hchains, Hch.
      simpl. rewrite Hl. simpl. apply error_message_set_event. congruence.
Qed.

End Run.

Lemma run_reports_failed_op_witness :
  exists w3,
    run (P := demo) 0 0 failing_chain = Val false w3 /\
    tail_event w3 0
    = Some (with_status EVENT_FAILED "Failed to execute an op:  unknown"
              (blank_event 0 0 EVENT_INITIALIZED)).
Proof.
  destruct (run_reports_failed_op (P := demo) failing_chain 0 0 [0] 1 [2]
              failing_chain
              (set_operators
                 (alter (set_event (Event_SetFinished None)) 0 (operators_ failing_chain))
                 failing_chain)
              (demo_op "Fail" false 0 0 EVENT_INITIALIZED)
              (alter (set_event (Event_SetFinished None)) 0 (operators_ failing_chain))
              (demo_op "Fail" false 0 0 EVENT_INITIALIZED)
              2 (demo_op "C" true 0 0 EVENT_INITIALIZED)
              eq_refl eq_refl eq_refl eq_refl eq_refl eq_refl eq_refl eq_refl)
    as (w3 & Hrun & Hevent & _).
  exists w3. split; [exact Hrun|exact Hevent].
Defined.

Lemma run_captures_exceptions_witness :
  exists w3,
    run (P := demo) 0 0 throwing_chain = Val false w3 /\
    caught_exception_ w3 = Some (std_exception "boom") /\
    tail_event w3 0
    = Some (with_status EVENT_FAILED "boom,  op Throw" (blank_event 0 0 EVENT_INITIALIZED)).
Proof.
  pose proof (run_captures_exceptions (P := demo) throwing_chain 0 0)
    as (_ & _ & Hop & Hcatch).
  pose (w1 := set_operators
                (alter (set_event (Event_SetFinished None)) 0 (operators_ throwing_chain))
                throwing_chain).
  destruct (Hcatch (Some 1) (std_exception "boom") w1 [0; 1; 2] 2
              (demo_op "C" true 0 0 EVENT_INITIALIZED) "boom,  op Throw"
              eq_refl eq_refl eq_refl
              (ex_intro _ (demo_op "Throw" true 0 0 EVENT_INITIALIZED) (conj eq_refl eq_refl)))
    as (w3 & Hrun & Hslot & Hevent).
  exists w3. split; [|split; [exact Hslot|exact Hevent]].
  rewrite <- Hrun.
  exact (Hop [0] 1 [2] throwing_chain w1 (std_exception "boom") w1
           eq_refl eq_refl eq_refl eq_refl).
Defined.

(** *** Execution modes *)

Lemma enable_profiling_arg_absent args report_stats :
  Forall (fun arg => arg_has_name arg && String.eqb (arg_name arg) "enable_profiling" = false)
         args ->
  enable_profiling_arg args report_stats = inr report_stats.
Proof.
  induction 1 as [|arg args Harg _ IH]; simpl; [done|]. by rewrite Harg.
Qed.

(** X1.  The net types "dag", "prof_dag" and "async_dag" select their row
    of the table of execution modes whatever the command line flags say,
    as long as the net has no "enable_profiling" argument. *)
Theorem dag_presets_ignore_flags (F : Flags) (net_def : NetDef) :
  net_has_type net_def = true ->
  no_profiling_arg net_def ->
  (net_type net_def = "dag" ->
     computeExecutionModeFlags F net_def = inr (dag_preset true false)) /\
  (net_type net_def = "prof_dag" ->
     computeExecutionModeFlags F net_def = inr (dag_preset true true)) /\
  (net_type net_def = "async_dag" ->
     computeExecutionModeFlags F net_def = inr (dag_preset false false)).
Proof.
  intros Htype Hargs. unfold no_profiling_arg in Hargs.
  repeat split; intros Hname; unfold computeExecutionModeFlags;
    rewrite Htype, Hname; simpl; by rewrite (enable_profiling_arg_absent _ _ Hargs).
Qed.

Lemma dag_presets_ignore_flags_witness :
  computeExecutionModeFlags inference_flags prof_dag_def = inr (dag_preset true true).
Proof.
  refine (proj1 (proj2 (dag_presets_ignore_flags inference_flags prof_dag_def eq_refl _))
            eq_refl).
  apply Forall_nil_2.
Defined.

(** *** The scheduled flag and the parent counters *)

(** X2.  [testAndSetScheduled] returns [true] for a chain whose flag is
    clear and sets the flag; from then on it returns [false] and changes
    nothing. *)
Theorem testAndSetScheduled_once (w : AsyncNetBase) (task_id : nat)
    (c : list nat) (first_id : nat) (node : OperatorNode) :
  chains_ w !! task_id = Some c ->
  head c = Some first_id ->
  operator_nodes_ w !! first_id = Some node ->
  scheduled_ node = false ->
  exists w',
    testAndSetScheduled task_id w = Val true w' /\
    forall n, successive_calls (testAndSetScheduled task_id) n w'
              = replicate n (Val false w').
Proof.
  intros Hc Hh Hn Hclear.
  set (node' := {| runtime_parent_count_ := runtime_parent_count_ node;
                   scheduled_ := true |}).
  set (w' := set_operator_nodes (<[first_id := node']> (operator_nodes_ w)) w).
  assert (Hcall : forall w0 node0,
    chains_ w0 !! task_id = Some c -> operator_nodes_ w0 !! first_id = Some node0 ->
    testAndSetScheduled task_id w0
    = Val (negb (scheduled_ node0))
        (set_operator_nodes
           (<[first_id := {| runtime_parent_count_ := runtime_parent_count_ node0;
                             scheduled_ := true |}]> (operator_nodes_ w0)) w0)).
  { intros w0 node0 Hc0 Hn0. unfold testAndSetScheduled.
    rewrite (bind_val _ _ _ _ _ (chain_val _ _ _ Hc0)).
    rewrite (bind_val _ _ _ _ _ (front_val _ _ _ Hh)).
    unfold bind at 1, get at 1.
    by rewrite (bind_val _ _ _ _ _ (index_val _ _ _ _ Hn0)). }
  exists w'. split.
  - rewrite (Hcall w node Hc Hn), Hclear. done.
  - assert (Hagain : testAndSetScheduled task_id w' = Val false w').
    { rewrite (Hcall w' node'); [|done|].
      - simpl. unfold w'. simpl operator_nodes_. rewrite list_insert_insert_eq.
        by rewrite set_operator_nodes_twice.
      - simpl. apply list_lookup_insert_eq. by eapply lookup_lt_Some. }
    induction n as [|n IH]; [done|].
    simpl. rewrite Hagain. simpl. by rewrite IH.
Qed.

Lemma testAndSetScheduled_once_witness :
  exists w',
    testAndSetScheduled 2 fan_in = Val true w' /\
    forall n, successive_calls (testAndSetScheduled 2) n w' = replicate n (Val false w').
Proof.
  exact (testAndSetScheduled_once fan_in 2 [2] 2
           {| runtime_parent_count_ := 2; scheduled_ := false |}
           eq_refl eq_refl eq_refl eq_refl).
Defined.

Section ResetCounts.
Context `{P : Platform}.

Lemma reset_task_exact w task_id c first_id node cn :
  chains_ w !! task_id = Some c -> head c = Some first_id ->
  operator_nodes_ w !! first_id = Some node ->
  chain_nodes_ w !! task_id = Some cn ->
  reset_task task_id w
  = Val tt (set_operator_nodes
              (<[first_id := {| runtime_parent_count_ := Z.of_nat (length (parents_ cn));
                                scheduled_ := false |}]> (operator_nodes_ w)) w).
Proof.
  intros Hc Hf Hnode Hcn. unfold reset_task.
  rewrite (bind_val _ _ _ _ _ (chain_val _ _ _ Hc)).
  rewrite (bind_val _ _ _ _ _ (front_val _ _ _ Hf)).
  unfold bind at 1, get at 1.
  rewrite (bind_val _ _ _ _ _ (index_val _ _ _ _ Hnode)).
  unfold parents. unfold bind at 1. unfold bind at 1, get at 1.
  by rewrite (bind_val _ _ _ _ _ (index_val _ _ _ _ Hcn)).
Qed.

Lemma reset_loop_counts tasks : forall w,
  well_formed w -> distinct_heads w -> NoDup tasks ->
  Forall (fun task_id => task_id < length (chains_ w)) tasks ->
  exists nodes',
    for_each tasks reset_task w = Val tt (set_operator_nodes nodes' w) /\
    (forall task_id h cn,
       task_id ∈ tasks -> head_op w task_id = Some h ->
       chain_nodes_ w !! task_id = Some cn ->
       nodes' !! h = Some {| runtime_parent_count_ := Z.of_nat (length (parents_ cn));
                             scheduled_ := false |}) /\
    (forall h, (forall task_id, task_id ∈ tasks -> head_op w task_id <> Some h) ->
       nodes' !! h = operator_nodes_ w !! h).
Proof.
  induction tasks as [|t tasks IH]; intros w Hwf Hheads Hnodup Hall.
  - exists (operator_nodes_ w). simpl. unfold ret. rewrite set_operator_nodes_same.
    split; [done|]. split; [|done]. intros ? ? ? Hin. by apply elem_of_nil in Hin.
  - inversion Hall as [|? ? Hlt Hall']; subst.
    apply NoDup_cons in Hnodup as [Hnotin Hnodup].
    destruct (wf_chain _ _ Hwf Hlt) as (c & f & l & Hc & Hf & _ & Hflt & _).
    pose proof Hwf as [_ Hn Hcn _].
    destruct (lookup_lt_is_Some_2 (operator_nodes_ w) f) as [node Hnode]; [lia|].
    destruct (lookup_lt_is_Some_2 (chain_nodes_ w) t) as [cn Hcnode]; [lia|].
    pose proof (reset_task_exact _ _ _ _ _ _ Hc Hf Hnode Hcnode) as Hstep.
    set (n1 := <[f := _]> (operator_nodes_ w)) in Hstep.
    destruct (IH (set_operator_nodes n1 w)) as (nodes' & Hrun & Hin & Hout); try done.
    { apply well_formed_set_operator_nodes; [apply length_insert|done]. }
    assert (Hhead : head_op w t = Some f) by (unfold head_op; by rewrite Hc).
    exists nodes'. simpl for_each. rewrite (bind_val _ _ _ _ _ Hstep).
    rewrite Hrun, set_operator_nodes_twice. split; [done|]. split.
    + intros task_id h cn' Hel Hh Hcn'. apply elem_of_cons in Hel as [->|Hel].
      * assert (h = f) as -> by congruence. assert (cn' = cn) as -> by congruence.
        rewrite Hout.
        -- simpl. unfold n1. apply list_lookup_insert_eq. by eapply lookup_lt_Some.
        -- intros task_id' Hel' Heq. apply Hnotin.
           by rewrite (Hheads t task_id' f Hhead Heq).
      * by apply (Hin task_id h cn').
    + intros h Hno. rewrite Hout.
      * simpl. unfold n1. apply list_lookup_insert_ne. intros ->.
        by apply (Hno t (list_elem_of_here _ _)).
      * intros task_id' Hel'. apply Hno. apply elem_of_cons. by right.
Qed.

(** X3.  On a well-formed net whose chains start with different
    operators, [reset] returns, and afterwards the parent counter of every
    chain is the number of its parents and its scheduled flag is clear. *)
Theorem reset_parent_counts (w : AsyncNetBase) :
  well_formed w -> distinct_heads w ->
  exists w',
    reset w = Val tt w' /\
    success_ w' = true /\
    forall task_id h cn,
      head_op w task_id = Some h -> chain_nodes_ w !! task_id = Some cn ->
      operator_nodes_ w' !! h
      = Some {| runtime_parent_count_ := Z.of_nat (length (parents_ cn));
                scheduled_ := false |} /\
      getParentCount task_id w' = Val (Z.of_nat (length (parents_ cn))) w'.
Proof.
  intros Hwf Hheads.
  set (w1 := set_operators (map ResetEvent (operators_ w)) w).
  assert (Hwf1 : well_formed w1).
  { apply well_formed_set_operators; [apply length_map|done]. }
  destruct (reset_loop_counts (seq 0 (length (chains_ w1))) w1 Hwf1 Hheads)
    as (nodes' & Hrun & Hin & _).
  { apply NoDup_seq. }
  { apply Forall_forall. intros t Ht. apply elem_of_seq in Ht. lia. }
  set (w2 := set_operator_nodes nodes' w1) in Hrun.
  assert (Hreset : exists w', reset w = Val tt w' /\ success_ w' = true /\
            operator_nodes_ w' = nodes' /\ chains_ w' = chains_ w).
  { unfold reset. unfold bind at 1, modify at 1. fold w1.
    unfold bind at 1, tasksNum, bind at 1, get at 1, ret at 1.
    unfold bind at 1. rewrite Hrun. unfold bind, modify.
    destruct CAFFE2_USE_EXCEPTION_PTR; eexists; by repeat split. }
  destruct Hreset as (w' & Hreset & Hsucc & Hnodes & Hchains).
  exists w'. split; [done|]. split; [done|].
  intros task_id h cn Hh Hcn.
  assert (Hlt : task_id < length (chains_ w)).
  { unfold head_op in Hh. destruct (chains_ w !! task_id) eqn:Hc; [|done].
    by eapply lookup_lt_Some. }
  assert (Hnode : operator_nodes_ w' !! h
                  = Some {| runtime_parent_count_ := Z.of_nat (length (parents_ cn));
                            scheduled_ := false |}).
  { rewrite Hnodes. apply (Hin task_id h cn); [apply elem_of_seq; simpl; lia|done|done]. }
  split; [done|].
  unfold head_op in Hh. destruct (chains_ w !! task_id) as [c|] eqn:Hc; [|done].
  simpl in Hh. unfold getParentCount.
  rewrite (bind_val _ _ _ c w') by (apply chain_val; congruence).
  rewrite (bind_val _ _ _ _ _ (front_val _ _ _ Hh)).
  unfold bind at 1, get at 1.
  by rewrite (bind_val _ _ _ _ _ (index_val _ _ _ _ Hnode)).
Qed.

End ResetCounts.

Lemma reset_parent_counts_witness :
  exists w',
    reset (P := demo) fan_in = Val tt w' /\
    success_ w' = true /\
    forall task_id h cn,
      head_op fan_in task_id = Some h -> chain_nodes_ fan_in !! task_id = Some cn ->
      operator_nodes_ w' !! h
      = Some {| runtime_parent_count_ := Z.of_nat (length (parents_ cn));
                scheduled_ := false |} /\
      getParentCount task_id w' = Val (Z.of_nat (length (parents_ cn))) w'.
Proof.
  apply (reset_parent_counts (P := demo) fan_in); [solve_wf|].
  intros i j h Hi Hj. unfold head_op in *.
  destruct i as [|[|[|i]]]; destruct j as [|[|[|j]]]; simpl in *; congruence.
Defined.

(** ** Further properties *)

(** *** Execution modes *)

Lemma enable_profiling_arg_skip before rest report_stats :
  Forall (fun arg => is_profiling_arg arg = false) before ->
  enable_profiling_arg (before ++ rest) report_stats
  = enable_profiling_arg rest report_stats.
Proof.
  induction 1 as [|arg before Harg _ IH]; simpl; [done|].
  unfold is_profiling_arg in Harg. by rewrite Harg.
Qed.

Lemma computeExecutionModeFlags_no_args F net_def :
  exists m, computeExecutionModeFlags F (with_args [] net_def) = inr m.
Proof. unfold computeExecutionModeFlags. simpl. eauto. Qed.

(** X4.  A net whose type is none of "dag", "prof_dag" and "async_dag"
    (or that has no type, or an empty one) takes every switch of its
    execution mode from the command line flags, is not blocking and does
    not profile, as long as it has no "enable_profiling" argument. *)
Theorem other_types_follow_flags (F : Flags) (net_def : NetDef) :
  no_profiling_arg net_def ->
  (net_has_type net_def = true ->
   net_type net_def <> "dag" /\ net_type net_def <> "prof_dag" /\
   net_type net_def <> "async_dag") ->
  computeExecutionModeFlags F net_def = inr (flags_mode F).
Proof.
  intros Hargs Htype. unfold no_profiling_arg in Hargs.
  unfold computeExecutionModeFlags.
  rewrite (enable_profiling_arg_absent _ _ Hargs).
  destruct (net_has_type net_def); simpl; [|done].
  destruct (Htype eq_refl) as (Hdag & Hprof & Hasync).
  destruct (String.eqb_spec (net_type net_def) "") as [->|_]; simpl; [done|].
  apply String.eqb_neq in Hdag, Hprof, Hasync. by rewrite Hdag, Hprof, Hasync.
Qed.

Lemma other_types_follow_flags_witness :
  computeExecutionModeFlags inference_flags linear_triple = inr (flags_mode inference_flags).
Proof.
  apply other_types_follow_flags; [apply Forall_nil_2|discriminate].
Defined.

(** X5.  The first argument of the net named "enable_profiling" decides
    [report_stats_], whatever the type of the net: profiling is on exactly
    when its integer is 1, the other switches are those of the net without
    arguments, and arguments behind it are not looked at.  When that
    argument carries no integer, [computeExecutionModeFlags] throws. *)
Theorem enable_profiling_overrides (F : Flags) (net_def : NetDef)
    (before : list Argument) (arg : Argument) (rest : list Argument) :
  net_arg net_def = before ++ arg :: rest ->
  Forall (fun a => is_profiling_arg a = false) before ->
  is_profiling_arg arg = true ->
  computeExecutionModeFlags F net_def
  = if arg_has_i arg then
      match computeExecutionModeFlags F (with_args [] net_def) with
      | inr m => inr (with_report_stats (arg_i arg =? 1)%Z m)
      | inl e => inl e
      end
    else inl (EnforceNotMet "enable_profiling should be an int").
Proof.
  intros Hargs Hbefore Harg. unfold computeExecutionModeFlags. simpl net_arg.
  rewrite Hargs, (enable_profiling_arg_skip _ _ _ Hbefore). simpl.
  unfold is_profiling_arg in Harg. rewrite Harg.
  by destruct (arg_has_i arg).
Qed.

Lemma enable_profiling_overrides_witness :
  computeExecutionModeFlags default_flags profiled_dag_def = inr (dag_preset true true).
Proof.
  exact (enable_profiling_overrides default_flags profiled_dag_def
           [int_arg "other" 5] (int_arg "enable_profiling" 1)
           [int_arg "enable_profiling" 0]
           eq_refl ltac:(repeat constructor) eq_refl).
Defined.

(** *** The pools *)

Lemma pools_of_set_pools r v w : pools_of r (set_pools r v w) = v.
Proof. by destruct r. Qed.

Lemma set_pools_frame r v w :
  mode_ (set_pools r v w) = mode_ w /\ FLAGS (set_pools r v w) = FLAGS w /\
  num_workers_ (set_pools r v w) = num_workers_ w.
Proof. by destruct r. Qed.

Lemma pool_at_insert (pools : PoolsMap) device_id pool_size pool :
  pool_at (<[device_id := <[pool_size := pool]> (default ∅ (pools !! device_id))]> pools)
          device_id pool_size = Some pool.
Proof. unfold pool_at. rewrite lookup_insert_eq. simpl. by rewrite lookup_insert_eq. Qed.

Lemma pool_at_insert_other (pools : PoolsMap) device_id pool_size pool id' size' :
  (id', size') <> (device_id, pool_size) ->
  pool_at (<[device_id := <[pool_size := pool]> (default ∅ (pools !! device_id))]> pools)
          id' size' = pool_at pools id' size'.
Proof.
  intros Hne. unfold pool_at. destruct (decide (device_id = id')) as [->|Hid].
  - rewrite lookup_insert_eq. simpl. rewrite lookup_insert_ne by congruence.
    by destruct (pools !! id').
  - by rewrite lookup_insert_ne.
Qed.

Section Pools.
Context `{P : Platform}.

Lemma poolGetter_hit r device_type device_id pool_size w pool :
  pool_at (pools_of r w) device_id pool_size = Some pool ->
  poolGetter r device_type device_id pool_size w = Val (Some pool) w.
Proof.
  intros Hat. unfold poolGetter. unfold bind at 1, get at 1.
  unfold pool_at in Hat. by rewrite Hat.
Qed.

(** What a call of [poolGetter] that returns leaves behind. *)
Lemma poolGetter_returns r device_type device_id pool_size w o w' :
  poolGetter r device_type device_id pool_size w = Val o w' ->
  mode_ w' = mode_ w /\ FLAGS w' = FLAGS w /\ num_workers_ w' = num_workers_ w /\
  match o with
  | Some pool =>
      pool_at (pools_of r w') device_id pool_size = Some pool /\
      (forall id' size', (id', size') <> (device_id, pool_size) ->
         pool_at (pools_of r w') id' size' = pool_at (pools_of r w) id' size')
  | None => w' = w
  end.
Proof.
  unfold poolGetter. unfold bind at 1, get at 1.
  fold (pool_at (pools_of r w) device_id pool_size).
  destruct (pool_at (pools_of r w) device_id pool_size) as [pool|] eqn:Hat.
  - intros [= <- <-]. by repeat split.
  - unfold bind at 1, get at 1.
    destruct (ThreadPoolRegistry_Create _ _ _ _) as [pool|].
    + unfold bind, modify, ret. intros [= <- <-].
      destruct (set_pools_frame r
        (<[device_id := <[pool_size := pool]> (default ∅ (pools_of r w !! device_id))]>
           (pools_of r w)) w) as (Hm & HF & Hn).
      repeat split; try done.
      * rewrite pools_of_set_pools. apply pool_at_insert.
      * intros id' size' Hne. rewrite pools_of_set_pools. by apply pool_at_insert_other.
    + intros [= <- <-]. by repeat split.
Qed.

Lemma pool_by_key device_option w :
  pool device_option w
  = match pool_key device_option w with
    | inl e => Throw e w
    | inr (r, device_type, device_id) =>
        poolGetter r device_type device_id (num_workers_ w) w
    end.
Proof.
  unfold pool, pool_key, numa_node_of.
  unfold bind at 1, get at 1. unfold bind at 1, get at 1.
  destruct (use_single_pool_ (mode_ w)); [done|].
  case_bool_decide.
  - destruct (has_device_id device_option).
    + unfold bind at 1. unfold bind at 1, CAFFE_ENFORCE.
      destruct (Z.leb_spec 0 (device_id device_option)) as [Hge|Hlt].
      * assert ((device_id device_option <? 0)%Z = false) as -> by (apply Z.ltb_ge; lia).
        simpl. unfold bind at 1, get at 1. unfold bind at 1.
        destruct (Z.ltb_spec (device_id device_option)
                    (FLAGS_caffe2_net_async_max_numa_nodes (FLAGS w))) as [Hin|Hout].
        -- by assert ((FLAGS_caffe2_net_async_max_numa_nodes (FLAGS w)
                       <=? device_id device_option)%Z = false) as ->
             by (apply Z.leb_gt; lia).
        -- by assert ((FLAGS_caffe2_net_async_max_numa_nodes (FLAGS w)
                       <=? device_id device_option)%Z = true) as ->
             by (apply Z.leb_le; lia).
      * by assert ((device_id device_option <? 0)%Z = true) as -> by (apply Z.ltb_lt; lia).
    + simpl. unfold bind at 1, ret at 1. unfold bind at 1, get at 1.
      unfold bind at 1, CAFFE_ENFORCE.
      destruct (Z.ltb_spec (-1) (FLAGS_caffe2_net_async_max_numa_nodes (FLAGS w)))
        as [Hin|Hout].
      * by assert ((FLAGS_caffe2_net_async_max_numa_nodes (FLAGS w) <=? -1)%Z = false)
          as -> by (apply Z.leb_gt; lia).
      * by assert ((FLAGS_caffe2_net_async_max_numa_nodes (FLAGS w) <=? -1)%Z = true)
          as -> by (apply Z.leb_le; lia).
  - destruct (device_type device_option =? PROTO_CUDA)%Z; [|done].
    unfold bind at 1, get at 1. unfold bind at 1, CAFFE_ENFORCE.
    by destruct ((0 <=? device_id device_option)%Z
                 && (device_id device_option <? FLAGS_caffe2_net_async_max_gpus (FLAGS w))%Z).
Qed.

(** Where the pool that [poolGetter] returns comes from: the map when it
    holds one, and the registry otherwise. *)
Lemma poolGetter_origin r device_type device_id pool_size w pool w' :
  poolGetter r device_type device_id pool_size w = Val (Some pool) w' ->
  match pool_at (pools_of r w) device_id pool_size with
  | Some cached => cached = pool /\ w' = w
  | None =>
      ThreadPoolRegistry_Create (DeviceTypeName device_type) device_id pool_size
        (use_per_net_pools_ (mode_ w)) = Some pool
  end.
Proof.
  unfold poolGetter. unfold bind at 1, get at 1.
  fold (pool_at (pools_of r w) device_id pool_size).
  destruct (pool_at (pools_of r w) device_id pool_size) as [cached|].
  - by intros [= <- <-].
  - unfold bind at 1, get at 1.
    destruct (ThreadPoolRegistry_Create _ _ _ _) as [created|]; [|done].
    unfold bind, modify, ret. by intros [= <- _].
Qed.

End Pools.

(** X6.  [pool] hands out the pool it has created before.  A call that
    returns a pool leaves that pool in the map under the device id and
    the number of workers; it took it from the map when the map held one
    (and then changed nothing), and from the registry otherwise.  A call
    with the same device option right after it returns that pool again
    and changes nothing, without turning to the registry: it does so
    whatever the registry would create, and even when the registry can
    create nothing. *)
Theorem pool_returns_cached_pool `{P : Platform} (device_option : DeviceOption)
    (w w' : AsyncNetBase) (pool' : TaskThreadPool) :
  pool device_option w = Val (Some pool') w' ->
  pool device_option w' = Val (Some pool') w' /\
  (forall create,
     pool (P := with_registry create P) device_option w' = Val (Some pool') w') /\
  exists r device_type device_id,
    pool_key device_option w = inr (r, device_type, device_id) /\
    pool_at (pools_of r w') device_id (num_workers_ w) = Some pool' /\
    match pool_at (pools_of r w) device_id (num_workers_ w) with
    | Some cached => cached = pool' /\ w' = w
    | None =>
        ThreadPoolRegistry_Create (DeviceTypeName device_type) device_id
          (num_workers_ w) (use_per_net_pools_ (mode_ w)) = Some pool'
    end.
Proof.
  rewrite pool_by_key. intros Hfirst.
  destruct (pool_key device_option w) as [e|[[r dt] id]] eqn:Hkey; [done|].
  destruct (poolGetter_returns _ _ _ _ _ _ _ Hfirst) as (Hm & HF & Hn & Hat & _).
  assert (Hkey' : pool_key device_option w' = inr (r, dt, id)).
  { rewrite <- Hkey. unfold pool_key. by rewrite Hm, HF. }
  split; [|split].
  - rewrite pool_by_key, Hkey', Hn. by apply poolGetter_hit.
  - intros create. rewrite (pool_by_key (P := with_registry create P)).
    change (pool_key (P := with_registry create P) device_option w')
      with (pool_key device_option w').
    rewrite Hkey', Hn. by apply (poolGetter_hit (P := with_registry create P)).
  - exists r, dt, id. split; [done|]. split; [done|].
    by apply poolGetter_origin.
Qed.

Section PoolDevices.
Context `{P : Platform}.

(** X7.  Without the single pool, [pool] checks the device id before it
    looks for a pool: a CPU family device pinned to a negative NUMA node,
    or to one at or beyond [max_numa_nodes], and a CUDA device whose id is
    not in [0, max_gpus), are refused with an exception and no pool is
    created.  A CPU family device without a device id is unpinned (node
    -1) and accepted. *)
Theorem pool_checks_device_id (device_option : DeviceOption) (w : AsyncNetBase) :
  use_single_pool_ (mode_ w) = false ->
  let id := device_id device_option in
  (device_type device_option ∈ cpu_types ->
   has_device_id device_option = true ->
   (id < 0 \/ FLAGS_caffe2_net_async_max_numa_nodes (FLAGS w) <= id)%Z ->
   pool device_option w
   = Throw (EnforceNotMet ("Invalid NUMA node id: " +:+ to_string id)) w) /\
  (device_type device_option ∈ cpu_types ->
   has_device_id device_option = false ->
   (0 <= FLAGS_caffe2_net_async_max_numa_nodes (FLAGS w))%Z ->
   pool device_option w = poolGetter the_cpu_pools PROTO_CPU (-1) (num_workers_ w) w) /\
  (device_type device_option ∉ cpu_types ->
   device_type device_option = PROTO_CUDA ->
   (id < 0 \/ FLAGS_caffe2_net_async_max_gpus (FLAGS w) <= id)%Z ->
   pool device_option w
   = Throw (EnforceNotMet ("Invalid GPU id: " +:+ to_string id)) w).
Proof.
  intros Hsingle id. rewrite pool_by_key. unfold pool_key, numa_node_of.
  rewrite Hsingle. fold id. split; [|split].
  - intros Hcpu Hhas Hbad. rewrite bool_decide_eq_true_2, Hhas by done. simpl.
    destruct Hbad as [Hneg|Hbig].
    + by assert ((id <? 0)%Z = true) as -> by (apply Z.ltb_lt; lia).
    + assert ((FLAGS_caffe2_net_async_max_numa_nodes (FLAGS w) <=? id)%Z = true) as ->
        by (apply Z.leb_le; lia).
      by rewrite orb_true_r.
  - intros Hcpu Hhas Hmax. rewrite bool_decide_eq_true_2, Hhas by done. simpl.
    by assert ((FLAGS_caffe2_net_async_max_numa_nodes (FLAGS w) <=? -1)%Z = false) as ->
      by (apply Z.leb_gt; lia).
  - intros Hcpu Hcuda Hbad. rewrite bool_decide_eq_false_2 by done.
    rewrite Hcuda, Z.eqb_refl.
    destruct Hbad as [Hneg|Hbig].
    + by assert ((0 <=? id)%Z = false) as -> by (apply Z.leb_gt; lia).
    + assert ((id <? FLAGS_caffe2_net_async_max_gpus (FLAGS w))%Z = false) as ->
        by (apply Z.ltb_ge; lia).
      by rewrite andb_false_r.
Qed.

(** X8.  The devices of the CPU family share their pools: whatever the
    device type within the family, [pool] looks a pool up, and creates it,
    as a CPU pool under the NUMA node of the device option. *)
Theorem pool_cpu_family_shares_pools (d1 d2 : DeviceOption) (w : AsyncNetBase) :
  device_type d1 ∈ cpu_types ->
  device_type d2 ∈ cpu_types ->
  has_device_id d1 = has_device_id d2 ->
  device_id d1 = device_id d2 ->
  pool d1 w = pool d2 w.
Proof.
  intros H1 H2 Hhas Hid. rewrite !pool_by_key. unfold pool_key, numa_node_of.
  by rewrite !bool_decide_eq_true_2, Hhas, Hid by done.
Qed.

End PoolDevices.

Lemma pool_returns_cached_pool_witness :
  exists w',
    pool (P := demo) (cpu_device 3) three_chains = Val (Some numa3_pool) w' /\
    pool_at (cpu_pools_ three_chains) 3 4 = None /\
    pool_at (cpu_pools_ w') 3 4 = Some numa3_pool /\
    pool (P := demo) (cpu_device 3) w' = Val (Some numa3_pool) w' /\
    pool (P := with_registry (fun _ _ _ _ => None) demo) (cpu_device 3) w'
    = Val (Some numa3_pool) w' /\
    pool (P := with_registry (fun _ _ _ _ => None) demo) (cpu_device 3) three_chains
    = Val None three_chains.
Proof.
  eexists.
  assert (Hfirst : pool (P := demo) (cpu_device 3) three_chains = Val (Some numa3_pool) _)
    by (vm_compute; reflexivity).
  destruct (pool_returns_cached_pool (P := demo) (cpu_device 3) three_chains _ numa3_pool
              Hfirst) as (Hagain & Hany & _).
  split; [exact Hfirst|]. split; [reflexivity|]. split; [reflexivity|].
  split; [exact Hagain|]. split; [exact (Hany (fun _ _ _ _ => None))|].
  vm_compute. reflexivity.
Defined.

Lemma pool_checks_device_id_witness :
  pool (P := demo) (cpu_device (-1)) three_chains
  = Throw (EnforceNotMet "Invalid NUMA node id: -1") three_chains.
Proof.
  refine (proj1 (pool_checks_device_id (P := demo) (cpu_device (-1)) three_chains eq_refl)
            _ eq_refl _).
  - apply (bool_decide_eq_true_1 (0%Z ∈ cpu_types (P := demo))). reflexivity.
  - left. simpl. lia.
Defined.

Lemma pool_cpu_family_shares_pools_witness :
  pool (P := demo) (mkldnn_device 3) three_chains
  = pool (P := demo) (cpu_device 3) three_chains.
Proof.
  apply (pool_cpu_family_shares_pools (P := demo)); try reflexivity.
  - apply (bool_decide_eq_true_1 (2%Z ∈ cpu_types (P := demo))). reflexivity.
  - apply (bool_decide_eq_true_1 (0%Z ∈ cpu_types (P := demo))). reflexivity.
Defined.

(** *** The stream counters *)

Lemma grown_length gpu_id counters :
  length (grown gpu_id counters) = length counters `max` S gpu_id.
Proof.
  unfold grown. case_decide; [rewrite length_resize|]; lia.
Qed.

Lemma grown_lookup_old gpu_id counters g :
  g < length counters -> grown gpu_id counters !! g = counters !! g.
Proof.
  intros Hlt. unfold grown. case_decide; [|done]. apply lookup_resize; lia.
Qed.

Lemma grown_lookup_new gpu_id counters g :
  length counters <= g <= gpu_id -> grown gpu_id counters !! g = Some 0%Z.
Proof.
  intros Hg. unfold grown. rewrite decide_True by lia. apply lookup_resize_new; lia.
Qed.

Section StreamCounters.
Context `{P : Platform}.

Lemma next_stream_state gpu_id w :
  match next_stream gpu_id w with
  | Val stream_id w' =>
      exists c, w' = set_stream_counters (<[gpu_id := c]> (stream_counters_ w)) w
  | Throw _ w' => w' = w
  | Undefined | Diverges => True
  end.
Proof.
  unfold next_stream, getStreamCounters, at_, bind, get, ret, throw, undefined, modify.
  destruct (stream_counters_ w !! gpu_id) as [c|]; [|done].
  destruct (c <? INT_MAX)%Z; [|done].
  destruct (streams_per_gpu_ (mode_ w) =? 0)%Z; [done|]. eauto.
Qed.

Lemma isStreamFree_state task_id stream_id w :
  match isStreamFree task_id stream_id w with
  | Val _ w' => w' = set_stream_polls (S (stream_polls w)) w
  | Throw _ _ => False
  | Undefined | Diverges => True
  end.
Proof.
  unfold isStreamFree, chain, operator, back, index, bind, get, ret, undefined, modify.
  destruct (chains_ w !! task_id) as [c|]; [|done].
  destruct (last c) as [t|]; [|done].
  by destruct (operators_ w !! t).
Qed.

Lemma stream_loop_others fuel task_id gpu_id : forall w w',
  state_after (stream_loop fuel task_id gpu_id w) = Some w' ->
  other_counters_kept gpu_id w w' /\ operators_ w' = operators_ w /\
  operator_nodes_ w' = operator_nodes_ w.
Proof.
  induction fuel as [|fuel IH]; intros w w'; simpl; [done|].
  unfold bind at 1. pose proof (next_stream_state gpu_id w) as Hnext.
  destruct (next_stream gpu_id w) as [s w1|e w1| |]; try done.
  - destruct Hnext as (c & ->).
    set (w1 := set_stream_counters _ w).
    assert (H1 : other_counters_kept gpu_id w w1).
    { split; simpl; [apply length_insert|]. intros g Hg. by apply list_lookup_insert_ne. }
    unfold bind at 1, get at 1.
    destruct (check_stream_status_ (mode_ w1)).
    + unfold bind at 1. pose proof (isStreamFree_state task_id s w1) as Hfree.
      destruct (isStreamFree task_id s w1) as [free w2|e w2| |]; try done.
      subst w2. destruct free; simpl.
      * intros [= <-]. done.
      * intros Hrest. destruct (IH _ _ Hrest) as ([Hlen Hothers] & Hops & Hnodes).
        destruct H1 as [Hlen1 Hothers1]. simpl in *.
        repeat split; try congruence. intros g Hg. rewrite Hothers by done. auto.
    + intros [= <-]. done.
  - simpl. intros [= <-]. subst w1. by repeat split.
Qed.

(** X9.  [stream] refuses a CUDA task with a negative device id and
    then changes nothing.  Otherwise it makes the thread's vector of
    counters long enough for the device id, filling with zeros, and
    advances the counter of that device only: the counters of the other
    GPUs are as they were, and neither operators nor nodes are touched. *)
Theorem stream_keeps_other_gpus (w : AsyncNetBase) (task_id : nat)
    (ch : list nat) (t : nat) (o : OperatorBase) (fuel : nat) :
  chains_ w !! task_id = Some ch -> last ch = Some t ->
  operators_ w !! t = Some o ->
  device_type (Event_GetDeviceOption (op_event o)) = PROTO_CUDA ->
  let id := device_id (Event_GetDeviceOption (op_event o)) in
  ((id < 0)%Z ->
   stream fuel task_id w
   = Throw (EnforceNotMet ("Invalid gpu id: " +:+ to_string id)) w) /\
  ((0 <= id)%Z ->
   forall w', state_after (stream fuel task_id w) = Some w' ->
     length (stream_counters_ w') = length (stream_counters_ w) `max` S (Z.to_nat id) /\
     (forall g, g <> Z.to_nat id -> g < length (stream_counters_ w) ->
        stream_counters_ w' !! g = stream_counters_ w !! g) /\
     (forall g, length (stream_counters_ w) <= g < Z.to_nat id ->
        stream_counters_ w' !! g = Some 0%Z) /\
     operators_ w' = operators_ w /\ operator_nodes_ w' = operator_nodes_ w).
Proof.
  intros Hch Hl Ho Hcuda id. split.
  - intros Hneg. unfold stream, read_event.
    rewrite (bind_val _ _ _ _ _ (event_val _ _ _ _ _ Hch Hl Ho)).
    unfold bind at 1. rewrite (bind_val _ _ _ _ _ (operator_val _ _ _ Ho)).
    unfold ret at 1. rewrite Hcuda, Z.eqb_refl. fold id.
    unfold bind at 1, CAFFE_ENFORCE.
    by assert ((0 <=? id)%Z = false) as -> by (apply Z.leb_gt; lia).
  - intros Hid w'.
    rewrite (stream_enters_loop _ _ _ _ _ _ Hch Hl Ho Hcuda Hid). fold id.
    intros Hafter.
    destruct (stream_loop_others _ _ _ _ _ Hafter) as ([Hlen Hothers] & Hops & Hnodes).
    simpl in Hlen, Hothers, Hops, Hnodes.
    unfold id, Event_GetDeviceOption in *.
    split; [by rewrite Hlen, grown_length|].
    split; [intros g Hg Hlt; rewrite Hothers by done; by apply grown_lookup_old|].
    split; [|done].
    intros g Hg. rewrite Hothers by lia. apply grown_lookup_new. lia.
Qed.

End StreamCounters.

Lemma stream_keeps_other_gpus_witness :
  stream (P := demo) 1 0 bad_gpu_net
  = Throw (EnforceNotMet "Invalid gpu id: -2") bad_gpu_net /\
  forall w', state_after (stream (P := demo) 1 0 gpu3_net) = Some w' ->
    length (stream_counters_ w') = 4 /\
    (forall g, g <> 3 -> g < 2 -> stream_counters_ w' !! g = [1%Z; 0%Z] !! g) /\
    (forall g, 2 <= g < 3 -> stream_counters_ w' !! g = Some 0%Z) /\
    operators_ w' = operators_ gpu3_net /\ operator_nodes_ w' = operator_nodes_ gpu3_net.
Proof.
  split.
  - exact (proj1 (stream_keeps_other_gpus (P := demo) bad_gpu_net 0 [0] 0
                    (demo_op "K" true 1 (-2) EVENT_INITIALIZED) 1
                    eq_refl eq_refl eq_refl eq_refl) ltac:(simpl; lia)).
  - exact (proj2 (stream_keeps_other_gpus (P := demo) gpu3_net 0 [0] 0
                    (demo_op "K" true 1 3 EVENT_INITIALIZED) 1
                    eq_refl eq_refl eq_refl eq_refl) ltac:(simpl; lia)).
Defined.

(** *** The queries *)

Lemma ro_ret {A} (a : A) : read_only (ret a).
Proof. by intros w w' [= <-]. Qed.

Lemma ro_get {A} (f : AsyncNetBase -> A) : read_only (get f).
Proof. by intros w w' [= <-]. Qed.

Lemma ro_throw {A} e : read_only (throw (A := A) e).
Proof. by intros w w' [= <-]. Qed.

Lemma ro_undefined {A} : read_only (undefined (A := A)).
Proof. by intros w w' [=]. Qed.

Lemma ro_index {A} (v : list A) i : read_only (index v i).
Proof. unfold index. destruct (v !! i); [apply ro_ret|apply ro_undefined]. Qed.

Lemma ro_at {A} (v : list A) i : read_only (at_ v i).
Proof. unfold at_. destruct (v !! i); [apply ro_ret|apply ro_throw]. Qed.

Lemma ro_front {A} (v : list A) : read_only (front v).
Proof. unfold front. destruct (head v); [apply ro_ret|apply ro_undefined]. Qed.

Lemma ro_back {A} (v : list A) : read_only (back v).
Proof. unfold back. destruct (last v); [apply ro_ret|apply ro_undefined]. Qed.

Lemma ro_bind {A B} (m : M A) (k : A -> M B) :
  read_only m -> (forall a, read_only (k a)) -> read_only (bind m k).
Proof.
  intros Hm Hk w w'. unfold bind.
  destruct (m w) as [a w1|e w1| |] eqn:Hmw; try done.
  - intros Hk'. rewrite (Hm w w1) in Hk' by (by rewrite Hmw). by apply (Hk a).
  - intros [= <-]. apply Hm. by rewrite Hmw.
Qed.

Create HintDb read_only discriminated.

#[export] Hint Resolve ro_ret ro_get ro_throw ro_undefined ro_index ro_at ro_front
  ro_back : read_only.

Ltac read_only :=
  repeat first
    [ progress intros
    | progress cbv zeta
    | solve [ auto with read_only ]
    | apply ro_bind
    | match goal with
      | |- read_only (if ?b then _ else _) => destruct b
      | |- read_only (match ?x with _ => _ end) => destruct x
      end ].

Section Queries.
Context `{P : Platform}.

Lemma ro_canSchedule_parents first status parent_failed parent_ids :
  read_only (canSchedule_parents first status parent_failed parent_ids).
Proof.
  induction parent_ids as [|p ps IH]; simpl; [apply ro_ret|].
  unfold chain, operator. read_only.
Qed.

(** X10.  The queries of the net change nothing, whether they return or
    throw: the two forms of [canSchedule], [query], [event], [parents],
    [children], [getParentCount], [numOps], [firstTaskOpId],
    [lastTaskOpId], [tasksNum] and [handleRunError] leave the state as
    they found it. *)
Theorem queries_change_nothing :
  (forall task_id status parent_failed,
     read_only (canSchedule task_id status parent_failed)) /\
  (forall parent_id child_id, read_only (canSchedule_pair parent_id child_id)) /\
  (forall task_id, read_only (query task_id)) /\
  (forall task_id, read_only (event task_id)) /\
  (forall task_id, read_only (parents task_id)) /\
  (forall task_id, read_only (children task_id)) /\
  (forall child_id, read_only (getParentCount child_id)) /\
  (forall task_id, read_only (numOps task_id)) /\
  (forall task_id, read_only (firstTaskOpId task_id)) /\
  (forall task_id, read_only (lastTaskOpId task_id)) /\
  read_only tasksNum /\
  read_only handleRunError.
Proof.
  repeat split.
  - intros. unfold canSchedule, chain, parents. read_only.
    apply ro_canSchedule_parents.
  - intros. unfold canSchedule_pair, event, read_event, chain, operator. read_only.
  - intros. unfold query, event, read_event, chain, operator. read_only.
  - intros. unfold event, chain, operator. read_only.
  - intros. unfold parents. read_only.
  - intros. unfold children. read_only.
  - intros. unfold getParentCount, chain. read_only.
  - intros. unfold numOps, chain. read_only.
  - intros. unfold firstTaskOpId, chain. read_only.
  - intros. unfold lastTaskOpId, chain. read_only.
  - unfold tasksNum. read_only.
  - unfold handleRunError. read_only.
Qed.

End Queries.

(** *** canSchedule over a snapshot *)

Section Snapshot.
Context `{P : Platform}.

Lemma canSchedule_parents_step_snapshot w fc co pf parent_id rest pc tp po statuses :
  operators_ w !! fc = Some co ->
  chains_ w !! parent_id = Some pc -> last pc = Some tp ->
  operators_ w !! tp = Some po ->
  canSchedule_parents fc (Some statuses) pf (parent_id :: rest) w
  = match statuses !! parent_id with
    | None => Throw (std_exception "out_of_range") w
    | Some st =>
        if bool_decide (st = EVENT_FAILED) then Val (false, raised pf) w
        else if Event_CanSchedule (event_type (op_event po)) st
                  (event_type (op_event co)) (op_supports_async_scheduling co)
             then canSchedule_parents fc (Some statuses) pf rest w
             else Val (false, pf) w
    end.
Proof.
  intros Hco Hpc Hl Hpo. simpl.
  rewrite (bind_val _ _ _ _ _ (chain_val _ _ _ Hpc)).
  rewrite (bind_val _ _ _ _ _ (back_val _ _ _ Hl)).
  unfold bind at 1, at_. destruct (statuses !! parent_id) as [st|]; [|done].
  unfold ret at 1. unfold Event_GetType.
  case_bool_decide; [done|].
  rewrite (bind_val _ _ _ _ _ (operator_val _ _ _ Hpo)).
  rewrite (bind_val _ _ _ _ _ (operator_val _ _ _ Hco)).
  by destruct (Event_CanSchedule _ _ _ _).
Qed.

Lemma canSchedule_parents_snapshot w fc co pf statuses :
  well_formed w -> operators_ w !! fc = Some co ->
  forall ps, Forall (fun p => p < length (chains_ w)) ps ->
  (forall p, p ∈ ps -> statuses !! p = status_of w p) ->
  canSchedule_parents fc (Some statuses) pf ps w
  = canSchedule_parents fc None pf ps w.
Proof.
  intros Hwf Hco. induction ps as [|p ps IH]; intros Hall Hsnap; [done|].
  inversion Hall as [|? ? Hlt Hall']; subst.
  destruct (wf_tail _ _ Hwf Hlt) as (pc & tp & po & Hpc & Hl & Hpo).
  rewrite (canSchedule_parents_step_snapshot _ _ _ _ _ _ _ _ _ _ Hco Hpc Hl Hpo).
  rewrite (canSchedule_parents_step _ _ _ _ _ _ _ _ _ Hco Hpc Hl Hpo).
  rewrite (Hsnap p (list_elem_of_here _ _)), (status_of_val _ _ _ _ _ Hpc Hl Hpo).
  rewrite IH; [done|done|].
  intros q Hq. apply Hsnap. apply elem_of_cons. by right.
Qed.

(** X11.  The batch form of [canSchedule] decides from the snapshot it is
    given: with a snapshot that holds, for every parent of the task, the
    status the event of the parent has, it returns what the check over the
    live statuses returns, and sets [parent_failed] alike.  A snapshot
    that is too short for the first parent makes it throw
    [std::out_of_range]. *)
Theorem canSchedule_snapshot (w : AsyncNetBase) (task_id : nat) (node : ChainNode)
    (statuses : list EventStatus) (parent_failed : option bool) :
  well_formed w ->
  task_id < length (chains_ w) ->
  chain_nodes_ w !! task_id = Some node ->
  ((forall p, p ∈ parents_ node -> statuses !! p = status_of w p) ->
   canSchedule task_id (Some statuses) parent_failed w
   = canSchedule task_id None parent_failed w) /\
  (forall p rest, parents_ node = p :: rest -> statuses !! p = None ->
   canSchedule task_id (Some statuses) parent_failed w
   = Throw (std_exception "out_of_range") w).
Proof.
  intros Hwf Hlt Hnode.
  destruct (wf_chain _ _ Hwf Hlt) as (cc & fc & l & Hcc & Hh & _ & Hflt & _).
  destruct (lookup_lt_is_Some_2 _ _ Hflt) as [co Hco].
  assert (Hps : Forall (fun p => p < length (chains_ w)) (parents_ node)).
  { destruct Hwf as [_ _ _ Hp]. by apply (Forall_lookup_1 _ _ _ _ Hp Hnode). }
  assert (Henter : forall status,
    canSchedule task_id status parent_failed w
    = canSchedule_parents fc status parent_failed (parents_ node) w).
  { intros status. unfold canSchedule.
    rewrite (bind_val _ _ _ _ _ (chain_val _ _ _ Hcc)).
    rewrite (bind_val _ _ _ _ _ (front_val _ _ _ Hh)).
    unfold parents. unfold bind at 1. unfold bind at 1, get at 1.
    by rewrite (bind_val _ _ _ _ _ (index_val _ _ _ _ Hnode)). }
  split.
  - intros Hsnap. rewrite !Henter. by apply (canSchedule_parents_snapshot _ _ co).
  - intros p rest Hparents Hshort. rewrite Henter, Hparents.
    assert (Hplt : p < length (chains_ w)).
    { rewrite Hparents in Hps. by inversion Hps. }
    destruct (wf_tail _ _ Hwf Hplt) as (pc & tp & po & Hpc & Hl & Hpo).
    rewrite (canSchedule_parents_step_snapshot _ _ _ _ _ _ _ _ _ _ Hco Hpc Hl Hpo).
    by rewrite Hshort.
Qed.

End Snapshot.

Lemma canSchedule_snapshot_witness :
  canSchedule (P := demo) 2 (Some [EVENT_INITIALIZED; EVENT_FAILED]) (Some false) fan_in
  = canSchedule (P := demo) 2 None (Some false) fan_in.
Proof.
  refine (proj1 (canSchedule_snapshot (P := demo) fan_in 2
                   {| children_ := []; parents_ := [0; 1] |}
                   [EVENT_INITIALIZED; EVENT_FAILED] (Some false) _ _ eq_refl) _).
  - solve_wf.
  - simpl. lia.
  - intros p Hp. simpl in Hp.
    apply elem_of_cons in Hp as [->|Hp]; [reflexivity|].
    apply elem_of_cons in Hp as [->|Hp]; [reflexivity|].
    by apply elem_of_nil in Hp.
Defined.

(** *** The outcome of run *)

#[global] Instance slot_untouched_frame : FrameRel slot_untouched.
Proof.
  split; [split|].
  - intros w. by split.
  - intros w1 w2 w3 [Hs1 Hc1] [Hs2 Hc2]. split; congruence.
  - intros ops w. by split.
Qed.

#[global] Instance counters_kept_frame : FrameRel counters_kept.
Proof.
  split; [split|].
  - intros w. by split.
  - intros w1 w2 w3 [Hs1 Hc1] [Hs2 Hc2]. split; congruence.
  - intros ops w. by split.
Qed.

#[global] Instance profile_off_frame : FrameRel profile_off.
Proof.
  split; [split|].
  - intros w. by split.
  - intros w1 w2 w3 [Hm1 Hc1] [Hm2 Hc2]. split; [congruence|].
    intros Hoff. rewrite Hc2, Hc1; [done|done|congruence].
  - intros ops w. by split.
Qed.

Lemma ensures_bind {A B} (m : M A) (k : A -> M B) Q :
  (forall a, ensures (k a) Q) -> ensures (bind m k) Q.
Proof.
  intros Hk w b w'. unfold bind. destruct (m w) as [a w1| | |]; try done. apply Hk.
Qed.

Lemma ensures_guarded {A B} (m : M A) (h : exception -> M B) (k : A -> M B) Q :
  (forall e, ensures (h e) Q) -> (forall a, ensures (k a) Q) ->
  ensures (guarded m h k) Q.
Proof.
  intros Hh Hk w b w'. unfold guarded.
  destruct (m w) as [a w1|e w1| |]; try done; [apply Hk|apply Hh].
Qed.

Lemma Event_Finish_terminal completion e :
  terminal (event_status (Event_Finish completion e)) = true.
Proof.
  unfold Event_Finish. destruct (terminal (event_status e)) eqn:Ht; [done|].
  by destruct completion.
Qed.

Section RunOutcome.
Context `{P : Platform}.

Lemma setTaskErrorMessage_marks task_id err_msg w w' :
  setTaskErrorMessage task_id err_msg w = Val tt w' -> marked task_id w'.
Proof.
  intros Hset.
  destruct (chains_ w !! task_id) as [ch|] eqn:Hch; cycle 1.
  { exfalso. revert Hset.
    unfold setTaskErrorMessage, query, event, chain, bind, get, index.
    by rewrite Hch. }
  destruct (last ch) as [t|] eqn:Hl; cycle 1.
  { exfalso. revert Hset.
    unfold setTaskErrorMessage, query, event, chain, bind, get, index, ret, back.
    rewrite Hch. by rewrite Hl. }
  destruct (operators_ w !! t) as [ot|] eqn:Hot; cycle 1.
  { exfalso. revert Hset.
    unfold setTaskErrorMessage, query, event, chain, operator, bind, get, index,
      ret, back.
    rewrite Hch. simpl. rewrite Hl. simpl. by rewrite Hot. }
  rewrite (setTaskErrorMessage_val _ _ _ _ _ _ Hch Hl Hot) in Hset.
  injection Hset as <-.
  unfold marked, status_of, tail_event, tail_op.
  rewrite error_message_set_chains, Hch. simpl. rewrite Hl. simpl.
  rewrite (error_message_set_event _ _ _ _ Hot). simpl.
  case_bool_decide; eexists; (split; [reflexivity|done]).
Qed.

Lemma run_catch_outcome task_id op e :
  ensures (run_catch task_id op e) (fun b w' => b = false /\ marked task_id w').
Proof.
  unfold run_catch. apply ensures_bind. intros _. cbv zeta.
  apply ensures_bind. intros msg.
  intros w b w'. unfold bind.
  destruct (setTaskErrorMessage task_id msg w) as [[] w1| | |] eqn:Hset; try done.
  intros [= <- <-]. split; [done|]. by apply (setTaskErrorMessage_marks _ msg w).
Qed.

Lemma run_catch_not_true task_id op e w w' :
  run_catch task_id op e w <> Val true w'.
Proof. intros H. by destruct (run_catch_outcome _ _ _ _ _ _ H). Qed.

Lemma report_failed_op_marks task_id op_id w w' :
  report_failed_op task_id op_id w = Val tt w' -> marked task_id w'.
Proof.
  unfold report_failed_op, bind.
  destruct (operator op_id w) as [o w1| | |]; try done.
  apply setTaskErrorMessage_marks.
Qed.

Lemma run_ops_marks task_id stream_id after :
  ensures after (fun b w' => b = false -> marked task_id w') ->
  forall op_ids,
  ensures (run_ops task_id stream_id op_ids after)
          (fun b w' => b = false -> marked task_id w').
Proof.
  intros Hafter. induction op_ids as [|i op_ids IH]; [done|].
  simpl. apply ensures_guarded.
  - intros e w b w' Hc _. by destruct (run_catch_outcome _ _ _ _ _ _ Hc).
  - intros [].
    + change (negb true) with false. cbv beta iota. apply IH.
    + change (negb false) with true. cbv beta iota.
      intros w b w'. unfold guarded.
      destruct (report_failed_op task_id i w) as [[] w1|e w1| |] eqn:Hr; try done.
      * intros [= <- <-] _. by apply (report_failed_op_marks _ i w).
      * intros Hc _. by destruct (run_catch_outcome _ _ _ _ _ _ Hc).
Qed.

Lemma run_marks task_id stream_id :
  ensures (run task_id stream_id) (fun b w' => b = false -> marked task_id w').
Proof.
  assert (Hcatch : forall op e,
    ensures (run_catch task_id op e) (fun b w' => b = false -> marked task_id w')).
  { intros op e w b w' Hc _. by destruct (run_catch_outcome _ _ _ _ _ _ Hc). }
  unfold run. apply ensures_guarded; [apply Hcatch|]. intros _.
  apply ensures_guarded; [apply Hcatch|]. intros op_ids.
  apply run_ops_marks. apply ensures_guarded; [apply Hcatch|].
  intros _ w b w' [= <- <-]. done.
Qed.

Lemma run_ops_true task_id stream_id after : forall op_ids w w',
  run_ops task_id stream_id op_ids after w = Val true w' ->
  exists w1, ops_succeed stream_id op_ids w = Some w1 /\ after w1 = Val true w'.
Proof.
  induction op_ids as [|i op_ids IH]; intros w w'; simpl.
  - intros H. by exists w.
  - unfold guarded at 1.
    destruct (run_op i stream_id w) as [[] w1|e w1| |] eqn:Hrun; try done.
    + change (negb true) with false. cbv beta iota. apply IH.
    + change (negb false) with true. cbv beta iota. unfold guarded.
      destruct (report_failed_op task_id i w1) as [[] w2|e w2| |]; try done.
      intros H. by apply run_catch_not_true in H.
    + intros H. by apply run_catch_not_true in H.
Qed.

Lemma run_true_inv w task_id stream_id ch w' :
  chains_ w !! task_id = Some ch ->
  run task_id stream_id w = Val true w' ->
  exists w0 w1,
    run_wait task_id stream_id w = Val tt w0 /\
    ops_succeed stream_id ch w0 = Some w1 /\
    run_finish task_id w1 = Val tt w'.
Proof.
  intros Hch. unfold run. unfold guarded at 1.
  destruct (run_wait task_id stream_id w) as [[] w0|e w0| |] eqn:Hwait; try done.
  - destruct (plan_run_wait task_id stream_id w w0) as (Hchains & _ & _);
      [by rewrite Hwait|].
    unfold guarded at 1. rewrite (chain_val w0 task_id ch) by congruence.
    intros H. apply run_ops_true in H as (w1 & Hops & Hafter).
    exists w0, w1. split; [done|]. split; [done|].
    revert Hafter. unfold guarded.
    destruct (run_finish task_id w1) as [[] w2|e w2| |]; try done.
    + by intros [= <-].
    + intros H. by apply run_catch_not_true in H.
  - intros H. by apply run_catch_not_true in H.
Qed.

Lemma run_true_intro w task_id stream_id ch w0 w1 w' :
  chains_ w !! task_id = Some ch ->
  run_wait task_id stream_id w = Val tt w0 ->
  ops_succeed stream_id ch w0 = Some w1 ->
  run_finish task_id w1 = Val tt w' ->
  run task_id stream_id w = Val true w'.
Proof.
  intros Hch Hwait Hops Hfinish.
  rewrite (run_enters_loop _ _ _ _ _ Hch Hwait).
  pose proof (run_ops_succeed task_id stream_id ch []
                (guarded (run_finish task_id) (run_catch task_id None)
                   (fun _ => ret true)) w0 w1 Hops) as Hloop.
  rewrite app_nil_r in Hloop. rewrite Hloop. simpl. unfold guarded.
  by rewrite Hfinish.
Qed.

Lemma frame_ops_succeed (R : relation AsyncNetBase) `{!FrameRel R} stream_id :
  (forall i, preserves R (run_op i stream_id)) ->
  forall op_ids w w', ops_succeed stream_id op_ids w = Some w' -> R w w'.
Proof.
  intros Hop. induction op_ids as [|i op_ids IH]; intros w w'; simpl.
  - intros [= <-]. reflexivity.
  - destruct (run_op i stream_id w) as [[] w1| | |] eqn:Hrun; try done.
    intros Hrest. transitivity w1; [|by apply IH].
    apply (Hop i w w1). by rewrite Hrun.
Qed.

Section FrameRun.
Context (R : relation AsyncNetBase) `{!FrameRel R}.

Lemma frame_events_of task_ids : preserves R (events_of task_ids).
Proof. induction task_ids; simpl; keeps. Qed.

Hint Resolve frame_events_of : keeps.

Lemma frame_run_wait task_id stream_id : preserves R (run_wait task_id stream_id).
Proof. unfold run_wait, parents, asyncWait. keeps. Qed.

Lemma frame_run_finish task_id : preserves R (run_finish task_id).
Proof. unfold run_finish, update_operator. keeps. Qed.

Lemma frame_setTaskErrorMessage task_id err_msg :
  preserves R (setTaskErrorMessage task_id err_msg).
Proof. unfold setTaskErrorMessage, update_operator. keeps. Qed.

End FrameRun.

Lemma untouched_run_op op_id stream_id :
  preserves slot_untouched (run_op op_id stream_id).
Proof. unfold run_op, AddPerOpStartTime, AddPerOpEndTime. keeps. Qed.

(** X12.  [run] returns [true] exactly when the wait for the parents
    returns, every operator of the chain, run in chain order, returns
    [true], and the closing [Finish] of the event returns; the state it
    leaves is the one those steps leave, with [success_] and the captured
    exception as they were before the call. *)
Theorem run_true_iff (w : AsyncNetBase) (task_id : nat) (stream_id : Z)
    (ch : list nat) (w' : AsyncNetBase) :
  chains_ w !! task_id = Some ch ->
  (run task_id stream_id w = Val true w' <->
   exists w0 w1,
     run_wait task_id stream_id w = Val tt w0 /\
     ops_succeed stream_id ch w0 = Some w1 /\
     run_finish task_id w1 = Val tt w') /\
  (run task_id stream_id w = Val true w' -> slot_untouched w w').
Proof.
  intros Hch. split; [split|].
  - by apply run_true_inv.
  - intros (w0 & w1 & Hwait & Hops & Hfinish). by apply (run_true_intro _ _ _ ch w0 w1).
  - intros Hrun.
    destruct (run_true_inv _ _ _ _ _ Hch Hrun) as (w0 & w1 & Hwait & Hops & Hfinish).
    transitivity w0; [|transitivity w1].
    + apply (frame_run_wait slot_untouched task_id stream_id). by rewrite Hwait.
    + apply (frame_ops_succeed slot_untouched stream_id
               (fun i => untouched_run_op i stream_id) ch _ _ Hops).
    + apply (frame_run_finish slot_untouched task_id). by rewrite Hfinish.
Qed.

(** X13.  When [run] returns [false], the event of the task has left
    INITIALIZED: whichever way the chain failed, the error message was
    set on an event that was still INITIALIZED, and an event in another
    state is not INITIALIZED to begin with. *)
Theorem run_false_marks_event (w : AsyncNetBase) (task_id : nat) (stream_id : Z)
    (w' : AsyncNetBase) :
  run task_id stream_id w = Val false w' ->
  exists st, status_of w' task_id = Some st /\ st <> EVENT_INITIALIZED.
Proof. intros Hrun. by apply (run_marks task_id stream_id w false w'). Qed.

End RunOutcome.

Lemma run_true_iff_witness :
  exists w',
    run (P := demo) 0 0 working_chain = Val true w' /\
    slot_untouched working_chain w'.
Proof.
  eexists. split; [vm_compute; reflexivity|].
  apply (proj2 (run_true_iff (P := demo) working_chain 0 0 [0; 1; 2] _ eq_refl)).
  vm_compute. reflexivity.
Defined.

Lemma run_false_marks_event_witness :
  exists w' st,
    run (P := demo) 0 0 failing_chain = Val false w' /\
    status_of w' 0 = Some st /\ st <> EVENT_INITIALIZED.
Proof.
  eexists.
  assert (Hrun : run (P := demo) 0 0 failing_chain = Val false _)
    by (vm_compute; reflexivity).
  destruct (run_false_marks_event (P := demo) failing_chain 0 0 _ Hrun) as (st & Hst & Hne).
  exists st. split; [exact Hrun|]. by split.
Defined.

(** *** run in the finish-chain mode *)

Section FinishChain.
Context `{P : Platform}.

(** [run_finish] in the finish-chain mode is [Finish] on the event of
    the last operator of the chain. *)
Lemma run_finish_val task_id w w' :
  finish_chain_ (mode_ w) = true ->
  run_finish task_id w = Val tt w' ->
  exists ch t o,
    chains_ w !! task_id = Some ch /\ last ch = Some t /\
    operators_ w !! t = Some o /\
    w' = set_operators
           (alter (set_event (Event_Finish (Event_completion t))) t (operators_ w)) w.
Proof.
  intros Hfc.
  unfold run_finish, chain, operator, update_operator, bind, get, index, back,
    ret, modify.
  rewrite Hfc.
  destruct (chains_ w !! task_id) as [ch|] eqn:Hch; [|done]. simpl.
  destruct (last ch) as [t|] eqn:Hl; [|done]. simpl.
  destruct (operators_ w !! t) as [ot|] eqn:Hot; [|done]. simpl.
  intros [= <-]. by exists ch, t, ot.
Qed.

(** X14.  With [finish_chain_] set, [run] does not make the chain wait
    for the events of its parents, and it ends the chain by [Finish] on
    the event of the last operator.  When [run] returns [true], the
    operators of the chain have run in order on the state [run] was
    called on and have all returned [true], and the state [run] leaves is
    the one they left with [Finish] applied to the event of the last
    operator: that event is what [Finish] makes of the event the
    operators left, with the outcome the device reports, and it is
    terminal.  When [run] returns [false] the event has left
    INITIALIZED. *)
Theorem run_finish_chain (w : AsyncNetBase) (task_id : nat) (stream_id : Z)
    (b : bool) (w' : AsyncNetBase) :
  finish_chain_ (mode_ w) = true ->
  run task_id stream_id w = Val b w' ->
  run_wait task_id stream_id w = Val tt w /\
  (exists st, status_of w' task_id = Some st /\
     if b then terminal st = true else st <> EVENT_INITIALIZED) /\
  (b = true ->
   exists ch t w1 o1,
     chains_ w !! task_id = Some ch /\ last ch = Some t /\
     ops_succeed stream_id ch w = Some w1 /\
     operators_ w1 !! t = Some o1 /\
     w' = set_operators
            (alter (set_event (Event_Finish (Event_completion t))) t (operators_ w1)) w1 /\
     tail_event w' task_id
     = Some (Event_Finish (Event_completion t) (op_event o1))).
Proof.
  intros Hfc Hrun.
  assert (Hwait : run_wait task_id stream_id w = Val tt w).
  { unfold run_wait, bind, get. by rewrite Hfc. }
  split; [done|].
  assert (Htrue : b = true ->
    exists ch t w1 o1,
      chains_ w !! task_id = Some ch /\ last ch = Some t /\
      ops_succeed stream_id ch w = Some w1 /\
      operators_ w1 !! t = Some o1 /\
      w' = set_operators
             (alter (set_event (Event_Finish (Event_completion t))) t (operators_ w1)) w1 /\
      tail_event w' task_id
      = Some (Event_Finish (Event_completion t) (op_event o1))).
  { intros ->.
    destruct (chains_ w !! task_id) as [ch|] eqn:Hch; cycle 1.
    { exfalso. revert Hrun. unfold run. unfold guarded at 1. rewrite Hwait.
      unfold guarded at 1, chain, bind, get, index. by rewrite Hch. }
    destruct (run_true_inv _ _ _ _ _ Hch Hrun) as (w0 & w1 & Hwait' & Hops & Hfinish).
    assert (w0 = w) as -> by congruence.
    destruct (plan_ops_succeed _ _ _ _ Hops) as (Hchains & _ & Hmode).
    destruct (run_finish_val task_id w1 w') as (ch1 & t & o1 & Hch1 & Hl & Ho1 & Hw');
      [congruence|done|].
    assert (ch1 = ch) as -> by congruence.
    exists ch, t, w1, o1. repeat (split; [done|]).
    subst w'. unfold tail_event, tail_op, event_of. simpl.
    rewrite Hch1. simpl. rewrite Hl. simpl.
    rewrite list_lookup_alter, decide_True by done. by rewrite Ho1. }
  split; [|done]. destruct b.
  - destruct (Htrue eq_refl) as (ch & t & w1 & o1 & _ & _ & _ & _ & _ & Hev).
    unfold status_of. rewrite Hev. simpl.
    eexists. split; [reflexivity|]. apply Event_Finish_terminal.
  - by apply (run_marks task_id stream_id w false w').
Qed.

End FinishChain.

Lemma run_finish_chain_witness :
  exists w' w1 o1,
    run (P := async_platform) 0 0 dag_net = Val true w' /\
    run_wait (P := async_platform) 0 0 dag_net = Val tt dag_net /\
    ops_succeed (P := async_platform) 0 [0] dag_net = Some w1 /\
    operators_ w1 !! 0 = Some o1 /\
    event_status (op_event o1) = EVENT_SCHEDULED /\
    tail_event w' 0
    = Some (Event_Finish (Event_completion (Platform := async_platform) 0) (op_event o1)) /\
    status_of w' 0 = Some EVENT_FAILED /\
    event_err_msg <$> tail_event w' 0 = Some "device failure".
Proof.
  eexists.
  assert (Hrun : run (P := async_platform) 0 0 dag_net = Val true _)
    by (vm_compute; reflexivity).
  destruct (run_finish_chain (P := async_platform) dag_net 0 0 true _ eq_refl Hrun)
    as (Hwait & _ & Htrue).
  destruct (Htrue eq_refl) as (ch & t & w1 & o1 & Hch & Hl & Hops & Ho1 & _ & Hev).
  injection Hch as <-. injection Hl as <-.
  exists w1, o1. split; [exact Hrun|]. split; [exact Hwait|].
  split; [exact Hops|]. split; [exact Ho1|].
  split; [|split; [exact Hev|split; reflexivity]].
  vm_compute in Hops. injection Hops as <-.
  vm_compute in Ho1. injection Ho1 as <-. reflexivity.
Defined.

(** *** The profiling counters *)

Section Profiling.
Context `{P : Platform}.

Lemma run_op_marks op_id stream_id w :
  match run_op op_id stream_id w with
  | Val _ w' =>
      mode_ w' = mode_ w /\
      counters_ w' = counters_ w ++
        (if report_stats_ (mode_ w) then [start_mark op_id; end_mark op_id] else [])
  | Throw _ w' =>
      mode_ w' = mode_ w /\
      counters_ w' = counters_ w ++
        (if report_stats_ (mode_ w) then [start_mark op_id] else [])
  | Undefined | Diverges => True
  end.
Proof.
  unfold run_op, operator, AddPerOpStartTime, AddPerOpEndTime, bind, get, index,
    modify, call, ret.
  destruct (operators_ w !! op_id) as [o|]; [|done].
  destruct (report_stats_ (mode_ w)); simpl.
  - destruct (Operator_RunAsync op_id stream_id (operators_ w)) as [[] ops|e ops];
      simpl.
    + destruct (negb _); simpl.
      * destruct (Operator_Finish op_id ops); simpl;
          by rewrite <- ?app_assoc.
      * by rewrite <- app_assoc.
    + by rewrite <- app_assoc.
    + done.
  - destruct (Operator_RunAsync op_id stream_id (operators_ w)); simpl;
      by rewrite app_nil_r.
Qed.

Lemma profile_off_run_op op_id stream_id :
  preserves profile_off (run_op op_id stream_id).
Proof.
  intros w w'. pose proof (run_op_marks op_id stream_id w) as Hmarks.
  destruct (run_op op_id stream_id w) as [b w1|e w1| |]; try done;
    intros [= <-]; destruct Hmarks as [Hmode Hc]; (split; [done|]);
    intros Hoff; rewrite Hc, Hoff; apply app_nil_r.
Qed.

Lemma preserves_run_catch_counters task_id op e :
  preserves counters_kept (run_catch task_id op e).
Proof.
  unfold run_catch, storeExceptionPtr, setTaskErrorMessage, update_operator. keeps.
Qed.

Lemma profile_off_run_catch task_id op e :
  preserves profile_off (run_catch task_id op e).
Proof.
  unfold run_catch, storeExceptionPtr, setTaskErrorMessage, update_operator. keeps.
Qed.

Lemma profile_off_run_ops task_id stream_id after :
  preserves profile_off after ->
  forall op_ids, preserves profile_off (run_ops task_id stream_id op_ids after).
Proof.
  intros Hafter. induction op_ids as [|i op_ids IH]; [done|]. simpl.
  apply keeps_guarded; [apply _|apply profile_off_run_op|apply profile_off_run_catch|].
  intros []; [change (negb true) with false|change (negb false) with true];
    cbv beta iota; [done|].
  apply keeps_guarded; [apply _| |apply profile_off_run_catch|intros; apply keeps_ret; apply _].
  unfold report_failed_op. apply keeps_bind; [apply _| |intros; apply frame_setTaskErrorMessage; apply _].
  unfold operator. keeps.
Qed.

Lemma profile_off_run task_id stream_id :
  preserves profile_off (run task_id stream_id).
Proof.
  unfold run.
  apply keeps_guarded; [apply _|apply frame_run_wait; apply _|apply profile_off_run_catch|].
  intros _.
  apply keeps_guarded; [apply _|unfold chain; keeps|apply profile_off_run_catch|].
  intros op_ids. apply profile_off_run_ops.
  apply keeps_guarded; [apply _|apply frame_run_finish; apply _|apply profile_off_run_catch|].
  intros; apply keeps_ret; apply _.
Qed.

Lemma ops_succeed_marks stream_id : forall op_ids w w',
  ops_succeed stream_id op_ids w = Some w' ->
  mode_ w' = mode_ w /\
  counters_ w' = counters_ w ++
    (if report_stats_ (mode_ w) then marks_of op_ids else []).
Proof.
  induction op_ids as [|i op_ids IH]; intros w w'; simpl.
  - intros [= <-]. split; [done|]. destruct (report_stats_ (mode_ w)); by rewrite app_nil_r.
  - pose proof (run_op_marks i stream_id w) as Hmarks.
    destruct (run_op i stream_id w) as [[] w1| | |]; try done.
    intros Hrest. destruct Hmarks as [Hmode Hc].
    destruct (IH _ _ Hrest) as [Hmode' Hc'].
    split; [congruence|]. rewrite Hc', Hc, Hmode.
    destruct (report_stats_ (mode_ w)); [|by rewrite !app_nil_r].
    by rewrite <- app_assoc.
Qed.

(** X15.  The profiling counters follow [report_stats_].  Without it no
    call of [run], whatever its outcome, reaches the counters.  With it a
    [run] that returns [true] has called [AddPerOpStartTime] and
    [AddPerOpEndTime] once for each operator of the chain, in chain
    order and nothing else; an operator that throws has its start
    recorded and no end. *)
Theorem run_profiling_marks (w : AsyncNetBase) (task_id : nat) (stream_id : Z)
    (ch : list nat) :
  chains_ w !! task_id = Some ch ->
  (report_stats_ (mode_ w) = false ->
   forall w', state_after (run task_id stream_id w) = Some w' ->
     counters_ w' = counters_ w) /\
  (report_stats_ (mode_ w) = true ->
   forall w', run task_id stream_id w = Val true w' ->
     counters_ w' = counters_ w ++ marks_of ch) /\
  (report_stats_ (mode_ w) = true ->
   forall pre op_id post w0 w1 e w2 w',
     ch = pre ++ op_id :: post ->
     run_wait task_id stream_id w = Val tt w0 ->
     ops_succeed stream_id pre w0 = Some w1 ->
     run_op op_id stream_id w1 = Throw e w2 ->
     state_after (run task_id stream_id w) = Some w' ->
     counters_ w' = counters_ w ++ marks_of pre ++ [start_mark op_id]).
Proof.
  intros Hch. split; [|split].
  - intros Hoff w' Hrun.
    by destruct (profile_off_run task_id stream_id w w' Hrun) as [_ ->].
  - intros Hon w' Hrun.
    destruct (run_true_inv _ _ _ _ _ Hch Hrun) as (w0 & w1 & Hwait & Hops & Hfinish).
    destruct (frame_run_wait counters_kept task_id stream_id w w0) as [Hc0 Hm0];
      [by rewrite Hwait|].
    destruct (frame_run_finish counters_kept task_id w1 w') as [Hc1 Hm1];
      [by rewrite Hfinish|].
    destruct (ops_succeed_marks _ _ _ _ Hops) as [_ Hc].
    rewrite Hc1, Hc, Hc0, Hm0, Hon. done.
  - intros Hon pre op_id post w0 w1 e w2 w' -> Hwait Hops Hthrow Hrun.
    destruct (frame_run_wait counters_kept task_id stream_id w w0) as [Hc0 Hm0];
      [by rewrite Hwait|].
    destruct (ops_succeed_marks _ _ _ _ Hops) as [Hm1 Hc1].
    pose proof (run_op_marks op_id stream_id w1) as Hmarks.
    rewrite Hthrow in Hmarks. destruct Hmarks as [Hm2 Hc2].
    assert (Hcatch : run task_id stream_id w = run_catch task_id (Some op_id) e w2).
    { rewrite (run_enters_loop _ _ _ _ _ Hch Hwait).
      rewrite (run_ops_succeed _ _ _ _ _ _ _ Hops). simpl run_ops.
      unfold guarded at 1. by rewrite Hthrow. }
    rewrite Hcatch in Hrun.
    assert (Hkept : counters_kept w2 w').
    { revert Hrun. apply (preserves_run_catch_counters task_id (Some op_id) e). }
    destruct Hkept as [-> _].
    rewrite Hc2, Hc1, Hc0, Hm1, Hm0, Hon. by rewrite <- app_assoc.
Qed.

End Profiling.

Lemma run_profiling_marks_witness :
  (exists w',
     run (P := demo) 0 0 profiled_chain = Val true w' /\
     counters_ w' = counters_ profiled_chain ++ marks_of [0; 1; 2]) /\
  (exists w',
     state_after (run (P := demo) 0 0 profiled_throwing_chain) = Some w' /\
     counters_ w' = counters_ profiled_throwing_chain ++ marks_of [0] ++ [start_mark 1]).
Proof.
  split.
  - eexists. split; [vm_compute; reflexivity|].
    apply (proj1 (proj2 (run_profiling_marks (P := demo) profiled_chain 0 0 [0; 1; 2]
                           eq_refl)) eq_refl).
    vm_compute; reflexivity.
  - eexists. split; [vm_compute; reflexivity|].
    eapply (proj2 (proj2 (run_profiling_marks (P := demo) profiled_throwing_chain 0 0
                            [0; 1; 2] eq_refl)) eq_refl [0] 1 [2]);
      first [ reflexivity | vm_compute; reflexivity ].
Defined.

(** *** Finishing the events of tasks *)

Section TailEvents.
Context `{P : Platform}.

(** A loop whose body rewrites the event of the last operator of the
    task by [f], where doing so twice is as good as once. *)
Lemma tail_update_loop (f : nat -> Event -> Event) (body : nat -> M unit) :
  (forall op_id e, f op_id (f op_id e) = f op_id e) ->
  (forall w task_id c op_id o,
     chains_ w !! task_id = Some c -> last c = Some op_id ->
     operators_ w !! op_id = Some o ->
     body task_id w
     = Val tt (set_operators (alter (set_event (f op_id)) op_id (operators_ w)) w)) ->
  forall tasks w,
  well_formed w ->
  Forall (fun task_id => task_id < length (chains_ w)) tasks ->
  exists ops',
    for_each tasks body w = Val tt (set_operators ops' w) /\
    length ops' = length (operators_ w) /\
    (forall op_id, (exists task_id, task_id ∈ tasks /\ tail_op w task_id = Some op_id) ->
       ops' !! op_id = set_event (f op_id) <$> operators_ w !! op_id) /\
    (forall op_id, (forall task_id, task_id ∈ tasks -> tail_op w task_id <> Some op_id) ->
       ops' !! op_id = operators_ w !! op_id).
Proof.
  intros Hidemp Hbody.
  induction tasks as [|t tasks IH]; intros w Hwf Hall.
  - exists (operators_ w). simpl. unfold ret. rewrite set_operators_same.
    repeat split; try done.
    intros op_id (task_id & Hin & _). by apply elem_of_nil in Hin.
  - inversion Hall as [|? ? Hlt Hall']; subst.
    destruct (wf_tail _ _ Hwf Hlt) as (c & tl & o & Hc & Hl & Ho).
    pose proof (Hbody _ _ _ _ _ Hc Hl Ho) as Hstep.
    set (ops1 := alter (set_event (f tl)) tl (operators_ w)) in *.
    assert (Hlen1 : length ops1 = length (operators_ w)) by apply length_alter.
    destruct (IH (set_operators ops1 w)) as (ops' & Hrun & Hlen & Hin & Hout).
    { by apply well_formed_set_operators. }
    { done. }
    exists ops'. simpl for_each. rewrite (bind_val _ _ _ _ _ Hstep).
    rewrite Hrun, set_operators_twice. simpl in Hlen, Hin, Hout.
    assert (Htl : tail_op w t = Some tl).
    { unfold tail_op. by rewrite Hc. }
    split; [done|]. split; [congruence|]. split.
    + intros op_id (task_id & Hel & Htail).
      destruct (decide (Exists (fun task_id' => tail_op w task_id' = Some op_id) tasks))
        as [Hex|Hnex]; rewrite Exists_exists in *.
      * rewrite (Hin op_id Hex). unfold ops1. rewrite list_lookup_alter.
        case_decide; [|done]. subst op_id.
        destruct (operators_ w !! tl); simpl; [|done].
        unfold set_event; simpl. by rewrite Hidemp.
      * assert (task_id = t) as ->.
        { apply elem_of_cons in Hel as [->|Hel]; [done|].
          exfalso. apply Hnex. eauto. }
        assert (op_id = tl) as -> by congruence.
        rewrite Hout.
        -- unfold ops1. rewrite list_lookup_alter. by case_decide.
        -- intros task_id' Hel' Heq. apply Hnex. eauto.
    + intros op_id Hno.
      rewrite Hout.
      * unfold ops1. rewrite list_lookup_alter. case_decide; [|done].
        subst op_id. exfalso. eapply (Hno t); [apply elem_of_cons; by left|done].
      * intros task_id' Hel'. apply Hno. apply elem_of_cons. by right.
Qed.

Lemma Event_Finish_idemp completion e :
  Event_Finish completion (Event_Finish completion e) = Event_Finish completion e.
Proof.
  pose proof (Event_Finish_terminal completion e) as Ht.
  unfold Event_Finish at 1. by rewrite Ht.
Qed.

(** X16.  On a well-formed net [finishTasks] returns for any tasks of
    the net; afterwards the event of each of them is terminal (it went
    through [Finish]), an operator that ends none of them is as it was,
    and nothing but the operators has changed.  A task that is not of the
    net is undefined behaviour. *)
Theorem finishTasks_terminal (w : AsyncNetBase) (task_ids : list nat) :
  well_formed w ->
  (Forall (fun task_id => task_id < length (chains_ w)) task_ids ->
   exists w',
     finishTasks task_ids w = Val tt w' /\
     w' = set_operators (operators_ w') w /\
     (forall task_id, task_id ∈ task_ids ->
        exists op_id e,
          tail_op w task_id = Some op_id /\ event_of w op_id = Some e /\
          tail_event w' task_id = Some (Event_Finish (Event_completion op_id) e) /\
          terminal (event_status (Event_Finish (Event_completion op_id) e)) = true) /\
     (forall op_id, (forall task_id, task_id ∈ task_ids -> tail_op w task_id <> Some op_id) ->
        operators_ w' !! op_id = operators_ w !! op_id)) /\
  (forall task_id rest, length (chains_ w) <= task_id ->
     finishTasks (task_id :: rest) w = Undefined).
Proof.
  intros Hwf. split.
  - intros Hall.
    destruct (tail_update_loop (fun op_id => Event_Finish (Event_completion op_id))
                (fun task_id =>
                   ev <- event task_id ;;
                   update_operator ev (set_event (Event_Finish (Event_completion ev))))
                (fun op_id e => Event_Finish_idemp _ e)) with (tasks := task_ids) (w := w)
      as (ops' & Hrun & _ & Hin & Hout); try done.
    { intros w0 task_id c op_id o Hc Hl Ho.
      by rewrite (bind_val _ _ _ _ _ (event_val _ _ _ _ _ Hc Hl Ho)). }
    exists (set_operators ops' w). split; [exact Hrun|]. split; [done|]. split.
    + intros task_id Hel.
      assert (Hlt : task_id < length (chains_ w)).
      { rewrite Forall_forall in Hall. by apply Hall. }
      destruct (wf_tail _ _ Hwf Hlt) as (c & op_id & o & Hc & Hl & Ho).
      assert (Htl : tail_op w task_id = Some op_id) by (unfold tail_op; by rewrite Hc).
      exists op_id, (op_event o).
      split; [done|]. split; [unfold event_of; by rewrite Ho|]. split.
      * unfold tail_event, tail_op. simpl. rewrite Hc. simpl. rewrite Hl. simpl.
        unfold event_of. simpl. rewrite Hin; [by rewrite Ho|]. by exists task_id.
      * apply Event_Finish_terminal.
    + intros op_id Hno. simpl. by apply Hout.
  - intros task_id rest Hge. unfold finishTasks. simpl.
    unfold bind, event, chain, bind, get, index.
    by rewrite (lookup_ge_None_2 _ _ Hge).
Qed.

(** X17.  [finalizeEvents] is idempotent: on a well-formed net a second
    call changes nothing.  The first call writes nothing but events of
    last operators of chains: every operator that ends no chain is as it
    was, and so is the rest of the net. *)
Theorem finalizeEvents_idempotent (w w' : AsyncNetBase) :
  well_formed w ->
  finalizeEvents w = Val tt w' ->
  finalizeEvents w' = Val tt w' /\
  w' = set_operators (operators_ w') w /\
  (forall op_id, (forall task_id, tail_op w task_id <> Some op_id) ->
     operators_ w' !! op_id = operators_ w !! op_id).
Proof.
  intros Hwf Hrun.
  assert (Hseq : forall n, Forall (fun task_id => task_id < n) (seq 0 n)).
  { intros n. apply Forall_forall. intros t Ht. apply elem_of_seq in Ht. lia. }
  destruct (finalize_loop (seq 0 (length (chains_ w))) w Hwf (Hseq _))
    as (ops' & Hfirst & Hlen & Hin & Hout).
  assert (Hw' : w' = set_operators ops' w).
  { revert Hrun. unfold finalizeEvents, tasksNum, bind, get, ret.
    rewrite Hfirst. by intros [= <-]. }
  subst w'.
  assert (Hwf' : well_formed (set_operators ops' w))
    by (by apply well_formed_set_operators).
  destruct (finalize_loop (seq 0 (length (chains_ w))) _ Hwf' (Hseq _))
    as (ops'' & Hsecond & _ & Hin' & Hout').
  split; [|split; [done|]].
  - unfold finalizeEvents, tasksNum, bind, get, ret. simpl chains_.
    rewrite Hsecond, set_operators_twice. do 2 f_equal.
    apply list_eq. intros op_id. simpl in Hin', Hout'.
    destruct (decide (Exists (fun task_id => tail_op w task_id = Some op_id)
                        (seq 0 (length (chains_ w))))) as [Hex|Hnex];
      rewrite Exists_exists in *.
    + rewrite (Hin' op_id Hex), (Hin op_id Hex).
      destruct (operators_ w !! op_id); simpl; [|done].
      by rewrite finalized_idemp.
    + rewrite Hout'; [done|]. intros task_id Hel Htl. apply Hnex. eauto.
  - intros op_id Hno. simpl. apply Hout. intros task_id _. apply Hno.
Qed.

End TailEvents.

Lemma finishTasks_terminal_witness :
  exists w',
    finishTasks (P := demo) [1; 0] three_chains = Val tt w' /\
    w' = set_operators (operators_ w') three_chains /\
    (forall task_id, task_id ∈ [1; 0] ->
       exists op_id e,
         tail_op three_chains task_id = Some op_id /\
         event_of three_chains op_id = Some e /\
         tail_event w' task_id
         = Some (Event_Finish (Event_completion (Platform := demo) op_id) e) /\
         terminal (event_status (Event_Finish (Event_completion (Platform := demo) op_id) e))
         = true) /\
    (forall op_id,
       (forall task_id, task_id ∈ [1; 0] -> tail_op three_chains task_id <> Some op_id) ->
       operators_ w' !! op_id = operators_ three_chains !! op_id).
Proof.
  apply (proj1 (finishTasks_terminal (P := demo) three_chains [1; 0] ltac:(solve_wf))).
  repeat constructor.
Defined.

Lemma finalizeEvents_idempotent_witness :
  exists w',
    finalizeEvents (P := demo) three_chains = Val tt w' /\
    finalizeEvents (P := demo) w' = Val tt w'.
Proof.
  eexists.
  assert (Hrun : finalizeEvents (P := demo) three_chains = Val tt _)
    by (vm_compute; reflexivity).
  split; [exact Hrun|].
  apply (finalizeEvents_idempotent (P := demo) three_chains _ ltac:(solve_wf) Hrun).
Defined.

(** *** Counting the parents down *)

Lemma updateParentCount_step w child_id c first_id node :
  chains_ w !! child_id = Some c ->
  head c = Some first_id ->
  operator_nodes_ w !! first_id = Some node ->
  is_int (runtime_parent_count_ node - 1) ->
  updateParentCount child_id w
  = let count := (runtime_parent_count_ node - 1)%Z in
    let w' :=
      set_operator_nodes
        (<[first_id := {| runtime_parent_count_ := count;
                          scheduled_ := scheduled_ node |}]> (operator_nodes_ w)) w in
    if (0 <=? count)%Z then Val count w' else Throw (EnforceNotMet "") w'.
Proof.
  intros Hc Hh Hn Hint. unfold updateParentCount.
  rewrite (bind_val _ _ _ _ _ (chain_val _ _ _ Hc)).
  rewrite (bind_val _ _ _ _ _ (front_val _ _ _ Hh)).
  unfold bind at 1, get at 1.
  rewrite (bind_val _ _ _ _ _ (index_val _ _ _ _ Hn)).
  rewrite (wrap_int_id _ Hint). cbv zeta.
  unfold bind, modify, CAFFE_ENFORCE.
  by destruct (0 <=? runtime_parent_count_ node - 1)%Z.
Qed.

(** X18.  A chain whose counter holds the number [n] of its parents is
    counted down by [updateParentCount] one parent at a time: call number
    [k] of the first [n] calls returns [n - k], so that zero is returned
    by the call for the last parent and by no call before it; one more
    call throws [EnforceNotMet]. *)
Theorem updateParentCount_countdown (n : nat) : forall (w : AsyncNetBase)
    (child_id : nat) (c : list nat) (first_id : nat) (node : OperatorNode),
  chains_ w !! child_id = Some c ->
  head c = Some first_id ->
  operator_nodes_ w !! first_id = Some node ->
  runtime_parent_count_ node = Z.of_nat n ->
  (Z.of_nat n <= INT_MAX)%Z ->
  let calls := successive_calls (updateParentCount child_id) (S n) w in
  length calls = S n /\
  (forall k, k < n ->
     value_of <$> calls !! k = Some (Some (Z.of_nat (n - S k)))) /\
  (exists w', calls !! n = Some (Throw (EnforceNotMet "") w')).
Proof.
  induction n as [|n IH]; intros w child_id c first_id node Hc Hh Hn Hcount Hmax calls;
    subst calls; rewrite successive_calls_cons;
    rewrite (updateParentCount_step _ _ _ _ _ Hc Hh Hn)
      by (unfold is_int, INT_MIN, INT_MAX in *; lia);
    cbv zeta; rewrite Hcount.
  - change (0 <=? Z.of_nat 0 - 1)%Z with false. cbv iota. simpl.
    split; [done|]. split; [lia|]. eauto.
  - rewrite (proj2 (Z.leb_le 0 (Z.of_nat (S n) - 1))) by lia.
    simpl state_after. cbv iota.
    set (node1 := {| runtime_parent_count_ := (Z.of_nat (S n) - 1)%Z;
                     scheduled_ := scheduled_ node |}).
    set (w1 := set_operator_nodes (<[first_id := node1]> (operator_nodes_ w)) w).
    destruct (IH w1 child_id c first_id node1) as (Hlen & Hvals & Hlast).
    { done. }
    { done. }
    { simpl. apply list_lookup_insert_eq. by eapply lookup_lt_Some. }
    { simpl. lia. }
    { lia. }
    split; [cbn [length]; by rewrite Hlen|]. split.
    + intros [|k] Hk.
      * simpl. do 2 f_equal. lia.
      * change ((?x :: ?l) !! S k) with (l !! k). rewrite Hvals by lia.
        do 3 f_equal.
    + exact Hlast.
Qed.

Lemma updateParentCount_countdown_witness :
  length (successive_calls (updateParentCount 2) 3 fan_in) = 3 /\
  (forall k, k < 2 ->
     value_of <$> successive_calls (updateParentCount 2) 3 fan_in !! k
     = Some (Some (Z.of_nat (2 - S k)))) /\
  (exists w', successive_calls (updateParentCount 2) 3 fan_in !! 2
              = Some (Throw (EnforceNotMet "") w')).
Proof.
  apply (updateParentCount_countdown 2 fan_in 2 [2] 2
           {| runtime_parent_count_ := 2; scheduled_ := false |}
           eq_refl eq_refl eq_refl eq_refl).
  unfold INT_MAX. lia.
Defined.

(** *** What is set up once *)

#[global] Instance same_setup_frame : FrameRel same_setup.
Proof.
  split; [split|].
  - intros w. by repeat split.
  - intros w1 w2 w3 (H1 & H2 & H3 & H4 & H5 & H6) (H1' & H2' & H3' & H4' & H5' & H6').
    repeat split; congruence.
  - intros ops w. by repeat split.
Qed.

#[global] Instance construction_kept_frame : FrameRel construction_kept.
Proof.
  split; [split|].
  - intros w. by repeat split.
  - intros w1 w2 w3 (H1 & H2 & H3 & H4 & H5 & H6) (H1' & H2' & H3' & H4' & H5' & H6').
    repeat split; congruence.
  - intros ops w. by repeat split.
Qed.

Section Setup.
Context `{P : Platform}.

Lemma setup_storeExceptionPtr e : preserves same_setup (storeExceptionPtr e).
Proof. unfold storeExceptionPtr. keeps. Qed.

Lemma setup_run_catch task_id op e : preserves same_setup (run_catch task_id op e).
Proof.
  unfold run_catch. apply keeps_bind; [apply _|apply setup_storeExceptionPtr|].
  intros _. cbv zeta. apply keeps_bind; [apply _| |].
  - unfold operator. keeps.
  - intros msg. apply keeps_bind; [apply _|apply frame_setTaskErrorMessage; apply _|].
    intros; apply keeps_ret; apply _.
Qed.

Lemma setup_run_op op_id stream_id : preserves same_setup (run_op op_id stream_id).
Proof. unfold run_op, AddPerOpStartTime, AddPerOpEndTime. keeps. Qed.

Lemma setup_run_ops task_id stream_id after :
  preserves same_setup after ->
  forall op_ids, preserves same_setup (run_ops task_id stream_id op_ids after).
Proof.
  intros Hafter. induction op_ids as [|i op_ids IH]; [done|]. simpl.
  apply keeps_guarded; [apply _|apply setup_run_op|apply setup_run_catch|].
  intros []; [change (negb true) with false|change (negb false) with true];
    cbv beta iota; [done|].
  apply keeps_guarded;
    [apply _| |apply setup_run_catch|intros; apply keeps_ret; apply _].
  unfold report_failed_op.
  apply keeps_bind; [apply _| |intros; apply frame_setTaskErrorMessage; apply _].
  unfold operator. keeps.
Qed.

Lemma setup_run task_id stream_id : preserves same_setup (run task_id stream_id).
Proof.
  unfold run.
  apply keeps_guarded; [apply _|apply frame_run_wait; apply _|apply setup_run_catch|].
  intros _.
  apply keeps_guarded; [apply _|unfold chain; keeps|apply setup_run_catch|].
  intros op_ids. apply setup_run_ops.
  apply keeps_guarded; [apply _|apply frame_run_finish; apply _|apply setup_run_catch|].
  intros; apply keeps_ret; apply _.
Qed.

Lemma setup_reset : preserves same_setup reset.
Proof. unfold reset, tasksNum, reset_task, parents. keeps. Qed.

Lemma setup_finalizeEvents : preserves same_setup finalizeEvents.
Proof. unfold finalizeEvents, tasksNum, finalize_task, query, event, update_operator. keeps. Qed.

Lemma setup_finishTasks task_ids : preserves same_setup (finishTasks task_ids).
Proof. unfold finishTasks, event, update_operator. keeps. Qed.

Lemma setup_stream_loop fuel task_id gpu_id :
  preserves same_setup (stream_loop fuel task_id gpu_id).
Proof.
  induction fuel as [|fuel IH]; simpl; [apply keeps_diverges; apply _|].
  unfold next_stream, getStreamCounters, isStreamFree. keeps.
Qed.

Lemma setup_stream fuel task_id : preserves same_setup (stream fuel task_id).
Proof.
  unfold stream, getStreamCounters.
  apply keeps_bind; [apply _|unfold event; keeps|]. intros ev.
  apply keeps_bind; [apply _|unfold read_event; keeps|]. intros e. cbv zeta.
  destruct (_ =? _)%Z; [|apply keeps_ret; apply _].
  apply keeps_bind; [apply _|apply keeps_enforce; apply _|]. intros _.
  apply keeps_bind; [apply _|apply keeps_get; apply _|]. intros counters.
  apply keeps_bind; [apply _| |intros; apply setup_stream_loop].
  destruct (_ <=? _)%Z; keeps.
Qed.

Lemma setup_pool device_option : preserves same_setup (pool device_option).
Proof.
  unfold pool, poolGetter, CAFFE_THROW. keeps;
    match goal with |- same_setup _ (set_pools ?r _ _) => by destruct r end.
Qed.

Lemma setup_updateParentCount child_id :
  preserves same_setup (updateParentCount child_id).
Proof. unfold updateParentCount. keeps. Qed.

Lemma setup_testAndSetScheduled task_id :
  preserves same_setup (testAndSetScheduled task_id).
Proof. unfold testAndSetScheduled. keeps. Qed.

Lemma setup_asyncWait task_id stream_id wait_task_ids :
  preserves same_setup (asyncWait task_id stream_id wait_task_ids).
Proof.
  unfold asyncWait. pose proof (frame_events_of same_setup) as Hev. keeps.
Qed.

(** X19.  What the constructor sets up is never changed afterwards:
    whatever a method does and however it ends, the chains, the chain
    graph, the execution mode, the list of events, the number of workers
    and the flags are as they were before the call. *)
Theorem setup_never_changes :
  (forall task_id stream_id, preserves same_setup (run task_id stream_id)) /\
  preserves same_setup reset /\
  preserves same_setup finalizeEvents /\
  (forall task_ids, preserves same_setup (finishTasks task_ids)) /\
  (forall fuel task_id, preserves same_setup (stream fuel task_id)) /\
  (forall device_option, preserves same_setup (pool device_option)) /\
  (forall child_id, preserves same_setup (updateParentCount child_id)) /\
  (forall task_id, preserves same_setup (testAndSetScheduled task_id)) /\
  (forall task_id stream_id wait_task_ids,
     preserves same_setup (asyncWait task_id stream_id wait_task_ids)) /\
  (forall task_id err_msg, preserves same_setup (setTaskErrorMessage task_id err_msg)) /\
  (forall e, preserves same_setup (storeExceptionPtr e)).
Proof.
  split; [apply setup_run|]. split; [apply setup_reset|].
  split; [apply setup_finalizeEvents|]. split; [apply setup_finishTasks|].
  split; [apply setup_stream|]. split; [apply setup_pool|].
  split; [apply setup_updateParentCount|]. split; [apply setup_testAndSetScheduled|].
  split; [apply setup_asyncWait|].
  split; [intros; apply frame_setTaskErrorMessage; apply _|apply setup_storeExceptionPtr].
Qed.

End Setup.

(** *** The net the constructor builds *)

Section Built.
Context `{P : Platform}.

Lemma construction_kept_init_events : preserves construction_kept init_events.
Proof.
  unfold init_events, init_chain_events, disable_inner_events, disable_inner_event,
    operator, update_operator.
  keeps.
Qed.

(** X20.  When the planner hands over chains that are not empty and name
    operators of the net, a chain graph with a node per chain, and
    parents that are chains, the net the constructor builds is
    well-formed: the hypothesis under which the methods are shown to
    return.  Its mode is the one [computeExecutionModeFlags] computed,
    its pools are empty, no exception is captured, and the number of
    workers is the one of the net definition, -1 when it has none. *)
Theorem constructor_well_formed (F : Flags) (net_def : NetDef) (mode : ExecutionMode) :
  computeExecutionModeFlags F net_def = inr mode ->
  let nodes := prepareOperatorNodes net_def in
  let chains :=
    map snd (if FLAGS_caffe2_net_async_inference_mode F
             then computeGroups nodes else computeChains nodes) in
  let graph := prepareChainGraphNodes nodes chains in
  Forall (chain_ok (length nodes)) chains ->
  length graph = length chains ->
  Forall (fun node => Forall (fun p => p < length chains) (parents_ node)) graph ->
  exists w,
    AsyncNetBase_new F net_def = Constructed w /\
    well_formed w /\
    mode_ w = mode /\
    operator_nodes_ w = map snd nodes /\
    chain_nodes_ w = graph /\
    num_workers_ w
    = (if net_has_num_workers net_def then net_num_workers net_def else -1)%Z /\
    cpu_pools_ w = ∅ /\ gpu_pools_ w = ∅ /\
    caught_exception_ w = None.
Proof.
  intros Hmode nodes chains graph Hok Hgraph Hparents.
  unfold AsyncNetBase_new. rewrite Hmode.
  fold nodes. fold chains. fold graph.
  match goal with |- context [init_events ?w0] => set (w_init := w0) end.
  assert (Hloop : exists w',
    init_events w_init = Val tt w' /\ chains_ w' = chains /\ mode_ w' = mode /\
    length (operators_ w') = length nodes).
  { unfold init_events. unfold bind at 1, get at 1. simpl chains_.
    destruct (init_events_loop chains w_init) as (w' & Hrun & Hch & Hm & _ & Hops).
    { simpl. by rewrite length_map. }
    exists w'. split; [done|]. split; [done|]. split; [done|].
    rewrite Hops. simpl.
    destruct (report_stats_ mode); rewrite ?disable_all_length; apply length_map. }
  destruct Hloop as (w' & Hrun & Hch & Hm & Hlen).
  destruct (construction_kept_init_events w_init w')
    as (Hn & Hcn & Hnw & Hcpu & Hgpu & Hex); [by rewrite Hrun|].
  rewrite Hrun. exists w'. split; [done|]. split.
  - split.
    + by rewrite Hch, Hlen.
    + rewrite Hn, Hlen. simpl. apply length_map.
    + by rewrite Hcn, Hch.
    + by rewrite Hcn, Hch.
  - by repeat split.
Qed.

End Built.

Lemma constructor_well_formed_witness :
  exists w,
    AsyncNetBase_new (P := demo) inference_flags linear_triple = Constructed w /\
    well_formed w /\
    mode_ w = default_mode /\
    operator_nodes_ w = map snd (prepareOperatorNodes (Platform := demo) linear_triple) /\
    chain_nodes_ w = [root] /\
    num_workers_ w = (-1)%Z /\
    cpu_pools_ w = ∅ /\ gpu_pools_ w = ∅ /\
    caught_exception_ w = None.
Proof.
  apply (constructor_well_formed (P := demo) inference_flags linear_triple
           default_mode eq_refl).
  - simpl. repeat first [ apply Forall_nil_2 | apply Forall_cons_2 | split | done | lia ].
  - reflexivity.
  - simpl. repeat first [ apply Forall_nil_2 | apply Forall_cons_2 ].
Defined.

(** *** The first error message *)

Section FirstMessage.
Context `{P : Platform}.

(** X21.  The first error message of a task is the one that stays:
    once [setTaskErrorMessage] has returned for a task, a further call for
    that task, with whatever message, changes nothing. *)
Theorem setTaskErrorMessage_first_wins (w w' : AsyncNetBase) (task_id : nat)
    (first_msg : string) :
  setTaskErrorMessage task_id first_msg w = Val tt w' ->
  forall err_msg, setTaskErrorMessage task_id err_msg w' = Val tt w'.
Proof.
  intros Hset err_msg.
  destruct (chains_ w !! task_id) as [ch|] eqn:Hch; cycle 1.
  { exfalso. revert Hset.
    unfold setTaskErrorMessage, query, event, chain, bind, get, index.
    by rewrite Hch. }
  destruct (last ch) as [t|] eqn:Hl; cycle 1.
  { exfalso. revert Hset.
    unfold setTaskErrorMessage, query, event, chain, bind, get, index, ret, back.
    rewrite Hch. simpl. by rewrite Hl. }
  destruct (operators_ w !! t) as [ot|] eqn:Hot; cycle 1.
  { exfalso. revert Hset.
    unfold setTaskErrorMessage, query, event, chain, operator, bind, get, index,
      ret, back.
    rewrite Hch. simpl. rewrite Hl. simpl. by rewrite Hot. }
  rewrite (setTaskErrorMessage_val _ _ _ _ _ _ Hch Hl Hot) in Hset.
  injection Hset as <-.
  pose proof (error_message_set_event _ _ _ first_msg Hot) as Hev.
  unfold event_of in Hev.
  destruct (operators_ (error_message_set t first_msg w) !! t) as [ot'|] eqn:Hot';
    [|done].
  simpl in Hev. injection Hev as Hev.
  rewrite (setTaskErrorMessage_val _ _ ch t ot');
    [|by rewrite error_message_set_chains|done|done].
  f_equal. apply (error_message_set_unchanged _ _ _ ot'); [done|].
  rewrite Hev. by case_bool_decide.
Qed.

End FirstMessage.

Lemma setTaskErrorMessage_first_wins_witness :
  exists w',
    setTaskErrorMessage 0 "first" three_chains = Val tt w' /\
    setTaskErrorMessage 0 "second" w' = Val tt w' /\
    event_err_msg <$> tail_event w' 0 = Some "first".
Proof.
  eexists.
  assert (Hset : setTaskErrorMessage 0 "first" three_chains = Val tt _)
    by (vm_compute; reflexivity).
  split; [exact Hset|]. split; [|reflexivity].
  apply (setTaskErrorMessage_first_wins three_chains _ 0 "first" Hset).
Defined.

(** *** The accessors and their bounds *)

Section Accessors.
Context `{P : Platform}.

(** X22.  On a well-formed net the accessors of a task return for every
    task of the net: the chain is not empty, its first and its last
    operator are operators of the net, and [query] reads the status of the
    event of the last one.  For a task that is not of the net they index
    [chains_] or [chain_nodes_] out of range, which is undefined
    behaviour. *)
Theorem accessors_in_range (w : AsyncNetBase) (task_id : nat) :
  well_formed w ->
  (task_id < length (chains_ w) ->
   exists c first_id last_id o node,
     chains_ w !! task_id = Some c /\
     numOps task_id w = Val (length c) w /\ 0 < length c /\
     firstTaskOpId task_id w = Val first_id w /\ head c = Some first_id /\
     first_id < length (operators_ w) /\
     lastTaskOpId task_id w = Val last_id w /\ last c = Some last_id /\
     last_id < length (operators_ w) /\
     event task_id w = Val last_id w /\
     operators_ w !! last_id = Some o /\
     query task_id w = Val (event_status (op_event o)) w /\
     chain_nodes_ w !! task_id = Some node /\
     parents task_id w = Val (parents_ node) w /\
     children task_id w = Val (children_ node) w /\
     exists count, getParentCount task_id w = Val count w) /\
  (length (chains_ w) <= task_id ->
   numOps task_id w = Undefined /\
   firstTaskOpId task_id w = Undefined /\
   lastTaskOpId task_id w = Undefined /\
   event task_id w = Undefined /\
   query task_id w = Undefined /\
   parents task_id w = Undefined /\
   children task_id w = Undefined /\
   getParentCount task_id w = Undefined).
Proof.
  intros Hwf. split.
  - intros Hlt.
    destruct (wf_chain _ _ Hwf Hlt) as (c & f & l & Hc & Hf & Hl & Hflt & Hllt).
    destruct (lookup_lt_is_Some_2 _ _ Hllt) as [o Ho].
    pose proof Hwf as [_ Hn Hcn _].
    destruct (lookup_lt_is_Some_2 (operator_nodes_ w) f) as [onode Honode]; [lia|].
    destruct (lookup_lt_is_Some_2 (chain_nodes_ w) task_id) as [node Hnode]; [lia|].
    exists c, f, l, o, node.
    split; [done|]. split.
    { unfold numOps. by rewrite (bind_val _ _ _ _ _ (chain_val _ _ _ Hc)). }
    split; [destruct c; [done|simpl; lia]|]. split.
    { unfold firstTaskOpId. rewrite (bind_val _ _ _ _ _ (chain_val _ _ _ Hc)).
      by apply front_val. }
    split; [done|]. split; [done|]. split.
    { unfold lastTaskOpId. rewrite (bind_val _ _ _ _ _ (chain_val _ _ _ Hc)).
      by apply back_val. }
    split; [done|]. split; [done|].
    split; [by apply (event_val _ _ c l o)|]. split; [done|].
    split; [by apply (query_val _ _ c l o)|]. split; [done|]. split.
    { unfold parents. unfold bind at 1, get at 1.
      by rewrite (bind_val _ _ _ _ _ (index_val _ _ _ _ Hnode)). }
    split.
    { unfold children. unfold bind at 1, get at 1.
      by rewrite (bind_val _ _ _ _ _ (index_val _ _ _ _ Hnode)). }
    exists (runtime_parent_count_ onode). unfold getParentCount.
    rewrite (bind_val _ _ _ _ _ (chain_val _ _ _ Hc)).
    rewrite (bind_val _ _ _ _ _ (front_val _ _ _ Hf)).
    unfold bind at 1, get at 1.
    by rewrite (bind_val _ _ _ _ _ (index_val _ _ _ _ Honode)).
  - intros Hge.
    pose proof (lookup_ge_None_2 (chains_ w) task_id Hge) as Hnone.
    assert (Hnone' : chain_nodes_ w !! task_id = None).
    { apply lookup_ge_None_2. destruct Hwf as [_ _ Hcn _]. lia. }
    unfold numOps, firstTaskOpId, lastTaskOpId, query, event, parents, children,
      getParentCount, chain, bind, get, index.
    by rewrite Hnone, Hnone'.
Qed.

End Accessors.

Lemma accessors_in_range_witness :
  exists c first_id last_id o node,
    chains_ fan_in !! 2 = Some c /\
    numOps 2 fan_in = Val (length c) fan_in /\ 0 < length c /\
    firstTaskOpId 2 fan_in = Val first_id fan_in /\ head c = Some first_id /\
    first_id < length (operators_ fan_in) /\
    lastTaskOpId 2 fan_in = Val last_id fan_in /\ last c = Some last_id /\
    last_id < length (operators_ fan_in) /\
    event 2 fan_in = Val last_id fan_in /\
    operators_ fan_in !! last_id = Some o /\
    query 2 fan_in = Val (event_status (op_event o)) fan_in /\
    chain_nodes_ fan_in !! 2 = Some node /\
    parents 2 fan_in = Val (parents_ node) fan_in /\
    children 2 fan_in = Val (children_ node) fan_in /\
    exists count, getParentCount 2 fan_in = Val count fan_in.
Proof.
  apply (proj1 (accessors_in_range fan_in 2 ltac:(solve_wf))).
  simpl. lia.
Defined.

(** *** Waiting for other tasks *)

Section Waiting.
Context `{P : Platform}.

Lemma events_of_val w :
  well_formed w ->
  forall task_ids, Forall (fun task_id => task_id < length (chains_ w)) task_ids ->
  exists events,
    events_of task_ids w = Val events w /\
    Forall2 (fun task_id ev => tail_op w task_id = Some ev) task_ids events.
Proof.
  intros Hwf. induction task_ids as [|t task_ids IH]; intros Hall.
  - exists []. split; [done|constructor].
  - inversion Hall as [|? ? Hlt Hall']; subst.
    destruct (IH Hall') as (events & Hrest & Htails).
    destruct (wf_tail _ _ Hwf Hlt) as (c & tl & o & Hc & Hl & Ho).
    exists (tl :: events). split.
    + simpl. rewrite (bind_val _ _ _ _ _ (event_val _ _ _ _ _ Hc Hl Ho)).
      by rewrite (bind_val _ _ _ _ _ Hrest).
    + constructor; [|done]. unfold tail_op. by rewrite Hc.
Qed.

(** X23.  [asyncWait] makes the first operator of the chain wait, on the
    given stream, for the events of the last operators of the tasks it is
    given, one event per task and in the order of the list; the call of
    [WaitEvents] is all it does.  [run] starts with this wait for the
    parents of the chain, unless [finish_chain_] is set, when it does not
    wait at all. *)
Theorem asyncWait_waits_for_tails (w : AsyncNetBase) (task_id : nat) (stream_id : Z)
    (wait_task_ids : list nat) :
  well_formed w ->
  task_id < length (chains_ w) ->
  Forall (fun wait_task_id => wait_task_id < length (chains_ w)) wait_task_ids ->
  exists first_op_id events,
    head_op w task_id = Some first_op_id /\
    Forall2 (fun wait_task_id ev => tail_op w wait_task_id = Some ev)
            wait_task_ids events /\
    asyncWait task_id stream_id wait_task_ids w
    = call (Operator_WaitEvents first_op_id events stream_id) w /\
    (forall node, chain_nodes_ w !! task_id = Some node ->
       wait_task_ids = parents_ node ->
       run_wait task_id stream_id w
       = if finish_chain_ (mode_ w) then Val tt w
         else call (Operator_WaitEvents first_op_id events stream_id) w).
Proof.
  intros Hwf Hlt Hall.
  destruct (wf_chain _ _ Hwf Hlt) as (c & f & l & Hc & Hf & _ & Hflt & _).
  destruct (lookup_lt_is_Some_2 _ _ Hflt) as [o Ho].
  destruct (events_of_val w Hwf wait_task_ids Hall) as (events & Hevents & Htails).
  assert (Hwait : asyncWait task_id stream_id wait_task_ids w
                  = call (Operator_WaitEvents f events stream_id) w).
  { unfold asyncWait.
    rewrite (bind_val _ _ _ _ _ (chain_val _ _ _ Hc)).
    rewrite (bind_val _ _ _ _ _ (front_val _ _ _ Hf)).
    rewrite (bind_val _ _ _ _ _ (operator_val _ _ _ Ho)).
    by rewrite (bind_val _ _ _ _ _ Hevents). }
  exists f, events. split; [unfold head_op; by rewrite Hc|].
  split; [done|]. split; [done|].
  intros node Hnode ->. unfold run_wait. unfold bind at 1, get at 1.
  destruct (finish_chain_ (mode_ w)); [done|].
  change (negb false) with true. cbv iota.
  unfold parents. unfold bind at 1. unfold bind at 1, get at 1.
  by rewrite (bind_val _ _ _ _ _ (index_val _ _ _ _ Hnode)).
Qed.

End Waiting.

Lemma asyncWait_waits_for_tails_witness :
  exists first_op_id events,
    head_op fan_in 2 = Some first_op_id /\
    Forall2 (fun wait_task_id ev => tail_op fan_in wait_task_id = Some ev) [0; 1] events /\
    asyncWait (P := demo) 2 0 [0; 1] fan_in
    = call (Operator_WaitEvents (Platform := demo) first_op_id events 0) fan_in /\
    (forall node, chain_nodes_ fan_in !! 2 = Some node ->
       [0; 1] = parents_ node ->
       run_wait (P := demo) 2 0 fan_in
       = if finish_chain_ (mode_ fan_in) then Val tt fan_in
         else call (Operator_WaitEvents (Platform := demo) first_op_id events 0) fan_in).
Proof.
  apply (asyncWait_waits_for_tails (P := demo) fan_in 2 0 [0; 1] ltac:(solve_wf)).
  - simpl. lia.
  - repeat constructor.
Defined.

(** *** reset, twice *)

Lemma ResetEvent_idemp o : ResetEvent (ResetEvent o) = ResetEvent o.
Proof. done. Qed.

Section ResetTwice.
Context `{P : Platform}.

Lemma map_ResetEvent_twice ops :
  map ResetEvent (map ResetEvent ops) = map ResetEvent ops.
Proof. rewrite map_map. apply map_ext. intros o. apply ResetEvent_idemp. Qed.

Lemma slot_cleared_twice ops nodes w :
  slot_cleared
    (set_operator_nodes nodes
       (set_operators ops
          (slot_cleared (set_operator_nodes nodes (set_operators ops w)))))
  = slot_cleared (set_operator_nodes nodes (set_operators ops w)).
Proof. unfold slot_cleared. destruct w. by destruct CAFFE2_USE_EXCEPTION_PTR. Qed.

Lemma reset_val w w2 :
  for_each (seq 0 (length (chains_ w))) reset_task
    (set_operators (map ResetEvent (operators_ w)) w) = Val tt w2 ->
  reset w = Val tt (slot_cleared w2).
Proof.
  intros Hloop. unfold reset. unfold bind at 1, modify at 1.
  unfold bind at 1, tasksNum, bind at 1, get at 1, ret at 1.
  unfold bind at 1. simpl chains_. rewrite Hloop.
  unfold bind, modify, slot_cleared. by destruct CAFFE2_USE_EXCEPTION_PTR.
Qed.

(** X24.  [reset] resets the event of every operator of the net, not
    only of those that end a chain, and it is idempotent: on a
    well-formed net whose chains start with different operators a second
    [reset] right after the first changes nothing. *)
Theorem reset_idempotent (w w' : AsyncNetBase) :
  well_formed w -> distinct_heads w ->
  reset w = Val tt w' ->
  operators_ w' = map ResetEvent (operators_ w) /\
  reset w' = Val tt w'.
Proof.
  intros Hwf Hheads Hreset.
  assert (Hseq : forall n, Forall (fun task_id => task_id < n) (seq 0 n)).
  { intros n. apply Forall_forall. intros t Ht. apply elem_of_seq in Ht. lia. }
  set (ops1 := map ResetEvent (operators_ w)).
  set (w1 := set_operators ops1 w).
  assert (Hwf1 : well_formed w1).
  { apply well_formed_set_operators; [apply length_map|done]. }
  destruct (reset_loop_counts (seq 0 (length (chains_ w1))) w1 Hwf1 Hheads
              (NoDup_seq _ _) (Hseq _)) as (nodes' & Hrun & Hin & Hout).
  pose proof (reset_val w _ Hrun) as Hfirst.
  assert (w' = slot_cleared (set_operator_nodes nodes' w1)) as -> by congruence.
  assert (Hops' : operators_ (slot_cleared (set_operator_nodes nodes' w1)) = ops1).
  { unfold slot_cleared. by destruct CAFFE2_USE_EXCEPTION_PTR. }
  split; [done|].
  set (w' := slot_cleared (set_operator_nodes nodes' w1)) in *.
  assert (Hlen' : length nodes' = length (operator_nodes_ w)).
  { destruct (reset_loop (seq 0 (length (chains_ w1))) w1 Hwf1 (Hseq _))
      as (nodes0 & Hrun0 & Hlen0).
    rewrite Hrun in Hrun0. injection Hrun0 as Hrun0. subst nodes0. exact Hlen0. }
  set (w1' := set_operators (map ResetEvent (operators_ w')) w').
  assert (Hshape : chains_ w1' = chains_ w /\ chain_nodes_ w1' = chain_nodes_ w /\
                   operator_nodes_ w1' = nodes' /\
                   length (operators_ w1') = length (operators_ w)).
  { unfold w1', w', slot_cleared, w1, ops1.
    destruct CAFFE2_USE_EXCEPTION_PTR; simpl; by rewrite ?length_map. }
  destruct Hshape as (Hch & Hcn & Hnodes & Hlen).
  assert (Hwf1' : well_formed w1').
  { destruct Hwf as [H1 H2 H3 H4].
    split; rewrite ?Hch, ?Hcn, ?Hnodes, ?Hlen; try done. congruence. }
  assert (Hheads' : distinct_heads w1').
  { intros i j h. unfold head_op. rewrite Hch. apply Hheads. }
  destruct (reset_loop_counts (seq 0 (length (chains_ w1'))) w1' Hwf1' Hheads'
              (NoDup_seq _ _) (Hseq _)) as (nodes'' & Hrun' & Hin' & Hout').
  rewrite (reset_val w' _ Hrun').
  assert (Hsame : nodes'' = nodes').
  { apply list_eq. intros h.
    destruct (decide (Exists (fun task_id => head_op w task_id = Some h)
                        (seq 0 (length (chains_ w))))) as [Hex|Hnex];
      rewrite Exists_exists in *.
    - destruct Hex as (task_id & Hel & Hh).
      assert (Hlt : task_id < length (chains_ w)) by (apply elem_of_seq in Hel; lia).
      destruct Hwf as [_ _ Hcnlen _].
      destruct (lookup_lt_is_Some_2 (chain_nodes_ w) task_id) as [cn Hcnode]; [lia|].
      rewrite (Hin' task_id h cn), (Hin task_id h cn); try done.
      + by rewrite Hch.
      + unfold head_op. by rewrite Hch.
      + by rewrite Hcn.
    - rewrite Hout'; [by rewrite Hnodes|].
      rewrite Hch. intros task_id Hel Hh. apply Hnex. exists task_id.
      split; [done|]. revert Hh. unfold head_op. by rewrite Hch. }
  rewrite Hsame. f_equal.
  unfold w1'. rewrite Hops'. unfold ops1 at 1. rewrite map_ResetEvent_twice.
  apply slot_cleared_twice.
Qed.

End ResetTwice.

Lemma reset_idempotent_witness :
  exists w',
    reset (P := demo) fan_in = Val tt w' /\
    operators_ w' = map ResetEvent (operators_ fan_in) /\
    reset (P := demo) w' = Val tt w'.
Proof.
  eexists.
  assert (Hreset : reset (P := demo) fan_in = Val tt _) by (vm_compute; reflexivity).
  split; [exact Hreset|].
  apply (reset_idempotent (P := demo) fan_in _); [solve_wf| |exact Hreset].
  intros i j h Hi Hj. unfold head_op in *.
  destruct i as [|[|[|i]]]; destruct j as [|[|[|j]]]; simpl in *; congruence.
Defined.
